(** * OIRNOIR/util: the tunnelling client and the raw HTTP response parser

    A shallow embedding of [FetchProxy] (src/Proxy.ts) and of
    [parseRawHttpResponse] (the curl wrapper's parser), together with the
    parts of the JavaScript platform the two functions call: string
    primitives, [Number], [JSON.parse], [JSON.stringify], [Headers] (with
    [new Headers] on a decoded value) and the [Response] constructor.

    The pure helpers of the same module follow: [isNumeric], the component
    searches [filterComponents], [findComponent] and
    [getComponentByCustomId], [splitMessage], [commaNumber], [msToHuman] and
    [msToShort], with [String(number)] and the arithmetic of Numbers they
    use. *)

From Stdlib Require Import Ascii String List Bool NArith ZArith QArith Qround
  Qpower Lia Lqa.
Import ListNotations.
Set Warnings "-register-all".
Open Scope N_scope.
Open Scope list_scope.

(** ** Strings

    A JavaScript string is a sequence of UTF-16 code units. *)

Definition code_unit := N.
Definition jsstring := list code_unit.

(** The string whose code units are the bytes of a literal. *)
Definition js (s : string) : jsstring :=
  map N_of_ascii (list_ascii_of_string s).
Arguments js s%_string.

Definition LF : code_unit := 10.
Definition CR : code_unit := 13.
Definition SP : code_unit := 32.
Definition COLON : code_unit := 58.
Definition CRLF : jsstring := [CR; LF].

Fixpoint jsstring_eqb (a b : jsstring) : bool :=
  match a, b with
  | [], [] => true
  | x :: a', y :: b' => (x =? y) && jsstring_eqb a' b'
  | _, _ => false
  end.

(** WhiteSpace and LineTerminator code units, the set stripped by
    [String.prototype.trim] and skipped by [Number] around a literal. *)
Definition is_whitespace (c : code_unit) : bool :=
  ((9 <=? c) && (c <=? 13)) || (c =? 32) || (c =? 160) || (c =? 5760)
  || ((8192 <=? c) && (c <=? 8202)) || (c =? 8232) || (c =? 8233)
  || (c =? 8239) || (c =? 8287) || (c =? 12288) || (c =? 65279).

Fixpoint drop_while {A} (p : A -> bool) (l : list A) : list A :=
  match l with
  | [] => []
  | x :: t => if p x then drop_while p t else l
  end.

Definition strip (p : code_unit -> bool) (s : jsstring) : jsstring :=
  rev (drop_while p (rev (drop_while p s))).

(** [s.trim()] *)
Definition trim (s : jsstring) : jsstring := strip is_whitespace s.

(** [s.indexOf(c)] for a one-unit needle: the first position, or [-1]. *)
Fixpoint indexOf (c : code_unit) (s : jsstring) : Z :=
  match s with
  | [] => (-1)%Z
  | x :: t =>
      if x =? c then 0%Z
      else match indexOf c t with
           | Zneg _ => (-1)%Z
           | i => (i + 1)%Z
           end
  end.

(** Relative index of [slice]: negative counts from the end, then clamped. *)
Definition slice_index (len k : Z) : Z :=
  if (k <? 0)%Z then Z.max (len + k) 0 else Z.min k len.

(** [s.slice(from, to)] *)
Definition slice (from to : Z) (s : jsstring) : jsstring :=
  let len := Z.of_nat (length s) in
  let a := slice_index len from in
  let b := slice_index len to in
  firstn (Z.to_nat (b - a)) (skipn (Z.to_nat a) s).

(** [s.slice(from)] *)
Definition slice_from (from : Z) (s : jsstring) : jsstring :=
  slice from (Z.of_nat (length s)) s.

(** [parts.join(sep)] *)
Fixpoint join (sep : jsstring) (parts : list jsstring) : jsstring :=
  match parts with
  | [] => []
  | [p] => p
  | p :: rest => p ++ sep ++ join sep rest
  end.

(** [s.split(sep)] for a separator that never matches the empty string.
    [m s] is the length of the separator match anchored at the head of [s],
    [0%nat] when there is none.  [skip] counts the units of the current
    match still to be consumed, [cur] is the current piece, reversed. *)
Fixpoint split_go (m : jsstring -> nat) (skip : nat) (cur : jsstring)
    (s : jsstring) : list jsstring :=
  match s with
  | [] => [rev cur]
  | c :: t =>
      match skip with
      | S k => split_go m k cur t
      | O =>
          match m s with
          | O => split_go m 0 (c :: cur) t
          | S k => rev cur :: split_go m k [] t
          end
      end
  end.

Definition split (m : jsstring -> nat) (s : jsstring) : list jsstring :=
  split_go m 0 [] s.

(** The separator [" "]. *)
Definition space_len (s : jsstring) : nat :=
  match s with
  | c :: _ => if c =? SP then 1 else 0
  | [] => 0
  end.

(** The pattern [/\r?\n/]. *)
Definition eol_len (s : jsstring) : nat :=
  match s with
  | c :: t =>
      if c =? LF then 1
      else if c =? CR then
        match t with
        | d :: _ => if d =? LF then 2 else 0
        | [] => 0
        end
      else 0
  | [] => 0
  end.

(** The pattern [/\r?\n\r?\n/]: two line ends in a row.  Backtracking over
    either [\r?] cannot help, a skipped [\r] is not a [\n]. *)
Definition blank_len (s : jsstring) : nat :=
  match eol_len s with
  | O => 0
  | S a =>
      match eol_len (skipn (S a) s) with
      | O => 0
      | S b => S a + S b
      end
  end.

(** ** Errors and results *)

Inductive error :=
| Error (message : jsstring)   (* [throw new Error(message)] in the source *)
| SyntaxError                  (* raised by [JSON.parse] *)
| TypeError                    (* raised by [Headers] and [Response] *)
| RangeError                   (* raised by [Response] *)
| TransportError (reason : jsstring). (* a rejected transport call *)

Inductive result (A : Type) :=
| Ok (a : A)
| Throw (e : error).
Arguments Ok {A} a.
Arguments Throw {A} e.

Definition bind {A B} (r : result A) (k : A -> result B) : result B :=
  match r with
  | Ok a => k a
  | Throw e => Throw e
  end.

Notation "'let*' x ':=' r 'in' k" := (bind r (fun x => k))
  (at level 10, x pattern, r at level 100, k at level 200).

(** ** Numbers

    A Number is an IEEE 754 binary64 value.  A finite value is carried as
    the rational it denotes, in lowest terms; [Num 0] is [+0]. *)

Inductive number :=
| NaN
| Inf (negative : bool)
| NegZero
| Num (q : Q).

Definition Qpow2 (e : Z) : Q := Qpower 2%Q e.

(** [floor (log2 q)] for [q > 0]. *)
Definition Qlog2_floor (q : Q) : Z :=
  let e0 := (Z.log2 (Qnum q) - Z.log2 (Zpos (Qden q)))%Z in
  if Qle_bool (Qpow2 e0) q then e0 else (e0 - 1)%Z.

(** Nearest integer, ties to even, for [q >= 0]. *)
Definition round_half_even (q : Q) : Z :=
  let f := Qfloor q in
  match Qcompare (q - inject_Z f)%Q (1 # 2)%Q with
  | Lt => f
  | Gt => (f + 1)%Z
  | Eq => if Z.even f then f else (f + 1)%Z
  end.

(** The binary64 value nearest to [q > 0] (53-bit significand, least
    exponent -1022, overflow to infinity); [None] is infinity. *)
Definition round64 (q : Q) : option Q :=
  let e := Z.max (Qlog2_floor q) (-1022) in
  let ulp := Qpow2 (e - 52) in
  let v := (inject_Z (round_half_even (q / ulp)) * ulp)%Q in
  if Qle_bool (Qpow2 1024) v then None else Some (Qred v).

(** The Number for a mathematical value [mv >= 0] with a sign. *)
Definition number_of_MV (negative : bool) (mv : Q) : number :=
  if Qeq_bool mv 0%Q then (if negative then NegZero else Num 0%Q)
  else
    match round64 mv with
    | None => Inf negative
    | Some v =>
        if Qeq_bool v 0%Q then (if negative then NegZero else Num 0%Q)
        else Num (if negative then Qred (- v)%Q else v)
    end.

Definition number_of_N (n : N) : number :=
  number_of_MV false (inject_Z (Z.of_N n)).

(** *** [Number(string)]: the StringNumericLiteral grammar *)

Definition digit_of (base : N) (c : code_unit) : option N :=
  let v :=
    if (48 <=? c) && (c <=? 57) then Some (c - 48)
    else if (97 <=? c) && (c <=? 102) then Some (c - 87)
    else if (65 <=? c) && (c <=? 70) then Some (c - 55)
    else None in
  match v with
  | Some d => if d <? base then Some d else None
  | None => None
  end.

Fixpoint span_digits (base : N) (s : jsstring) : list N * jsstring :=
  match s with
  | [] => ([], [])
  | c :: t =>
      match digit_of base c with
      | Some d => let (ds, r) := span_digits base t in (d :: ds, r)
      | None => ([], s)
      end
  end.

Definition digits_value (base : N) (ds : list N) : N :=
  fold_left (fun a d => base * a + d) ds 0.

(** [0x], [0o] and [0b] literals; they take no sign. *)
Definition non_decimal_literal (s : jsstring) : option N :=
  match s with
  | z :: p :: t =>
      let base :=
        if (p =? 120) || (p =? 88) then 16
        else if (p =? 111) || (p =? 79) then 8
        else if (p =? 98) || (p =? 66) then 2
        else 0 in
      if (z =? 48) && negb (base =? 0) then
        match span_digits base t with
        | (d :: ds, []) => Some (digits_value base (d :: ds))
        | _ => None
        end
      else None
  | _ => None
  end.

(** What follows the significand: nothing, or [e], a sign and digits up to
    the end of the literal. *)
Definition exponent_part (s : jsstring) : option Z :=
  match s with
  | [] => Some 0%Z
  | c :: t =>
      if (c =? 101) || (c =? 69) then
        let '(neg, u) :=
          match t with
          | sg :: u =>
              if sg =? 43 then (false, u)
              else if sg =? 45 then (true, u)
              else (false, t)
          | [] => (false, t)
          end in
        match span_digits 10 u with
        | (d :: ds, []) =>
            let v := Z.of_N (digits_value 10 (d :: ds)) in
            Some (if neg : bool then (- v)%Z else v)
        | _ => None
        end
      else None
  end.

Inductive literal :=
| LitInfinity
| LitMV (mv : Q).

(** The mathematical value of [digits * 10^exp]. *)
Definition decimal_MV (ds : list N) (exp : Z) : Q :=
  (inject_Z (Z.of_N (digits_value 10 ds)) * Qpower 10 exp)%Q.

Definition unsigned_decimal_literal (s : jsstring) : option literal :=
  if jsstring_eqb s (js "Infinity") then Some LitInfinity
  else
    let (ip, r1) := span_digits 10 s in
    let (fp, r2) :=
      match r1 with
      | c :: t => if c =? 46 then span_digits 10 t else ([], r1)
      | [] => ([], r1)
      end in
    match ip ++ fp with
    | [] => None
    | ds =>
        match exponent_part r2 with
        | Some e => Some (LitMV (decimal_MV ds (e - Z.of_nat (length fp))))
        | None => None
        end
    end.

Definition StringToNumber (s : jsstring) : number :=
  let t := trim s in
  match t with
  | [] => Num 0%Q
  | c :: u =>
      match non_decimal_literal t with
      | Some n => number_of_N n
      | None =>
          let '(neg, lit) :=
            if c =? 45 then (true, u)
            else if c =? 43 then (false, u)
            else (false, t) in
          match unsigned_decimal_literal lit with
          | Some LitInfinity => Inf neg
          | Some (LitMV mv) => number_of_MV neg mv
          | None => NaN
          end
      end
  end.

(** The values the two functions hand to [Number]. *)
Inductive primitive :=
| Undefined
| Null
| Str (s : jsstring).

(** [Number(v)] *)
Definition Number (v : primitive) : number :=
  match v with
  | Undefined => NaN
  | Null => Num 0%Q
  | Str s => StringToNumber s
  end.

Definition Qtrunc (q : Q) : Z :=
  if Qle_bool 0%Q q then Qfloor q else Qceiling q.

(** Conversion to the WebIDL type [unsigned short]. *)
Definition ToUint16 (x : number) : N :=
  match x with
  | Num q => Z.to_N (Qtrunc q mod 65536)
  | _ => 0
  end.

Definition is_positive_integer (x : number) : bool :=
  match x with
  | Num q => Qeq_bool q (inject_Z (Qfloor q)) && negb (Qle_bool q 0%Q)
  | _ => false
  end.

(** ** JSON *)

(** The value [JSON.parse] returns.  An object is carried as the members
    of its text, in their order; they determine the properties of the
    JavaScript object. *)
Inductive json :=
| JNull
| JBool (b : bool)
| JNum (n : number)
| JStr (s : jsstring)
| JArr (items : list json)
| JObj (members : list (jsstring * json)).

Definition is_json_ws (c : code_unit) : bool :=
  (c =? 32) || (c =? 9) || (c =? 10) || (c =? 13).

Definition skip_ws (s : jsstring) : jsstring := drop_while is_json_ws s.

Fixpoint strip_prefix (p s : jsstring) : option jsstring :=
  match p, s with
  | [], _ => Some s
  | a :: p', b :: s' => if a =? b then strip_prefix p' s' else None
  | _ :: _, [] => None
  end.

Definition simple_escape (e : code_unit) : option code_unit :=
  if (e =? 34) || (e =? 92) || (e =? 47) then Some e
  else if e =? 98 then Some 8
  else if e =? 102 then Some 12
  else if e =? 110 then Some 10
  else if e =? 114 then Some 13
  else if e =? 116 then Some 9
  else None.

Definition hex4 (a b c d : code_unit) : option code_unit :=
  match digit_of 16 a, digit_of 16 b, digit_of 16 c, digit_of 16 d with
  | Some x, Some y, Some z, Some w => Some (((x * 16 + y) * 16 + z) * 16 + w)
  | _, _, _, _ => None
  end.

Definition cons_chars (c : code_unit) (r : option (jsstring * jsstring))
    : option (jsstring * jsstring) :=
  match r with
  | Some (s, rest) => Some (c :: s, rest)
  | None => None
  end.

(** The characters of a string literal after its opening quote, decoded,
    and the text after the closing quote. *)
Fixpoint json_chars (s : jsstring) : option (jsstring * jsstring) :=
  match s with
  | [] => None
  | c :: t =>
      if c =? 34 then Some ([], t)
      else if c <? 32 then None
      else if c =? 92 then
        match t with
        | e :: t1 =>
            if e =? 117 then
              match t1 with
              | h1 :: h2 :: h3 :: h4 :: t2 =>
                  match hex4 h1 h2 h3 h4 with
                  | Some u => cons_chars u (json_chars t2)
                  | None => None
                  end
              | _ => None
              end
            else
              match simple_escape e with
              | Some u => cons_chars u (json_chars t1)
              | None => None
              end
        | [] => None
        end
      else cons_chars c (json_chars t)
  end.

(** A number token: [-? int frac? exp?], no leading zero, digits required
    after [.] and after [e]. *)
Definition json_number (s : jsstring) : option (number * jsstring) :=
  let '(neg, s1) :=
    match s with
    | c :: t => if c =? 45 then (true, t) else (false, s)
    | [] => (false, s)
    end in
  let (ip, r1) := span_digits 10 s1 in
  let leading_zero :=
    match ip with
    | d :: _ :: _ => d =? 0
    | _ => false
    end in
  let frac :=
    match r1 with
    | c :: t =>
        if c =? 46 then
          match span_digits 10 t with
          | ([], _) => None
          | (fp, r2) => Some (fp, r2)
          end
        else Some ([], r1)
    | [] => Some ([], r1)
    end in
  match ip, frac with
  | _ :: _, Some (fp, r2) =>
      if leading_zero then None
      else
        let exp :=
          match r2 with
          | c :: t =>
              if (c =? 101) || (c =? 69) then
                let '(eneg, u) :=
                  match t with
                  | sg :: u =>
                      if sg =? 43 then (false, u)
                      else if sg =? 45 then (true, u)
                      else (false, t)
                  | [] => (false, t)
                  end in
                match span_digits 10 u with
                | ([], _) => None
                | (ds, r3) =>
                    let v := Z.of_N (digits_value 10 ds) in
                    Some (if eneg : bool then (- v)%Z else v, r3)
                end
              else Some (0%Z, r2)
          | [] => Some (0%Z, r2)
          end in
        match exp with
        | Some (e, r3) =>
            Some (number_of_MV neg
                    (decimal_MV (ip ++ fp) (e - Z.of_nat (length fp))), r3)
        | None => None
        end
  | _, _ => None
  end.

(** One value, then the elements of an array after the first position, then
    the members of an object; [fuel] bounds the nesting of calls. *)
Fixpoint json_value (fuel : nat) (s : jsstring) : option (json * jsstring) :=
  match fuel with
  | O => None
  | S f =>
      match skip_ws s with
      | [] => None
      | c :: t =>
          if c =? 123 then
            match skip_ws t with
            | d :: t1 =>
                if d =? 125 then Some (JObj [], t1)
                else
                  match json_members f (d :: t1) with
                  | Some (ms, r) => Some (JObj ms, r)
                  | None => None
                  end
            | [] => None
            end
          else if c =? 91 then
            match skip_ws t with
            | d :: t1 =>
                if d =? 93 then Some (JArr [], t1)
                else
                  match json_elements f (d :: t1) with
                  | Some (vs, r) => Some (JArr vs, r)
                  | None => None
                  end
            | [] => None
            end
          else if c =? 34 then
            match json_chars t with
            | Some (str, r) => Some (JStr str, r)
            | None => None
            end
          else
            match strip_prefix (js "null") (c :: t),
                  strip_prefix (js "true") (c :: t),
                  strip_prefix (js "false") (c :: t) with
            | Some r, _, _ => Some (JNull, r)
            | _, Some r, _ => Some (JBool true, r)
            | _, _, Some r => Some (JBool false, r)
            | None, None, None =>
                match json_number (c :: t) with
                | Some (n, r) => Some (JNum n, r)
                | None => None
                end
            end
      end
  end
with json_elements (fuel : nat) (s : jsstring)
    : option (list json * jsstring) :=
  match fuel with
  | O => None
  | S f =>
      match json_value f s with
      | Some (v, r) =>
          match skip_ws r with
          | c :: t =>
              if c =? 93 then Some ([v], t)
              else if c =? 44 then
                match json_elements f t with
                | Some (vs, r1) => Some (v :: vs, r1)
                | None => None
                end
              else None
          | [] => None
          end
      | None => None
      end
  end
with json_members (fuel : nat) (s : jsstring)
    : option (list (jsstring * json) * jsstring) :=
  match fuel with
  | O => None
  | S f =>
      match skip_ws s with
      | q :: t =>
          if q =? 34 then
            match json_chars t with
            | Some (key, r) =>
                match skip_ws r with
                | c :: r1 =>
                    if c =? 58 then
                      match json_value f r1 with
                      | Some (v, r2) =>
                          match skip_ws r2 with
                          | e :: t2 =>
                              if e =? 125 then Some ([(key, v)], t2)
                              else if e =? 44 then
                                match json_members f t2 with
                                | Some (ms, r3) => Some ((key, v) :: ms, r3)
                                | None => None
                                end
                              else None
                          | [] => None
                          end
                      | None => None
                      end
                    else None
                | [] => None
                end
            | None => None
            end
          else None
      | [] => None
      end
  end.

(** [JSON.parse(text)]: every call of the parser above consumes a code unit
    before it nests twice, so twice the length of the text is fuel enough. *)
Definition JSON_parse (text : jsstring) : result json :=
  match json_value (2 * length text + 2) text with
  | Some (v, r) =>
      match skip_ws r with
      | [] => Ok v
      | _ :: _ => Throw SyntaxError
      end
  | None => Throw SyntaxError
  end.

(** The values [FetchProxy.fetch] hands to [JSON.stringify]. *)
Inductive jsvalue :=
| VUndefined
| VBool (b : bool)
| VString (s : jsstring)
| VArray (items : list jsvalue)
| VObject (props : list (jsstring * jsvalue)).

Definition hex_digit (n : N) : code_unit :=
  if n <? 10 then 48 + n else 87 + n.

Definition unicode_escape (c : code_unit) : jsstring :=
  [92; 117; hex_digit ((c / 4096) mod 16); hex_digit ((c / 256) mod 16);
   hex_digit ((c / 16) mod 16); hex_digit (c mod 16)].

Definition is_high_surrogate (c : code_unit) : bool :=
  (55296 <=? c) && (c <=? 56319).
Definition is_low_surrogate (c : code_unit) : bool :=
  (56320 <=? c) && (c <=? 57343).

Fixpoint quote_chars (s : jsstring) : jsstring :=
  match s with
  | [] => []
  | c :: t =>
      if c =? 8 then [92; 98] ++ quote_chars t
      else if c =? 9 then [92; 116] ++ quote_chars t
      else if c =? 10 then [92; 110] ++ quote_chars t
      else if c =? 12 then [92; 102] ++ quote_chars t
      else if c =? 13 then [92; 114] ++ quote_chars t
      else if c =? 34 then [92; 34] ++ quote_chars t
      else if c =? 92 then [92; 92] ++ quote_chars t
      else if c <? 32 then unicode_escape c ++ quote_chars t
      else if is_high_surrogate c then
        match t with
        | d :: t1 =>
            if is_low_surrogate d then c :: d :: quote_chars t1
            else unicode_escape c ++ quote_chars t
        | [] => unicode_escape c
        end
      else if is_low_surrogate c then unicode_escape c ++ quote_chars t
      else c :: quote_chars t
  end.

Definition QuoteJSONString (s : jsstring) : jsstring :=
  [34] ++ quote_chars s ++ [34].

(** The members an object serializes: an [undefined] property is left out. *)
Definition serialized_props {A} (ser : A -> option jsstring)
    (props : list (jsstring * A)) : list jsstring :=
  flat_map (fun kv =>
              match ser (snd kv) with
              | Some t => [QuoteJSONString (fst kv) ++ [58] ++ t]
              | None => []
              end) props.

(** [JSON.stringify(v)]; [None] is [undefined]. *)
Fixpoint JSON_stringify (v : jsvalue) : option jsstring :=
  match v with
  | VUndefined => None
  | VBool b => Some (js (if b then "true" else "false"))
  | VString s => Some (QuoteJSONString s)
  | VArray items =>
      Some ([91]
            ++ join [44]
                 (map (fun i =>
                         match JSON_stringify i with
                         | Some t => t
                         | None => js "null"
                         end) items)
            ++ [93])
  | VObject props =>
      Some ([123] ++ join [44] (serialized_props JSON_stringify props) ++ [125])
  end.

(** ** [Headers]

    The platform's header collection: an ordered list of name and value
    pairs.  Names compare without regard to ASCII case; [get] joins the
    values of a name with [", "].  A collection is read through [has] and
    [get], which do not show the case a name was stored in; the list keeps
    each name as it was given. *)

Module Headers.

Definition t := list (jsstring * jsstring).

Definition byte_lower (c : code_unit) : code_unit :=
  if (65 <=? c) && (c <=? 90) then c + 32 else c.

Definition lower (s : jsstring) : jsstring := map byte_lower s.

Definition name_eqb (a b : jsstring) : bool :=
  jsstring_eqb (lower a) (lower b).

Definition has (h : t) (name : jsstring) : bool :=
  existsb (fun e => name_eqb (fst e) name) h.

(** The values recorded under a name, oldest first. *)
Definition values (h : t) (name : jsstring) : list jsstring :=
  map snd (filter (fun e => name_eqb (fst e) name) h).

(** [h.get(name)]; [None] is [null]. *)
Definition get (h : t) (name : jsstring) : option jsstring :=
  match values h name with
  | [] => None
  | vs => Some (join (js ", ") vs)
  end.

(** A token character of a header name. *)
Definition is_tchar (c : code_unit) : bool :=
  ((48 <=? c) && (c <=? 57)) || ((65 <=? c) && (c <=? 90))
  || ((97 <=? c) && (c <=? 122))
  || existsb (N.eqb c) [33; 35; 36; 37; 38; 39; 42; 43; 45; 46; 94; 95; 96; 124; 126].

Definition valid_name (name : jsstring) : bool :=
  negb (length name =? 0)%nat && forallb is_tchar name.

Definition is_http_whitespace (c : code_unit) : bool :=
  (c =? 9) || (c =? 10) || (c =? 13) || (c =? 32).

Definition normalize (value : jsstring) : jsstring :=
  strip is_http_whitespace value.

(** A header value is a byte string free of NUL, LF and CR. *)
Definition valid_value (value : jsstring) : bool :=
  forallb (fun c => (c <=? 255) && negb ((c =? 0) || (c =? 10) || (c =? 13)))
    value.

(** [h.append(name, value)]: the value is normalized, then name and value
    are validated, and a [TypeError] is raised for either. *)
Definition append (h : t) (name value : jsstring) : result t :=
  let value := normalize value in
  if valid_name name && valid_value value
  then Ok (h ++ [(name, value)])
  else Throw TypeError.

End Headers.

(** ** [Response] *)

Module Response.

Record t := {
  status : N;
  statusText : jsstring;
  headers : Headers.t;
  body : jsstring
}.

Record ResponseInit := {
  init_status : number;
  init_statusText : jsstring;
  init_headers : Headers.t
}.

(** A reason phrase: tab, space, visible ASCII and obs-text. *)
Definition is_reason_char (c : code_unit) : bool :=
  (c =? 9) || ((32 <=? c) && (c <=? 126)) || ((128 <=? c) && (c <=? 255)).

Definition null_body_status (s : N) : bool :=
  (s =? 101) || (s =? 204) || (s =? 205) || (s =? 304).

(** The type of a body given as a string. *)
Definition string_content_type : jsstring := js "text/plain;charset=UTF-8".

(** What the constructor appends for a body that has a type: the header
    [Content-Type], unless the collection has one already. *)
Definition content_type_entry (h : Headers.t) : Headers.t :=
  if Headers.has h (js "content-type") then []
  else [(js "Content-Type", string_content_type)].

(** [new Response(body, init)] for a string body.  The status is converted
    to an unsigned short and must be 101 or lie in 200..599 ([RangeError]
    otherwise); the status text must be a reason phrase and a status that
    forbids a body rejects the string body (both [TypeError]).  The
    collection of the response is filled with the entries of the one passed
    in; the body is a string, the empty one included, so it has a type and
    the constructor appends [Content-Type] when no entry has that name. *)
Definition new (body : jsstring) (init : ResponseInit) : result t :=
  let status := ToUint16 (init_status init) in
  if negb (forallb (fun c => c <=? 255) (init_statusText init))
  then Throw TypeError
  else if ((status <? 200) || (599 <? status)) && negb (status =? 101)
  then Throw RangeError
  else if negb (forallb is_reason_char (init_statusText init))
  then Throw TypeError
  else if null_body_status status
  then Throw TypeError
  else Ok {| status := status;
             statusText := init_statusText init;
             headers :=
               init_headers init ++ content_type_entry (init_headers init);
             body := body |}.

End Response.

(** ** The raw response parser *)

(** The loop over the header lines: a line with a colon is appended to the
    collection, any other line is passed over. *)
Fixpoint append_lines (headers : Headers.t) (lines : list jsstring)
    : result Headers.t :=
  match lines with
  | [] => Ok headers
  | line :: rest =>
      let idx := indexOf COLON line in
      if negb (idx =? -1)%Z then
        let* headers :=
          Headers.append headers
            (trim (slice 0 idx line)) (trim (slice_from (idx + 1) line)) in
        append_lines headers rest
      else append_lines headers rest
  end.

Definition no_status_line : error :=
  Error (js "Curl HTTP Response Syntax Error: No status line!").

(** The destructuring [[, statusCode, ...statusTextParts]]. *)
Definition statusCode_of (parts : list jsstring) : primitive :=
  match nth_error parts 1 with
  | Some s => Str s
  | None => Undefined
  end.

Definition parseRawHttpResponse (raw : jsstring) : result Response.t :=
  match split blank_len raw with
  | [] => Throw TypeError (* [headerPart] undefined: [headerPart.split] *)
  | headerPart :: bodyParts =>
      let body := join [LF; LF] bodyParts in
      let lines := split eol_len headerPart in
      match lines with (* [lines.shift()] *)
      | [] => Throw no_status_line (* [statusLine === undefined] *)
      | statusLine :: lines =>
          let parts := split space_len statusLine in
          let statusCode := statusCode_of parts in
          let statusTextParts := skipn 2 parts in
          let status := Number statusCode in
          let statusText := join [SP] statusTextParts in
          let* headers := append_lines [] lines in
          Response.new body
            {| Response.init_status := status;
               Response.init_statusText := statusText;
               Response.init_headers := headers |}
      end
  end.

(** ** The transport primitive *)

(** What a caller may pass as [headers]: a record, a list of pairs or a
    [Headers] object. *)
Inductive HeadersInit :=
| InitRecord (entries : list (jsstring * jsstring))
| InitPairs (pairs : list (list jsstring))
| InitHeaders (h : Headers.t).

Record AbortSignal := { aborted : bool }.

(** [RequestInit]: every option may be left unset ([None] stands for
    [undefined] and for [null]).  A body is carried as its text. *)
Record RequestInit := {
  method : option jsstring;
  body : option jsstring;
  mode : option jsstring;
  keepalive : option bool;
  signal : option AbortSignal;
  credentials : option jsstring;
  redirect : option jsstring;
  referrer : option jsstring;
  referrerPolicy : option jsstring;
  integrity : option jsstring;
  headers : option HeadersInit
}.

(** The default value of the parameter [options]: [{}]. *)
Definition no_options : RequestInit :=
  {| method := None; body := None; mode := None; keepalive := None;
     signal := None; credentials := None; redirect := None;
     referrer := None; referrerPolicy := None; integrity := None;
     headers := None |}.

(** An asynchronous computation that may await the platform's [fetch]. *)
Inductive Async (A : Type) :=
| Return (a : A)
| Reject (e : error)
| AwaitFetch (input : jsstring) (init : RequestInit)
    (k : Response.t -> Async A).
Arguments Return {A} a.
Arguments Reject {A} e.
Arguments AwaitFetch {A} input init k.

Definition Transport := jsstring -> RequestInit -> result Response.t.

(** Running against a transport; a rejected transport call rejects the
    computation with the same error. *)
Fixpoint run {A} (transport : Transport) (p : Async A) : result A :=
  match p with
  | Return a => Ok a
  | Reject e => Throw e
  | AwaitFetch input init k =>
      match transport input init with
      | Ok res => run transport (k res)
      | Throw e => Throw e
      end
  end.

Definition of_result {A} (r : result A) : Async A :=
  match r with
  | Ok a => Return a
  | Throw e => Reject e
  end.

(** ** The tunnelling client *)

Module FetchProxy.

Record t := { proxyEndpoint : jsstring }.

Definition constructor (proxyEndpoint : jsstring) : result t :=
  if (length proxyEndpoint =? 0)%nat
  then Throw (Error (js "Proxy endpoint must not be a blank string"))
  else Ok {| proxyEndpoint := proxyEndpoint |}.

(** [string | URL]; a URL converts to its [href]. *)
Inductive Endpoint :=
| EndpointString (s : jsstring)
| EndpointURL (href : jsstring).

(** [a ?? b] *)
Definition nullish {A} (a : option A) (b : A) : A :=
  match a with
  | Some x => x
  | None => b
  end.

Definition string_value (o : option jsstring) : jsvalue :=
  match o with
  | Some s => VString s
  | None => VUndefined
  end.

Definition bool_value (o : option bool) : jsvalue :=
  match o with
  | Some b => VBool b
  | None => VUndefined
  end.

(** The object literal serialized into the [oproxy-options] header. *)
Definition oproxy_options (options : RequestInit) : jsvalue :=
  VObject
    [ (js "method", VString (nullish (method options) (js "GET")));
      (js "mode", string_value (mode options));
      (js "credentials", string_value (credentials options));
      (js "redirect", string_value (redirect options));
      (js "referrer", string_value (referrer options));
      (js "referrerPolicy", string_value (referrerPolicy options));
      (js "integrity", string_value (integrity options));
      (js "keepalive", bool_value (keepalive options)) ].

Definition HeadersInit_value (h : HeadersInit) : jsvalue :=
  match h with
  | InitRecord entries =>
      VObject (map (fun e => (fst e, VString (snd e))) entries)
  | InitPairs pairs => VArray (map (fun p => VArray (map VString p)) pairs)
  | InitHeaders _ => VObject []
  end.

(** A header value that is [undefined] converts to ["undefined"]. *)
Definition header_string (o : option jsstring) : jsstring :=
  nullish o (js "undefined").

Definition configuredOptions (endpoint : Endpoint) (options : RequestInit)
    : RequestInit :=
  {| method := Some (nullish (method options) (js "GET"));
     body := body options;
     mode := mode options;
     keepalive := keepalive options;
     signal := signal options;
     credentials := credentials options;
     redirect := Some (js "manual");
     referrer := None;
     referrerPolicy := None;
     integrity := None;
     headers :=
       Some (InitRecord
         [ (js "endpoint",
            match endpoint with
            | EndpointString s => s
            | EndpointURL href => href
            end);
           (js "oproxy-options",
            header_string (JSON_stringify (oproxy_options options)));
           (js "headers",
            match headers options with
            | None => js "{}"
            | Some h => header_string (JSON_stringify (HeadersInit_value h))
            end) ]) |}.

(** What the [headers] accessor of the returned object yields: the
    reply's own collection, or on each read [new Headers(init)], which
    [read_headers] below evaluates. *)
Inductive HeadersGetter :=
| OwnHeaders (h : Headers.t)
| NewHeaders (init : json).

(** The reply with its accessors redefined. *)
Record ProxyResponse := {
  response : Response.t;
  status : number;
  headers : HeadersGetter;
  proxyHeaders : Headers.t
}.

Definition nullable (o : option jsstring) : primitive :=
  match o with
  | Some s => Str s
  | None => Null
  end.

(** The statements after the [await]. *)
Definition reconstruct (res : Response.t) : result ProxyResponse :=
  let* receivedHeaders :=
    if Headers.has (Response.headers res) (js "incomingHeaders")
    then JSON_parse
           (nullish (Headers.get (Response.headers res) (js "incomingHeaders"))
              [])
    else Ok JNull in
  let receivedStatus :=
    if Headers.has (Response.headers res) (js "receivedStatus")
    then Number (nullable (Headers.get (Response.headers res) (js "receivedStatus")))
    else number_of_N (Response.status res) in
  let proxyHeaders := Response.headers res in
  Ok {| response := res;
        status := receivedStatus;
        proxyHeaders := proxyHeaders;
        headers :=
          match receivedHeaders with
          | JNull => OwnHeaders (Response.headers res)
          | _ => NewHeaders receivedHeaders
          end |}.

Definition fetch (self : t) (endpoint : Endpoint) (options : RequestInit)
    : Async ProxyResponse :=
  let configuredOptions := configuredOptions endpoint options in
  AwaitFetch (proxyEndpoint self) configuredOptions
    (fun res => of_result (reconstruct res)).

End FetchProxy.

(** ** Notions used in the statements *)

(** No separator match starts at a position below [n] of [s]. *)
Definition no_match_before (m : jsstring -> nat) (n : nat) (s : jsstring)
    : bool :=
  forallb (fun i => (m (skipn i s) =? 0)%nat) (seq 0 n).

(** The same response with another body. *)
Definition with_body (b : jsstring) (r : result Response.t)
    : result Response.t :=
  match r with
  | Ok x =>
      Ok {| Response.status := Response.status x;
            Response.statusText := Response.statusText x;
            Response.headers := Response.headers x;
            Response.body := b |}
  | Throw e => Throw e
  end.

(** The input of the specification's parsing example. *)
Definition example_raw : jsstring :=
  js "HTTP/1.1 200 OK" ++ CRLF ++ js "X-A: 1" ++ CRLF ++ js "X-A: 2"
  ++ CRLF ++ CRLF ++ js "body".



Definition valid_entry (e : jsstring * jsstring) : bool :=
  Headers.valid_name (fst e) && Headers.valid_value (snd e).

(** The members [JSON.stringify] writes for an object: key and serialized
    value of each property that is not [undefined]. *)
Definition written_props (props : list (jsstring * jsvalue))
    : list (jsstring * jsstring) :=
  flat_map (fun kv =>
              match JSON_stringify (snd kv) with
              | Some t => [(fst kv, t)]
              | None => []
              end) props.

Definition member_text (m : jsstring * jsstring) : jsstring :=
  QuoteJSONString (fst m) ++ [58] ++ snd m.

Definition object_text (members : list (jsstring * jsstring)) : jsstring :=
  [123] ++ join [44] (map member_text members) ++ [125].

(** The members of the [oproxy-options] envelope. *)
Definition envelope_members (options : RequestInit)
    : list (jsstring * jsstring) :=
  match FetchProxy.oproxy_options options with
  | VObject props => written_props props
  | _ => []
  end.

Definition string_member (key : jsstring) (o : option jsstring)
    : list (jsstring * jsstring) :=
  match o with
  | Some v => [(key, QuoteJSONString v)]
  | None => []
  end.

Definition bool_member (key : jsstring) (o : option bool)
    : list (jsstring * jsstring) :=
  match o with
  | Some b => [(key, js (if b then "true" else "false"))]
  | None => []
  end.

(** A relay reply with the given transport status and headers, and a
    transport that answers every call with it. *)
Definition relay_reply (status : N) (hs : Headers.t) : Response.t :=
  {| Response.status := status;
     Response.statusText := [];
     Response.headers := hs;
     Response.body := [] |}.

Definition replying (res : Response.t) : Transport := fun _ _ => Ok res.

Definition relay : FetchProxy.t :=
  {| FetchProxy.proxyEndpoint := js "https://relay.example/" |}.

Definition target : FetchProxy.Endpoint :=
  FetchProxy.EndpointString (js "https://target.example/").

(** The value of a header of the record passed to the transport. *)
Definition init_header (init : RequestInit) (name : jsstring)
    : option jsstring :=
  match headers init with
  | Some (InitRecord entries) =>
      match find (fun e => jsstring_eqb (fst e) name) entries with
      | Some e => Some (snd e)
      | None => None
      end
  | _ => None
  end.

(** ** The envelope as the relay decodes it *)

Definition json_string_member (key : jsstring) (o : option jsstring)
    : list (jsstring * json) :=
  match o with
  | Some v => [(key, JStr v)]
  | None => []
  end.

Definition json_bool_member (key : jsstring) (o : option bool)
    : list (jsstring * json) :=
  match o with
  | Some b => [(key, JBool b)]
  | None => []
  end.

(** The object the text of [oproxy-options] stands for. *)
Definition decoded_envelope (options : RequestInit)
    : list (jsstring * json) :=
  (js "method", JStr (FetchProxy.nullish (method options) (js "GET")))
  :: json_string_member (js "mode") (mode options)
  ++ json_string_member (js "credentials") (credentials options)
  ++ json_string_member (js "redirect") (redirect options)
  ++ json_string_member (js "referrer") (referrer options)
  ++ json_string_member (js "referrerPolicy") (referrerPolicy options)
  ++ json_string_member (js "integrity") (integrity options)
  ++ json_bool_member (js "keepalive") (keepalive options).

(** A text that [JSON.parse] reads as the value [v], whatever follows. *)
Definition parses_as (t : jsstring) (v : json) : Prop :=
  forall f rest, json_value (S f) (t ++ rest) = Some (v, rest).

(** A written member and the member it decodes to. *)
Definition member_decodes (m : jsstring * jsstring) (d : jsstring * json)
    : Prop :=
  fst d = fst m /\ parses_as (snd m) (snd d).

(** A text that [JSON.parse] reads as [v] when [n] more levels of nesting
    are available. *)
Definition parses_within (n : nat) (t : jsstring) (v : json) : Prop :=
  forall f rest, (n <= f)%nat -> json_value (S f) (t ++ rest) = Some (v, rest).

(** A text whose first code unit is neither white space nor a closing
    bracket. *)
Definition starts_value (t : jsstring) : Prop :=
  match t with
  | c :: _ => is_json_ws c = false /\ (c =? 93) = false
  | [] => False
  end.

Definition array_text (items : list jsstring) : jsstring :=
  [91] ++ join [44] items ++ [93].

(** The object or array the text of the envelope header [headers] stands
    for. *)
Definition decoded_headers (o : option HeadersInit) : json :=
  match o with
  | None => JObj []
  | Some (InitRecord entries) =>
      JObj (map (fun e => (fst e, JStr (snd e))) entries)
  | Some (InitPairs pairs) => JArr (map (fun p => JArr (map JStr p)) pairs)
  | Some (InitHeaders _) => JObj []
  end.

(** No code unit of [s] is [c]. *)
Definition lacks (c : code_unit) (s : jsstring) : bool :=
  forallb (fun x => negb (x =? c)) s.

(** The text of an endpoint, as the header [endpoint] carries it. *)
Definition endpoint_text (endpoint : FetchProxy.Endpoint) : jsstring :=
  match endpoint with
  | FetchProxy.EndpointString s => s
  | FetchProxy.EndpointURL href => href
  end.

(** ** Regular expressions

    The patterns of [isNumeric] use characters, classes, sequence, [?] and
    [+]; [test] with a pattern anchored by [^] and [$] asks whether the
    whole string is in the language of the pattern. *)

Inductive regex :=
| Empty
| Eps
| Chr (p : code_unit -> bool)
| Alt (r1 r2 : regex)
| Seq (r1 r2 : regex)
| Star (r : regex).

Definition Opt (r : regex) : regex := Alt Eps r.
Definition Plus (r : regex) : regex := Seq r (Star r).

Fixpoint nullable (r : regex) : bool :=
  match r with
  | Empty => false
  | Eps => true
  | Chr _ => false
  | Alt r1 r2 => nullable r1 || nullable r2
  | Seq r1 r2 => nullable r1 && nullable r2
  | Star _ => true
  end.

(** The pattern for what may follow the code unit [c]. *)
Fixpoint deriv (c : code_unit) (r : regex) : regex :=
  match r with
  | Empty => Empty
  | Eps => Empty
  | Chr p => if p c then Eps else Empty
  | Alt r1 r2 => Alt (deriv c r1) (deriv c r2)
  | Seq r1 r2 =>
      if nullable r1 then Alt (Seq (deriv c r1) r2) (deriv c r2)
      else Seq (deriv c r1) r2
  | Star r1 => Seq (deriv c r1) (Star r1)
  end.

(** [/^r$/.test(s)] *)
Fixpoint test (r : regex) (s : jsstring) : bool :=
  match s with
  | [] => nullable r
  | c :: t => test (deriv c r) t
  end.

(** The strings of a pattern. *)
Inductive lang : regex -> jsstring -> Prop :=
| lang_eps : lang Eps []
| lang_chr p c : p c = true -> lang (Chr p) [c]
| lang_alt_l r1 r2 s : lang r1 s -> lang (Alt r1 r2) s
| lang_alt_r r1 r2 s : lang r2 s -> lang (Alt r1 r2) s
| lang_seq r1 r2 s1 s2 : lang r1 s1 -> lang r2 s2 -> lang (Seq r1 r2) (s1 ++ s2)
| lang_star_nil r : lang (Star r) []
| lang_star_app r s1 s2 :
    lang r s1 -> lang (Star r) s2 -> lang (Star r) (s1 ++ s2).

(** ** [isNumeric] *)

(** [\d] *)
Definition is_digit (c : code_unit) : bool := (48 <=? c) && (c <=? 57).

Definition digit : regex := Chr is_digit.
Definition minus : regex := Chr (N.eqb 45).
Definition dot : regex := Chr (N.eqb 46).

Record NumericOptions := {
  allowNegative : bool;
  allowDecimal : bool
}.

(** The pattern chosen by the options of [isNumeric]. *)
Definition numeric_regex (options : NumericOptions) : regex :=
  if allowNegative options then
    if allowDecimal options
    then Seq (Opt minus) (Seq (Plus digit) (Opt (Seq dot (Plus digit))))
    else Seq (Opt minus) (Plus digit)
  else
    if allowDecimal options
    then Seq (Plus digit) (Opt (Seq dot (Plus digit)))
    else Plus digit.

(** [str] is [None] for [undefined] and for [null]. *)
Definition isNumeric (str : option jsstring) (options : NumericOptions)
    : bool :=
  match str with
  | None => false
  | Some s => test (numeric_regex options) s
  end.

(** A non-empty run of decimal digits. *)
Definition digits (s : jsstring) : Prop :=
  s <> [] /\ forallb is_digit s = true.

(** The values of a run of decimal digits. *)
Definition digit_values (s : jsstring) : list N := map (fun c => c - 48) s.

(** ** Searching components *)

(** An action row, as far as the search reads it. *)
Module ActionRowBuilder.
Record t (T : Type) := { components : list T }.
Arguments components {T} _.
End ActionRowBuilder.

(** [ActionRowBuilder<T>[] | ActionRowBuilder<T>] *)
Inductive Rows (T : Type) :=
| OneRow (row : ActionRowBuilder.t T)
| ManyRows (rows : list (ActionRowBuilder.t T)).
Arguments OneRow {T} row.
Arguments ManyRows {T} rows.

(** [array.filter(f)] for a callback that may throw: the elements are
    tested in order and the first error ends the call. *)
Fixpoint array_filter {T} (f : T -> result bool) (l : list T)
    : result (list T) :=
  match l with
  | [] => Ok []
  | x :: t =>
      let* b := f x in
      let* kept := array_filter f t in
      Ok (if b : bool then x :: kept else kept)
  end.

(** The loop over the rows, [found_so_far] being the array [result]; the
    call on a single row takes the first branch of [filterComponents]. *)
Fixpoint filter_rows {T} (filter : T -> result bool)
    (rows : list (ActionRowBuilder.t T)) (found_so_far : list T)
    : result (list T) :=
  match rows with
  | [] => Ok found_so_far
  | row :: rest =>
      let* found := array_filter filter (ActionRowBuilder.components row) in
      filter_rows filter rest (found_so_far ++ found)
  end.

Definition filterComponents {T} (components : Rows T)
    (filter : T -> result bool) : result (list T) :=
  match components with
  | OneRow row =>
      let* found := array_filter filter (ActionRowBuilder.components row) in
      Ok ([] ++ found)
  | ManyRows rows => filter_rows filter rows []
  end.

(** [filtered[0] ?? null] *)
Definition findComponent {T} (components : Rows T)
    (filter : T -> result bool) : result (option T) :=
  let* filtered := filterComponents components filter in
  Ok (hd_error filtered).

(** A component builder: the properties of its [data], each a string,
    [undefined] or [null] as [custom_id] is. *)
Record ComponentBuilder := { data : list (jsstring * primitive) }.

(** [Object.keys(o)] *)
Definition Object_keys (o : list (jsstring * primitive)) : list jsstring :=
  map fst o.

(** [o[key]] *)
Definition property (o : list (jsstring * primitive)) (key : jsstring)
    : primitive :=
  match find (fun e => jsstring_eqb (fst e) key) o with
  | Some e => snd e
  | None => Undefined
  end.

(** [v == id] for a string [id] *)
Definition loosely_equals (v : primitive) (id : jsstring) : bool :=
  match v with
  | Str s => jsstring_eqb s id
  | _ => false
  end.

(** [keys.indexOf(key) == -1] *)
Definition not_among (key : jsstring) (keys : list jsstring) : bool :=
  negb (existsb (jsstring_eqb key) keys).

Definition custom_id_not_found : error :=
  Error (js "Custom ID not found in component!").

(** The callback of [getComponentByCustomId]. *)
Definition has_custom_id (id : jsstring) (c : ComponentBuilder)
    : result bool :=
  if not_among (js "custom_id") (Object_keys (data c))
  then Throw custom_id_not_found
  else Ok (loosely_equals (property (data c) (js "custom_id")) id).

Definition getComponentByCustomId (components : Rows ComponentBuilder)
    (id : jsstring) : result (option ComponentBuilder) :=
  findComponent components (has_custom_id id).

(** All components of the rows, in order. *)
Definition all_components {T} (components : Rows T) : list T :=
  match components with
  | OneRow row => ActionRowBuilder.components row
  | ManyRows rows => flat_map ActionRowBuilder.components rows
  end.

(** ** [splitMessage] *)

(** [n <= x] and [n > x] for a length [n] and a Number [x]. *)
Definition length_le (n : nat) (x : number) : bool :=
  match x with
  | Num q => Qle_bool (inject_Z (Z.of_nat n)) q
  | Inf false => true
  | NegZero => (n =? 0)%nat
  | _ => false
  end.

Definition length_gt (n : nat) (x : number) : bool :=
  match x with
  | Num q => negb (Qle_bool (inject_Z (Z.of_nat n)) q)
  | Inf true => true
  | NegZero => negb (n =? 0)%nat
  | _ => false
  end.

Fixpoint is_prefix (p s : jsstring) : bool :=
  match p, s with
  | [], _ => true
  | a :: p', b :: s' => (a =? b) && is_prefix p' s'
  | _ :: _, [] => false
  end.

(** A separator string as a pattern. *)
Definition sep_len (sep s : jsstring) : nat :=
  if is_prefix sep s then length sep else 0.

(** [s.split(sep)] for a string [sep]; the empty separator cuts between
    all code units. *)
Definition split_string (sep s : jsstring) : list jsstring :=
  match sep with
  | [] => map (fun c => [c]) s
  | _ :: _ => split (sep_len sep) s
  end.

(** A string is truthy when it is not empty. *)
Definition truthy (s : jsstring) : bool :=
  match s with
  | [] => false
  | _ :: _ => true
  end.

(** The options of [splitMessage]; an option left out takes its default. *)
Record SplitOptions := {
  maxLength : option number;
  char : option jsstring;
  prepend : option jsstring;
  append : option jsstring
}.

Definition out_of_range : error :=
  Error (js "One or more of the split text items was out of the range.").

(** The loop over the chunks, with the messages pushed so far and the
    message being built. *)
Fixpoint split_loop (maxLength : number) (char prepend append : jsstring)
    (splitText messages : list jsstring) (msg : jsstring)
    : list jsstring * jsstring :=
  match splitText with
  | [] => (messages, msg)
  | chunk :: rest =>
      let '(messages, msg) :=
        if truthy msg
           && length_gt (length (msg ++ char ++ chunk ++ append)) maxLength
        then (messages ++ [msg ++ append], prepend)
        else (messages, msg) in
      let msg :=
        msg
        ++ (if truthy msg && negb (jsstring_eqb msg prepend) then char else [])
        ++ chunk in
      split_loop maxLength char prepend append rest messages msg
  end.

(** [splitMessage(textIn, options)].  [verifyString] returns the string it
    is given; [char] is a string, so the branch for an array of separators
    is not taken. *)
Definition splitMessage (textIn : jsstring) (options : SplitOptions)
    : result (list jsstring) :=
  let maxLength := FetchProxy.nullish (maxLength options) (Num 2000%Q) in
  let char := FetchProxy.nullish (char options) [LF] in
  let prepend := FetchProxy.nullish (prepend options) [] in
  let append := FetchProxy.nullish (append options) [] in
  let text := textIn in
  if length_le (length text) maxLength then Ok [text]
  else
    let splitText := split_string char text in
    if existsb (fun elem => length_gt (length elem) maxLength) splitText
    then Throw out_of_range
    else
      let '(messages, msg) :=
        split_loop maxLength char prepend append splitText [] [] in
      Ok (filter truthy (messages ++ [msg])).

(** ** [String(number)]

    [Number::toString] with radix 10. *)

(** The decimal digits of [n], most significant first; [fuel] bounds their
    number. *)
Fixpoint digits_fuel (fuel : nat) (n : N) (acc : jsstring) : jsstring :=
  match fuel with
  | O => acc
  | S f =>
      let acc := (48 + n mod 10) :: acc in
      if n / 10 =? 0 then acc else digits_fuel f (n / 10) acc
  end.

Definition digits_of_N (n : N) : jsstring :=
  digits_fuel (S (N.to_nat (N.size n))) n [].

Definition Qpow10 (e : Z) : Q := Qpower 10%Q e.

(** Moving [e] towards [floor (log10 q)], at most [fuel] steps. *)
Fixpoint adjust_log10 (fuel : nat) (q : Q) (e : Z) : Z :=
  match fuel with
  | O => e
  | S f =>
      if Qle_bool (Qpow10 (e + 1)) q then adjust_log10 f q (e + 1)
      else if Qle_bool (Qpow10 e) q then e
      else adjust_log10 f q (e - 1)
  end.

(** [floor (log10 q)] for [q > 0], from the estimate [log2 q * log10 2]. *)
Definition Qlog10_floor (q : Q) : Z :=
  adjust_log10 4 q ((Qlog2_floor q * 30103) / 100000)%Z.

(** The significand [s] and the exponent [n] of the shortest decimal
    [s * 10^(n-k)] that converts back to [q], for [k] digits: the nearer
    of the two [k]-digit decimals around [q], the even one on a tie. *)
Definition shortest_with (q : Q) (e10 : Z) (k : Z) : option (N * Z) :=
  let scale := Qpow10 (e10 + 1 - k) in
  let s_lo := Qfloor (q / scale)%Q in
  let s_hi := (s_lo + 1)%Z in
  let v_lo := (inject_Z s_lo * scale)%Q in
  let v_hi := (inject_Z s_hi * scale)%Q in
  let same v :=
    match round64 v with
    | Some r => Qeq_bool r q
    | None => false
    end in
  let pick (s : Z) :=
    if (s =? 10 ^ k)%Z then Some (Z.to_N (10 ^ (k - 1)), (e10 + 2)%Z)
    else Some (Z.to_N s, (e10 + 1)%Z) in
  match same v_lo, same v_hi with
  | false, false => None
  | true, false => pick s_lo
  | false, true => pick s_hi
  | true, true =>
      match Qcompare (q - v_lo)%Q (v_hi - q)%Q with
      | Lt => pick s_lo
      | Gt => pick s_hi
      | Eq => if Z.even s_lo then pick s_lo else pick s_hi
      end
  end.

(** The decimal with the least number of digits. *)
Fixpoint shortest_from (fuel : nat) (q : Q) (e10 : Z) (k : Z)
    : option (N * Z) :=
  match fuel with
  | O => None
  | S f =>
      match shortest_with q e10 k with
      | Some (s, n) => Some (s, n)
      | None => shortest_from f q e10 (k + 1)
      end
  end.

Definition zeros (n : Z) : jsstring := repeat 48 (Z.to_nat n).

(** The text for the digits [ds] of the significand, [k] of them, and the
    exponent [n]. *)
Definition format_decimal (ds : jsstring) (n : Z) : jsstring :=
  let k := Z.of_nat (length ds) in
  if ((-5 <=? n) && (n <=? 21))%Z then
    if (k <=? n)%Z then ds ++ zeros (n - k)
    else if (0 <? n)%Z then
      firstn (Z.to_nat n) ds ++ [46] ++ skipn (Z.to_nat n) ds
    else [48; 46] ++ zeros (- n) ++ ds
  else
    let c := (n - 1)%Z in
    let sign := if (c <? 0)%Z then 45 else 43 in
    let exponent := digits_of_N (Z.to_N (Z.abs c)) in
    if (k =? 1)%Z then ds ++ [101; sign] ++ exponent
    else firstn 1 ds ++ [46] ++ skipn 1 ds ++ [101; sign] ++ exponent.

(** The text of a finite [q > 0].  A binary64 value is identified by 17
    significant digits at most, so the search finds a decimal; the empty
    text stands for the case that does not arise. *)
Definition positive_toString (q : Q) : jsstring :=
  match shortest_from 17 q (Qlog10_floor q) 1 with
  | Some (s, n) => format_decimal (digits_of_N s) n
  | None => []
  end.

(** [String(x)] *)
Definition Number_toString (x : number) : jsstring :=
  match x with
  | NaN => js "NaN"
  | Inf false => js "Infinity"
  | Inf true => js "-Infinity"
  | NegZero => js "0"
  | Num q =>
      match Qcompare q 0 with
      | Eq => js "0"
      | Gt => positive_toString q
      | Lt => 45 :: positive_toString (- q)%Q
      end
  end.

(** ** [commaNumber] *)

Definition numbers_are_broken : error := Error (js "Numbers are broken").

(** [a[i] + s] *)
Definition element_text (ch : option code_unit) : jsstring :=
  match ch with
  | Some c => [c]
  | None => js "undefined"
  end.

(** [/\d/.test(a[i] ?? "")] for an element that is a single code unit *)
Definition element_is_digit (ch : option code_unit) : bool :=
  match ch with
  | Some c => is_digit c
  | None => false
  end.

(** The loop of [commaNumber]; [i] is one more than the index the turn
    reads, so that the loop ends at [0]. *)
Fixpoint comma_loop (preDecimal : jsstring) (i reverseIndex : nat)
    (final : jsstring) : jsstring :=
  match i with
  | O => final
  | S index =>
      let ch := nth_error preDecimal index in
      let final :=
        if (0 <? reverseIndex)%nat && (reverseIndex mod 3 =? 0)%nat
           && element_is_digit ch
        then 44 :: final
        else final in
      comma_loop preDecimal index (S reverseIndex) (element_text ch ++ final)
  end.

Definition commaNumber (number : number) : result jsstring :=
  let string := Number_toString number in
  let preDecimal := nth_error (split_string [46] string) 0 in
  let postDecimal := nth_error (split_string [46] string) 1 in
  match preDecimal with
  | None => Throw numbers_are_broken
  | Some preDecimal =>
      let final := comma_loop preDecimal (length preDecimal) 0 [] in
      Ok (match postDecimal with
          | Some post =>
              if (0 <? length post)%nat then final ++ [46] ++ post else final
          | None => final
          end)
  end.

(** A text without its commas. *)
Definition without_commas (s : jsstring) : jsstring :=
  filter (fun c => negb (c =? 44)) s.


(** A code unit that is neither a comma nor a dot. *)
Definition plain (c : code_unit) : bool :=
  negb (c =? 44) && negb (c =? 46).

(** A text with at most one dot, which something follows, and no comma. *)
Definition decimal_text (s : jsstring) : Prop :=
  forallb plain s = true \/
  exists pre post,
    s = pre ++ 46 :: post /\ forallb plain pre = true /\
    forallb plain post = true /\ post <> [].

(** Groups of three from the right: all groups but the first have three
    elements, the first has one to three. *)
Definition groups_of_three (gs : list jsstring) : Prop :=
  match gs with
  | [] => True
  | g :: rest =>
      (1 <= length g <= 3)%nat /\ Forall (fun h => length h = 3%nat) rest
  end.

(** The groups after [r] code units: [r] is a multiple of three more than
    the length of the first group. *)
Definition grouped (r : nat) (gs : list jsstring) : Prop :=
  match gs with
  | [] => r = 0%nat
  | g :: rest =>
      (exists a, r = (length g + a * 3)%nat) /\
      (1 <= length g <= 3)%nat /\ Forall (fun h => length h = 3%nat) rest
  end.


(** ** Arithmetic on Numbers *)

(** The sign bit. *)
Definition negative (x : number) : bool :=
  match x with
  | NaN => false
  | Inf n => n
  | NegZero => true
  | Num q => negb (Qle_bool 0 q)
  end.

(** The absolute value of a finite Number. *)
Definition magnitude (x : number) : Q :=
  match x with
  | Num q => if Qle_bool 0 q then q else (- q)%Q
  | _ => 0%Q
  end.

Definition signed_zero (neg : bool) : number :=
  if neg then NegZero else Num 0%Q.

(** [x / y] *)
Definition Number_divide (x y : number) : number :=
  let neg := xorb (negative x) (negative y) in
  match x, y with
  | NaN, _ | _, NaN => NaN
  | Inf _, Inf _ => NaN
  | Inf _, _ => Inf neg
  | _, Inf _ => signed_zero neg
  | _, _ =>
      if Qeq_bool (magnitude y) 0%Q then
        if Qeq_bool (magnitude x) 0%Q then NaN else Inf neg
      else number_of_MV neg (magnitude x / magnitude y)%Q
  end.

(** [n % d]: the remainder has the sign of the dividend. *)
Definition Number_remainder (n d : number) : number :=
  match n, d with
  | NaN, _ | _, NaN => NaN
  | Inf _, _ => NaN
  | _, Inf _ => n
  | _, _ =>
      if Qeq_bool (magnitude d) 0%Q then NaN
      else if Qeq_bool (magnitude n) 0%Q then n
      else
        let quotient := Qfloor (magnitude n / magnitude d)%Q in
        number_of_MV (negative n)
          (magnitude n - magnitude d * inject_Z quotient)%Q
  end.

(** [Math.trunc(x)] *)
Definition Math_trunc (x : number) : number :=
  match x with
  | Num q =>
      let t := (Qnum q ÷ Zpos (Qden q))%Z in
      if (t =? 0)%Z then signed_zero (negative x) else Num (inject_Z t)
  | _ => x
  end.

(** The real value of a finite Number. *)
Definition real_value (x : number) : Q :=
  match x with
  | Num q => q
  | _ => 0%Q
  end.

(** [x < y] *)
Definition Number_lessThan (x y : number) : bool :=
  match x, y with
  | NaN, _ | _, NaN => false
  | Inf a, Inf b => a && negb b
  | Inf a, _ => a
  | _, Inf b => negb b
  | _, _ => negb (Qle_bool (real_value y) (real_value x))
  end.

(** [x == y] for two Numbers *)
Definition Number_equal (x y : number) : bool :=
  match x, y with
  | NaN, _ | _, NaN => false
  | Inf a, Inf b => Bool.eqb a b
  | Inf _, _ | _, Inf _ => false
  | _, _ => Qeq_bool (real_value x) (real_value y)
  end.

Definition number_literal (z : Z) : number := Num (inject_Z z).

(** ** [msToHuman] and [msToShort] *)

Record Duration := {
  years : number;
  weeks : number;
  days : number;
  hours : number;
  minutes : number;
  seconds : number
}.

(** The six constants both functions start with. *)
Definition duration_of (ms : number) : Duration :=
  let part (unit count : Z) :=
    Math_trunc (Number_remainder (Number_divide ms (number_literal unit))
                  (number_literal count)) in
  {| seconds := part 1000%Z 60%Z;
     minutes := part 60000%Z 60%Z;
     hours := part 3600000%Z 24%Z;
     days := part 86400000%Z 7%Z;
     weeks := part 604800000%Z 52%Z;
     years := Math_trunc (Number_divide ms (number_literal 31449600000%Z)) |}.

(** [`${n} ${unit}${n == 1 ? "" : "s"}`] *)
Definition counted (n : number) (unit : jsstring) : jsstring :=
  Number_toString n ++ [SP] ++ unit
  ++ (if Number_equal n (number_literal 1) then [] else js "s").

(** One of the five statements that add a unit after the years. *)
Definition add_counted (durationWords : jsstring) (n : number)
    (unit : jsstring) : jsstring :=
  if Number_lessThan (number_literal 0) n then
    durationWords
    ++ (if (0 <? length durationWords)%nat then js ", " else [])
    ++ counted n unit
  else durationWords.

Definition msToHuman (ms : number) : jsstring :=
  let d := duration_of ms in
  let durationWords := [] in
  let durationWords :=
    if Number_lessThan (number_literal 0) (years d)
    then counted (years d) (js "year")
    else durationWords in
  let durationWords := add_counted durationWords (weeks d) (js "week") in
  let durationWords := add_counted durationWords (days d) (js "day") in
  let durationWords := add_counted durationWords (hours d) (js "hour") in
  let durationWords :=
    add_counted durationWords (minutes d) (js "minute") in
  let durationWords :=
    add_counted durationWords (seconds d) (js "second") in
  durationWords.

(** [while (s.length < 2) s = `0${s}`]; [fuel] bounds the turns. *)
Fixpoint two_digits (fuel : nat) (s : jsstring) : jsstring :=
  match fuel with
  | O => s
  | S f => if (length s <? 2)%nat then two_digits f (48 :: s) else s
  end.

Definition msToShort (ms : number) : jsstring :=
  let d := duration_of ms in
  let positive n := Number_lessThan (number_literal 0) n in
  let twoDigitMin := two_digits 2 (Number_toString (minutes d)) in
  let twoDigitSec := two_digits 2 (Number_toString (seconds d)) in
  let clock :=
    Number_toString (hours d) ++ js ":" ++ twoDigitMin ++ js ":"
    ++ twoDigitSec in
  if positive (years d) then
    Number_toString (years d) ++ js "y" ++ Number_toString (weeks d)
    ++ js "w" ++ Number_toString (days d) ++ js "d " ++ clock
  else if positive (weeks d) then
    Number_toString (weeks d) ++ js "w" ++ Number_toString (days d)
    ++ js "d " ++ clock
  else if positive (days d) then
    Number_toString (days d) ++ js "d " ++ clock
  else if positive (hours d) then clock
  else if positive (minutes d) then
    Number_toString (minutes d) ++ js ":" ++ twoDigitSec
  else Number_toString (seconds d) ++ js "s".

(** The units of [msToHuman] with their counts, largest first. *)
Definition counted_units (d : Duration) : list (number * jsstring) :=
  [ (years d, js "year"); (weeks d, js "week"); (days d, js "day");
    (hours d, js "hour"); (minutes d, js "minute");
    (seconds d, js "second") ].

(** A Number that is not above zero: [x > 0] is false. *)
Definition not_positive (x : number) : bool :=
  negb (Number_lessThan (number_literal 0) x).


(** What [msToHuman] writes for one unit. *)
Definition counted_part (n : number) (unit : jsstring) : list jsstring :=
  if Number_lessThan (number_literal 0) n then [counted n unit] else [].


(** ** Reading the [headers] accessor

    The accessor that [FetchProxy.fetch] defines calls
    [new Headers(receivedHeaders)] at each read, with the value
    [JSON.parse] returned. *)

(** [ToString] of a decoded value.  An array is its elements joined with
    commas, a [null] element being the empty text. *)
Fixpoint json_ToString (v : json) : jsstring :=
  match v with
  | JNull => js "null"
  | JBool b => if b then js "true" else js "false"
  | JNum n => Number_toString n
  | JStr s => s
  | JArr items =>
      join [44]
        (map (fun x => match x with
                       | JNull => []
                       | _ => json_ToString x
                       end) items)
  | JObj _ => js "[object Object]"
  end.

(** An array index: the canonical decimal text of an integer below
    [2^32 - 1]. *)
Definition array_index (key : jsstring) : option N :=
  match key with
  | [] => None
  | c :: rest =>
      if forallb is_digit key && (negb (c =? 48) || (length rest =? 0)%nat)
      then
        let n := digits_value 10 (digit_values key) in
        if n <? 4294967295 then Some n else None
      else None
  end.

(** Defining the property [key]: a property of that key keeps its place
    and takes the new value. *)
Fixpoint define_property (key : jsstring) (v : json)
    (props : list (jsstring * json)) : list (jsstring * json) :=
  match props with
  | [] => [(key, v)]
  | p :: rest =>
      if jsstring_eqb (fst p) key then (key, v) :: rest
      else p :: define_property key v rest
  end.

(** The properties of the object made for the members of a text, in the
    order of their creation. *)
Definition created_properties (members : list (jsstring * json))
    : list (jsstring * json) :=
  fold_left (fun props m => define_property (fst m) (snd m) props) members [].

Fixpoint insert_index (n : N) (p : jsstring * json)
    (l : list (N * (jsstring * json))) : list (N * (jsstring * json)) :=
  match l with
  | [] => [(n, p)]
  | q :: rest =>
      if n <? fst q then (n, p) :: l else q :: insert_index n p rest
  end.

(** The own properties in the order of enumeration: array indices first,
    ascending, then the other keys in the order of creation. *)
Definition own_properties (members : list (jsstring * json))
    : list (jsstring * json) :=
  let props := created_properties members in
  let indexed :=
    fold_right (fun p acc =>
                  match array_index (fst p) with
                  | Some n => insert_index n p acc
                  | None => acc
                  end) [] props in
  let named :=
    filter (fun p => match array_index (fst p) with
                     | Some _ => false
                     | None => true
                     end) props in
  map snd indexed ++ named.

(** The conversion to [ByteString]. *)
Definition ByteString (s : jsstring) : result jsstring :=
  if forallb (fun c => c <=? 255) s then Ok s else Throw TypeError.

(** The conversion to [record<ByteString, ByteString>]. *)
Fixpoint convert_record (props : list (jsstring * json))
    : result (list (jsstring * jsstring)) :=
  match props with
  | [] => Ok []
  | p :: rest =>
      let* key := ByteString (fst p) in
      let* value := ByteString (json_ToString (snd p)) in
      let* entries := convert_record rest in
      Ok ((key, value) :: entries)
  end.

(** The conversion to [sequence<ByteString>]. *)
Fixpoint convert_strings (items : list json) : result (list jsstring) :=
  match items with
  | [] => Ok []
  | x :: rest =>
      let* s := ByteString (json_ToString x) in
      let* ss := convert_strings rest in
      Ok (s :: ss)
  end.

(** The conversion to [sequence<sequence<ByteString>>]: an element has to
    be iterable, which among the decoded values the arrays are. *)
Fixpoint convert_sequence (items : list json)
    : result (list (list jsstring)) :=
  match items with
  | [] => Ok []
  | JArr inner :: rest =>
      let* strings := convert_strings inner in
      let* pairs := convert_sequence rest in
      Ok (strings :: pairs)
  | _ :: _ => Throw TypeError
  end.

(** Filling a collection from a sequence: every element has to be a pair. *)
Fixpoint fill_pairs (h : Headers.t) (pairs : list (list jsstring))
    : result Headers.t :=
  match pairs with
  | [] => Ok h
  | [name; value] :: rest =>
      let* h := Headers.append h name value in
      fill_pairs h rest
  | _ :: _ => Throw TypeError
  end.

(** Filling a collection from a record. *)
Fixpoint fill_record (h : Headers.t) (entries : list (jsstring * jsstring))
    : result Headers.t :=
  match entries with
  | [] => Ok h
  | e :: rest =>
      let* h := Headers.append h (fst e) (snd e) in
      fill_record h rest
  end.

(** [new Headers(init)] for a decoded value: an array is converted as a
    sequence of pairs, any other object as a record, and a value that is
    no object is refused. *)
Definition new_Headers (init : json) : result Headers.t :=
  match init with
  | JArr items =>
      let* pairs := convert_sequence items in
      fill_pairs [] pairs
  | JObj members =>
      let* entries := convert_record (own_properties members) in
      fill_record [] entries
  | _ => Throw TypeError
  end.

(** Reading [headers] on the returned response. *)
Definition read_headers (resp : FetchProxy.ProxyResponse)
    : result Headers.t :=
  match FetchProxy.headers resp with
  | FetchProxy.OwnHeaders h => Ok h
  | FetchProxy.NewHeaders init => new_Headers init
  end.



(** The entries [new Headers] appends for a decoded object: for each own
    property its key and its value as text, the white space around it
    removed. *)
Definition decoded_entries (members : list (jsstring * json)) : Headers.t :=
  map (fun p => (fst p, Headers.normalize (json_ToString (snd p))))
    (own_properties members).

(** * Properties *)

(** ** Splitting *)

Lemma no_match_before_spec (m : jsstring -> nat) (n : nat) (s : jsstring) :
  no_match_before m n s = true <->
  (forall i, (i < n)%nat -> m (skipn i s) = 0%nat).
Proof.
  unfold no_match_before. rewrite forallb_forall. split.
  - intros H i Hi. apply Nat.eqb_eq, H, in_seq. lia.
  - intros H i Hi. apply in_seq in Hi. apply Nat.eqb_eq, H. lia.
Qed.

Lemma split_go_nonempty (m : jsstring -> nat) (s : jsstring) :
  forall skip cur, split_go m skip cur s <> [].
Proof.
  induction s as [|c t IH]; intros skip cur; simpl.
  - discriminate.
  - destruct skip; [destruct (m (c :: t))|]; try discriminate; apply IH.
Qed.

Lemma split_nonempty (m : jsstring -> nat) (s : jsstring) : split m s <> [].
Proof. apply split_go_nonempty. Qed.

Lemma split_go_skip (m : jsstring -> nat) (a : jsstring) :
  forall cur s, split_go m (length a) cur (a ++ s) = split_go m 0 cur s.
Proof.
  induction a as [|c a IH]; intros cur s; simpl; [reflexivity | apply IH].
Qed.

Lemma split_go_prefix (m : jsstring -> nat) (h : jsstring) :
  forall cur s,
    (forall i, (i < length h)%nat -> m (skipn i (h ++ s)) = 0%nat) ->
    split_go m 0 cur (h ++ s) = split_go m 0 (rev h ++ cur) s.
Proof.
  induction h as [|c h IH]; intros cur s H; [reflexivity|].
  cbn [app split_go].
  pose proof (H 0%nat ltac:(simpl; lia)) as H0. cbn [skipn app] in H0.
  rewrite H0, IH.
  - cbn [rev]. now rewrite <- app_assoc.
  - intros i Hi. apply (H (S i)). simpl. lia.
Qed.

Lemma split_go_match (m : jsstring -> nat) (sep rest cur : jsstring) :
  (0 < length sep)%nat -> m (sep ++ rest) = length sep ->
  split_go m 0 cur (sep ++ rest) = rev cur :: split_go m 0 [] rest.
Proof.
  destruct sep as [|c sep]; [simpl; lia|]. intros _ Hm.
  cbn [app split_go]. cbn [app length] in Hm. rewrite Hm.
  now rewrite split_go_skip.
Qed.

(** The first separator of [s] ends the first piece; the other pieces are
    those of what follows it. *)
Lemma split_first (m : jsstring -> nat) (h sep rest : jsstring) :
  no_match_before m (length h) (h ++ sep ++ rest) = true ->
  (0 < length sep)%nat -> m (sep ++ rest) = length sep ->
  split m (h ++ sep ++ rest) = h :: split m rest.
Proof.
  intros Hno Hsep Hm. unfold split.
  rewrite split_go_prefix by now apply no_match_before_spec.
  rewrite split_go_match by assumption.
  now rewrite app_nil_r, rev_involutive.
Qed.

(** A string without a separator is a single piece. *)
Lemma split_single (m : jsstring -> nat) (h : jsstring) :
  (forall i, (i < length h)%nat -> m (skipn i h) = 0%nat) ->
  split m h = [h].
Proof.
  intros H. unfold split.
  rewrite <- (app_nil_r h) at 1.
  rewrite split_go_prefix.
  - simpl. now rewrite app_nil_r, rev_involutive.
  - intros i Hi. rewrite app_nil_r. now apply H.
Qed.

Lemma join_cons (sep p : jsstring) (ps : list jsstring) :
  ps <> [] -> join sep (p :: ps) = p ++ sep ++ join sep ps.
Proof. destruct ps; [congruence | reflexivity]. Qed.

Lemma eol_len_le (s : jsstring) : (eol_len s <= length s)%nat.
Proof.
  destruct s as [|c [|d t]]; simpl; try lia;
    repeat match goal with |- context [if ?b then _ else _] => destruct b end;
    simpl; lia.
Qed.

Lemma eol_len_app (s t : jsstring) :
  eol_len s <> 0%nat -> eol_len (s ++ t) = eol_len s.
Proof.
  destruct s as [|c [|d s]]; simpl; try congruence;
    repeat match goal with |- context [if ?b then _ else _] => destruct b end;
    congruence.
Qed.

Lemma blank_len_app (s t : jsstring) :
  blank_len s <> 0%nat -> blank_len (s ++ t) = blank_len s.
Proof.
  unfold blank_len.
  destruct (eol_len s) as [|a] eqn:Ea; [congruence|].
  rewrite eol_len_app, Ea by congruence.
  pose proof (eol_len_le s) as Hle. rewrite Ea in Hle.
  rewrite skipn_app.
  replace (S a - length s)%nat with 0%nat by lia. change (skipn 0 t) with t.
  destruct (eol_len (skipn (S a) s)) as [|b] eqn:Eb; [congruence|].
  intros _. rewrite eol_len_app by congruence. now rewrite Eb.
Qed.

Lemma blank_len_le (s : jsstring) : (blank_len s <= length s)%nat.
Proof.
  unfold blank_len.
  destruct (eol_len s) as [|a] eqn:Ea; [lia|].
  pose proof (eol_len_le s) as H1. rewrite Ea in H1.
  pose proof (eol_len_le (skipn (S a) s)) as H2. rewrite length_skipn in H2.
  destruct (eol_len (skipn (S a) s)); lia.
Qed.

(** Either no position of a string starts a blank line, or the string has
    a first one. *)
Lemma first_boundary (raw : jsstring) :
  (forall i, (i < length raw)%nat -> blank_len (skipn i raw) = 0%nat)
  \/ exists h sep rest,
       raw = h ++ sep ++ rest
       /\ no_match_before blank_len (length h) raw = true
       /\ (0 < length sep)%nat
       /\ blank_len (sep ++ rest) = length sep.
Proof.
  induction raw as [|c t IH].
  - left. simpl. lia.
  - destruct (blank_len (c :: t)) as [|k] eqn:Em.
    + destruct IH as [IH | (h & sep & rest & Eq & Hno & Hpos & Hm)].
      * left. intros [|i] Hi; [exact Em|]. apply IH. simpl in Hi. lia.
      * right. exists (c :: h), sep, rest. subst t.
        split; [reflexivity|]. split; [|split; assumption].
        apply no_match_before_spec. intros [|i] Hi; [exact Em|].
        apply (proj1 (no_match_before_spec _ _ _) Hno). simpl in Hi. lia.
    + right. exists [], (firstn (S k) (c :: t)), (skipn (S k) (c :: t)).
      pose proof (blank_len_le (c :: t)) as Hle. rewrite Em in Hle.
      rewrite firstn_skipn, length_firstn.
      split; [reflexivity|]. split; [reflexivity|].
      split; [simpl in *; lia|]. rewrite Em. lia.
Qed.

(** ** The raw response parser *)

Lemma with_body_new (b b0 : jsstring) (init : Response.ResponseInit) :
  with_body b (Response.new b0 init) = Response.new b init.
Proof.
  unfold Response.new.
  repeat match goal with |- context [if ?c then _ else _] => destruct c end;
    reflexivity.
Qed.

Lemma with_body_bind {A} (b : jsstring) (r : result A)
    (f : A -> result Response.t) :
  with_body b (bind r f) = bind r (fun x => with_body b (f x)).
Proof. destruct r; reflexivity. Qed.

Lemma bind_ext {A B} (r : result A) (f g : A -> result B) :
  (forall x, f x = g x) -> bind r f = bind r g.
Proof. intros H. destruct r; simpl; [apply H | reflexivity]. Qed.

(** A header part without a blank line is parsed with an empty body; with
    body parts the response differs in the body alone. *)
Lemma parse_header_part (h : jsstring) (bodyParts : list jsstring) :
  (forall i, (i < length h)%nat -> blank_len (skipn i h) = 0%nat) ->
  forall raw, split blank_len raw = h :: bodyParts ->
  parseRawHttpResponse raw =
  with_body (join [LF; LF] bodyParts) (parseRawHttpResponse h).
Proof.
  intros Hh raw Hraw. unfold parseRawHttpResponse.
  rewrite Hraw, (split_single blank_len h Hh).
  destruct (split eol_len h) as [|statusLine lines]; [reflexivity|].
  rewrite with_body_bind. apply bind_ext. intros headers.
  now rewrite with_body_new.
Qed.

Lemma no_match_inside (h tl : jsstring) :
  no_match_before blank_len (length h) (h ++ tl) = true ->
  forall i, (i < length h)%nat -> blank_len (skipn i h) = 0%nat.
Proof.
  intros H i Hi.
  pose proof (proj1 (no_match_before_spec _ _ _) H i Hi) as Hz.
  rewrite skipn_app in Hz.
  replace (i - length h)%nat with 0%nat in Hz by lia.
  change (skipn 0 tl) with tl in Hz.
  destruct (Nat.eq_dec (blank_len (skipn i h)) 0) as [E|E]; [exact E|].
  rewrite (blank_len_app _ tl E) in Hz. congruence.
Qed.

(** What [with_body] does to a response that was returned. *)
Lemma with_body_Ok (b : jsstring) (x : result Response.t) (r0 : Response.t) :
  x = Ok r0 ->
  with_body b x
  = Ok {| Response.status := Response.status r0;
          Response.statusText := Response.statusText r0;
          Response.headers := Response.headers r0;
          Response.body := b |}.
Proof. now intros ->. Qed.

Lemma with_body_Throw (b : jsstring) (x : result Response.t) (e : error) :
  x = Throw e -> with_body b x = Throw e.
Proof. now intros ->. Qed.

(** C9.  When a raw input has more than one blank-line boundary (each of
    them any of the forms matched by the pattern, with or without carriage
    returns), only the first one divides the header part from the body:
    the header part is what precedes the first boundary.  When the header
    part alone is parsed to a response, the whole input is parsed to a
    response too: the same status, status text and headers, and as body
    what follows the first boundary, with every later boundary replaced by
    two newlines.  When the header part alone is rejected, so is the whole
    input, with the same error. *)
Theorem first_blank_line_divides (h s1 p s2 rest : jsstring) :
  no_match_before blank_len (length h) (h ++ s1 ++ p ++ s2 ++ rest) = true ->
  (0 < length s1)%nat ->
  blank_len (s1 ++ p ++ s2 ++ rest) = length s1 ->
  no_match_before blank_len (length p) (p ++ s2 ++ rest) = true ->
  (0 < length s2)%nat ->
  blank_len (s2 ++ rest) = length s2 ->
  split blank_len (h ++ s1 ++ p ++ s2 ++ rest)
  = h :: p :: split blank_len rest
  /\ (forall r0,
        parseRawHttpResponse h = Ok r0 ->
        parseRawHttpResponse (h ++ s1 ++ p ++ s2 ++ rest)
        = Ok {| Response.status := Response.status r0;
                Response.statusText := Response.statusText r0;
                Response.headers := Response.headers r0;
                Response.body :=
                  p ++ [LF; LF] ++ join [LF; LF] (split blank_len rest) |})
  /\ (forall e,
        parseRawHttpResponse h = Throw e ->
        parseRawHttpResponse (h ++ s1 ++ p ++ s2 ++ rest) = Throw e).
Proof.
  intros Hh Hs1 Hm1 Hp Hs2 Hm2.
  assert (Hsplit : split blank_len (h ++ s1 ++ p ++ s2 ++ rest)
                   = h :: p :: split blank_len rest).
  { rewrite (split_first blank_len h s1) by assumption.
    now rewrite (split_first blank_len p s2) by assumption. }
  assert (Hparse : parseRawHttpResponse (h ++ s1 ++ p ++ s2 ++ rest)
                   = with_body
                       (p ++ [LF; LF] ++ join [LF; LF] (split blank_len rest))
                       (parseRawHttpResponse h)).
  { rewrite (parse_header_part h (p :: split blank_len rest)).
    - now rewrite join_cons by apply split_nonempty.
    - now apply (no_match_inside h (s1 ++ p ++ s2 ++ rest)).
    - exact Hsplit. }
  split; [exact Hsplit|]. split.
  - intros r0 H0. rewrite Hparse. now apply with_body_Ok.
  - intros e He. rewrite Hparse. now apply with_body_Throw.
Qed.

Lemma first_blank_line_divides_witness :
  let h := js "HTTP/1.1 200 OK" ++ CRLF ++ js "X-A: 1" in
  let raw := h ++ (CRLF ++ CRLF) ++ js "a" ++ [LF; LF] ++ js "b" in
  split blank_len raw = [h; js "a"; js "b"]
  /\ exists r,
       parseRawHttpResponse raw = Ok r
       /\ Response.status r = 200
       /\ Headers.get (Response.headers r) (js "X-A") = Some (js "1")
       /\ Response.body r = js "a" ++ [LF; LF] ++ js "b".
Proof.
  intros h raw.
  destruct (first_blank_line_divides
              (js "HTTP/1.1 200 OK" ++ CRLF ++ js "X-A: 1") (CRLF ++ CRLF)
              (js "a") [LF; LF] (js "b")
              eq_refl (Nat.lt_0_succ 3) eq_refl eq_refl (Nat.lt_0_succ 1)
              eq_refl) as (Hsplit & Hok & _).
  split; [exact Hsplit|].
  destruct (parseRawHttpResponse h) as [r0|e] eqn:E0;
    [|vm_compute in E0; discriminate].
  eexists. split; [exact (Hok r0 E0)|].
  vm_compute in E0. injection E0 as <-.
  repeat split.
Defined.


Lemma append_lines_throws (lines : list jsstring) :
  forall headers e, append_lines headers lines = Throw e -> e = TypeError.
Proof.
  induction lines as [|line rest IH]; intros headers e; simpl; [discriminate|].
  destruct (negb _); [|apply IH].
  unfold Headers.append. destruct (_ && _); simpl; [apply IH | congruence].
Qed.

Lemma Response_new_throws (b : jsstring) (init : Response.ResponseInit) e :
  Response.new b init = Throw e -> e = TypeError \/ e = RangeError.
Proof.
  unfold Response.new.
  repeat match goal with |- context [if ?c then _ else _] => destruct c end;
    intros H; inversion H; auto.
Qed.

(** C5.  On the empty input the status line is the empty string, not
    [undefined]: the parse fails in the [Response] constructor, with a
    [RangeError] for the status [NaN].  The no-status-line error is raised
    for no input at all. *)
Theorem no_status_line_unreachable :
  split eol_len [] = [[]]
  /\ Number (statusCode_of (split space_len [])) = NaN
  /\ parseRawHttpResponse [] = Throw RangeError
  /\ forall raw, parseRawHttpResponse raw <> Throw no_status_line.
Proof.
  split; [reflexivity|]. split; [reflexivity|]. split; [reflexivity|].
  intros raw. unfold parseRawHttpResponse.
  destruct (split blank_len raw) as [|headerPart bodyParts]; [discriminate|].
  destruct (split eol_len headerPart) as [|statusLine lines] eqn:El.
  - now apply split_nonempty in El.
  - destruct (append_lines [] lines) as [headers|e] eqn:Ea; simpl.
    + intros H. apply Response_new_throws in H. destruct H; discriminate.
    + apply append_lines_throws in Ea. subst e. discriminate.
Qed.

(** ** Header lines *)

Section Strip.
Variable A : Type.
Variables p q : A -> bool.
Hypothesis p_q : forall x, p x = true -> q x = true.

(** The head, if any, is kept by [drop_while f]. *)
Definition head_kept (f : A -> bool) (l : list A) : Prop :=
  match l with
  | [] => True
  | x :: _ => f x = false
  end.


Lemma drop_while_fixed (f : A -> bool) (l : list A) :
  head_kept f l -> drop_while f l = l.
Proof. destruct l as [|x l]; simpl; [reflexivity|]. now intros ->. Qed.




Lemma strip_fixed (t : list A) :
  head_kept p t -> head_kept p (rev t) ->
  rev (drop_while p (rev (drop_while p t))) = t.
Proof.
  intros H1 H2.
  rewrite (drop_while_fixed p t H1), (drop_while_fixed p _ H2).
  apply rev_involutive.
Qed.
End Strip.












(** ** Status *)

Lemma Response_new_status (b : jsstring) (init : Response.ResponseInit) r :
  Response.new b init = Ok r ->
  Response.status r = ToUint16 (Response.init_status init)
  /\ 200 <= Response.status r <= 599.
Proof.
  unfold Response.new.
  destruct (negb (forallb _ _)); [discriminate|].
  destruct (_ && _) eqn:Erange; [discriminate|].
  destruct (negb (forallb _ _)); [discriminate|].
  destruct (Response.null_body_status _) eqn:Enull; [discriminate|].
  intros H. inversion H. cbn [Response.status]. split; [reflexivity|].
  unfold Response.null_body_status in Enull.
  apply orb_false_iff in Enull. destruct Enull as [Enull _].
  apply orb_false_iff in Enull. destruct Enull as [Enull _].
  apply orb_false_iff in Enull. destruct Enull as [Enull _].
  rewrite Enull in Erange. cbn [negb] in Erange.
  rewrite andb_true_r in Erange.
  apply orb_false_iff in Erange. destruct Erange as [E1 E2].
  apply N.ltb_ge in E1, E2. split; assumption.
Qed.

Lemma parse_status_range (raw : jsstring) (r : Response.t) :
  parseRawHttpResponse raw = Ok r -> 200 <= Response.status r <= 599.
Proof.
  unfold parseRawHttpResponse.
  destruct (split blank_len raw) as [|headerPart bodyParts]; [discriminate|].
  destruct (split eol_len headerPart) as [|statusLine lines]; [discriminate|].
  destruct (append_lines [] lines) as [headers|e]; [|discriminate].
  cbn [bind]. intros H. now apply Response_new_status in H.
Qed.

(** ** The tunnelling client *)

Lemma has_get (h : Headers.t) (name : jsstring) :
  Headers.has h name = true <-> exists v, Headers.get h name = Some v.
Proof.
  unfold Headers.has, Headers.get, Headers.values.
  induction h as [|e h IH]; cbn [existsb filter map].
  - split; [discriminate | intros [v H]; discriminate].
  - destruct (Headers.name_eqb (fst e) name); cbn [orb map].
    + split; [eauto | reflexivity].
    + exact IH.
Qed.

Lemma has_false_get (h : Headers.t) (name : jsstring) :
  Headers.has h name = false <-> Headers.get h name = None.
Proof.
  pose proof (has_get h name) as H.
  destruct (Headers.has h name), (Headers.get h name) as [v|];
    split; intros E; try reflexivity; try discriminate.
  - destruct (proj1 H eq_refl) as [w Hw]. discriminate.
  - assert (false = true) by (apply H; eauto). discriminate.
Qed.

(** Running [fetch] is the transport call followed by the reconstruction. *)
Lemma run_fetch (transport : Transport) (self : FetchProxy.t)
    (endpoint : FetchProxy.Endpoint) (options : RequestInit) :
  run transport (FetchProxy.fetch self endpoint options)
  = bind (transport (FetchProxy.proxyEndpoint self)
            (FetchProxy.configuredOptions endpoint options))
      FetchProxy.reconstruct.
Proof.
  cbn [FetchProxy.fetch run].
  destruct (transport _ _) as [res|e]; [|reflexivity].
  cbn [bind]. now destruct (FetchProxy.reconstruct res).
Qed.

Lemma JSON_parse_throws (text : jsstring) (e : error) :
  JSON_parse text = Throw e -> e = SyntaxError.
Proof.
  unfold JSON_parse.
  destruct (json_value _ _) as [[v r]|]; [destruct (skip_ws r)|];
    congruence.
Qed.

(** The status of the reconstructed response. *)
Lemma reconstruct_status (res : Response.t) (resp : FetchProxy.ProxyResponse) :
  FetchProxy.reconstruct res = Ok resp ->
  FetchProxy.status resp
  = if Headers.has (Response.headers res) (js "receivedStatus")
    then Number (FetchProxy.nullable
                   (Headers.get (Response.headers res) (js "receivedStatus")))
    else number_of_N (Response.status res).
Proof.
  unfold FetchProxy.reconstruct.
  destruct (if Headers.has (Response.headers res) (js "incomingHeaders")
            then _ else _) as [j|e]; [|discriminate].
  cbn [bind]. intros H. inversion H. reflexivity.
Qed.

(** C2.  When the reply carries [receivedStatus] with the value [v] and
    [Number(v)] is [n], the status of the returned response is [n], whatever
    the transport status of the reply; when the reply carries no such
    header, it is the transport status of the reply. *)
Theorem received_status_overrides
    (transport : Transport) (self : FetchProxy.t)
    (endpoint : FetchProxy.Endpoint) (options : RequestInit)
    (res : Response.t) (resp : FetchProxy.ProxyResponse) :
  transport (FetchProxy.proxyEndpoint self)
    (FetchProxy.configuredOptions endpoint options) = Ok res ->
  run transport (FetchProxy.fetch self endpoint options) = Ok resp ->
  (forall v n,
     Headers.get (Response.headers res) (js "receivedStatus") = Some v ->
     Number (Str v) = n ->
     FetchProxy.status resp = n)
  /\ (Headers.has (Response.headers res) (js "receivedStatus") = false ->
      FetchProxy.status resp = number_of_N (Response.status res)).
Proof.
  intros Ht Hrun. rewrite run_fetch, Ht in Hrun. cbn [bind] in Hrun.
  apply reconstruct_status in Hrun. split.
  - intros v n Hget Hn.
    assert (Hhas : Headers.has (Response.headers res) (js "receivedStatus")
                   = true) by (apply has_get; eauto).
    now rewrite Hrun, Hhas, Hget.
  - intros Hhas. now rewrite Hrun, Hhas.
Qed.

Lemma received_status_overrides_witness :
  let res := relay_reply 502 [(js "receivedStatus", js "404")] in
  exists resp,
    run (replying res) (FetchProxy.fetch relay target no_options) = Ok resp
    /\ Response.status res = 502
    /\ FetchProxy.status resp = Num 404.
Proof.
  intros res.
  destruct (run (replying res) (FetchProxy.fetch relay target no_options))
    as [resp|e] eqn:E; [|vm_compute in E; discriminate].
  exists resp. split; [reflexivity|]. split; [reflexivity|].
  exact (proj1 (received_status_overrides (replying res) relay target
                  no_options res resp eq_refl E)
           (js "404") (Num 404) eq_refl eq_refl).
Defined.

(** C6, as stated, fails: with the non-numeric value "abc" in
    [receivedStatus] the call returns a response, and its status is [NaN]. *)
Lemma non_numeric_status_returns :
  let res := relay_reply 200 [(js "receivedStatus", js "abc")] in
  Number (Str (js "abc")) = NaN
  /\ (exists resp,
        run (replying res) (FetchProxy.fetch relay target no_options) = Ok resp
        /\ FetchProxy.status resp = NaN)
  /\ forall e,
       run (replying res) (FetchProxy.fetch relay target no_options) <> Throw e.
Proof.
  split; [reflexivity|]. split.
  - eexists. split; vm_compute; reflexivity.
  - intros e. vm_compute. discriminate.
Qed.

(** C6, as the code has it.  A [receivedStatus] value for which [Number]
    yields [NaN] raises nothing: every response the call returns has the
    status [NaN], the call does return one when the reply carries no
    [incomingHeaders], and the only failure after the transport call is the
    [SyntaxError] of [JSON.parse] on [incomingHeaders]. *)
Theorem non_numeric_status_is_NaN
    (transport : Transport) (self : FetchProxy.t)
    (endpoint : FetchProxy.Endpoint) (options : RequestInit)
    (res : Response.t) (v : jsstring) :
  transport (FetchProxy.proxyEndpoint self)
    (FetchProxy.configuredOptions endpoint options) = Ok res ->
  Headers.get (Response.headers res) (js "receivedStatus") = Some v ->
  Number (Str v) = NaN ->
  (forall resp,
     run transport (FetchProxy.fetch self endpoint options) = Ok resp ->
     FetchProxy.status resp = NaN)
  /\ (Headers.has (Response.headers res) (js "incomingHeaders") = false ->
      exists resp,
        run transport (FetchProxy.fetch self endpoint options) = Ok resp)
  /\ (forall e,
        run transport (FetchProxy.fetch self endpoint options) = Throw e ->
        e = SyntaxError
        /\ Headers.has (Response.headers res) (js "incomingHeaders") = true).
Proof.
  intros Ht Hget Hnan. rewrite run_fetch, Ht. cbn [bind].
  assert (Hhas : Headers.has (Response.headers res) (js "receivedStatus")
                 = true) by (apply has_get; eauto).
  repeat split.
  - intros resp H. apply reconstruct_status in H.
    now rewrite H, Hhas, Hget.
  - intros Hno. unfold FetchProxy.reconstruct. rewrite Hno. cbn [bind]. eauto.
  - revert H. unfold FetchProxy.reconstruct.
    destruct (Headers.has (Response.headers res) (js "incomingHeaders"));
      [|discriminate].
    destruct (JSON_parse _) as [j|e'] eqn:Ej; [discriminate|].
    cbn [bind]. intros H. inversion H. subst e'.
    now apply JSON_parse_throws in Ej.
  - revert H. unfold FetchProxy.reconstruct.
    destruct (Headers.has (Response.headers res) (js "incomingHeaders"));
      [reflexivity | discriminate].
Qed.

Lemma non_numeric_status_is_NaN_witness :
  let res := relay_reply 200 [(js "receivedStatus", js "12px")] in
  exists resp,
    run (replying res) (FetchProxy.fetch relay target no_options) = Ok resp
    /\ FetchProxy.status resp = NaN.
Proof.
  intros res.
  destruct (non_numeric_status_is_NaN (replying res) relay target
              no_options res (js "12px") eq_refl eq_refl eq_refl)
    as (Hnan & Hret & _).
  destruct (Hret eq_refl) as [resp Hresp].
  exists resp. split; [exact Hresp | exact (Hnan resp Hresp)].
Defined.

Lemma reconstruct_headers (res : Response.t) (resp : FetchProxy.ProxyResponse) :
  FetchProxy.reconstruct res = Ok resp ->
  FetchProxy.proxyHeaders resp = Response.headers res
  /\ exists j,
       (if Headers.has (Response.headers res) (js "incomingHeaders")
        then JSON_parse
               (FetchProxy.nullish
                  (Headers.get (Response.headers res) (js "incomingHeaders")) [])
        else Ok JNull) = Ok j
       /\ FetchProxy.headers resp
          = match j with
            | JNull => FetchProxy.OwnHeaders (Response.headers res)
            | _ => FetchProxy.NewHeaders j
            end.
Proof.
  unfold FetchProxy.reconstruct.
  destruct (if Headers.has (Response.headers res) (js "incomingHeaders")
            then _ else _) as [j|e]; [|discriminate].
  cbn [bind]. intros H. inversion H. cbn. eauto.
Qed.

(** What a read of [headers] gives, from the value [incomingHeaders]
    decodes to. *)
Lemma read_decoded
    (transport : Transport) (self : FetchProxy.t)
    (endpoint : FetchProxy.Endpoint) (options : RequestInit)
    (res : Response.t) (resp : FetchProxy.ProxyResponse) (v : jsstring)
    (j : json) :
  transport (FetchProxy.proxyEndpoint self)
    (FetchProxy.configuredOptions endpoint options) = Ok res ->
  run transport (FetchProxy.fetch self endpoint options) = Ok resp ->
  Headers.get (Response.headers res) (js "incomingHeaders") = Some v ->
  JSON_parse v = Ok j ->
  read_headers resp
  = match j with
    | JNull => Ok (Response.headers res)
    | _ => new_Headers j
    end.
Proof.
  intros Ht Hrun Hget Hparse. rewrite run_fetch, Ht in Hrun.
  cbn [bind] in Hrun.
  apply reconstruct_headers in Hrun. destruct Hrun as (_ & j' & Hj & Hh).
  assert (Hhas : Headers.has (Response.headers res) (js "incomingHeaders")
                 = true) by (apply has_get; eauto).
  rewrite Hhas, Hget in Hj. cbn [FetchProxy.nullish] in Hj.
  rewrite Hparse in Hj. inversion Hj. subst j'.
  unfold read_headers. rewrite Hh. now destruct j.
Qed.

Lemma tchar_byte (c : code_unit) : Headers.is_tchar c = true -> c <= 255.
Proof.
  unfold Headers.is_tchar. cbn [existsb]. intros H.
  rewrite ?orb_true_iff, ?andb_true_iff, ?N.leb_le, ?N.eqb_eq in H.
  intuition (try discriminate; lia).
Qed.








(** C10, as stated, fails: with the value "0" in [receivedStatus] the
    returned response has the status 0, which is not a positive integer. *)
Lemma zero_status_returned :
  let res := relay_reply 200 [(js "receivedStatus", js "0")] in
  exists resp,
    run (replying res) (FetchProxy.fetch relay target no_options) = Ok resp
    /\ FetchProxy.status resp = Num 0
    /\ is_positive_integer (FetchProxy.status resp) = false.
Proof. eexists. repeat split; vm_compute; reflexivity. Qed.

(** C10, as the code has it.  A response produced by the raw parser has an
    integer status from 200 to 599.  The status of a response returned by
    [FetchProxy.fetch] is always set: it is the transport status of the
    reply when the reply carries no [receivedStatus], and otherwise the
    Number that header converts to, whatever that Number is. *)
Theorem status_always_set :
  (forall raw r,
     parseRawHttpResponse raw = Ok r -> 200 <= Response.status r <= 599)
  /\ (forall (transport : Transport) self endpoint options res resp,
        transport (FetchProxy.proxyEndpoint self)
          (FetchProxy.configuredOptions endpoint options) = Ok res ->
        run transport (FetchProxy.fetch self endpoint options) = Ok resp ->
        (Headers.has (Response.headers res) (js "receivedStatus") = false ->
         FetchProxy.status resp = number_of_N (Response.status res))
        /\ (forall v,
              Headers.get (Response.headers res) (js "receivedStatus") = Some v ->
              FetchProxy.status resp = Number (Str v))).
Proof.
  split; [exact parse_status_range|].
  intros transport self endpoint options res resp Ht Hrun.
  rewrite run_fetch, Ht in Hrun. cbn [bind] in Hrun.
  apply reconstruct_status in Hrun. split.
  - intros Hhas. now rewrite Hrun, Hhas.
  - intros v Hget.
    assert (Hhas : Headers.has (Response.headers res) (js "receivedStatus")
                   = true) by (apply has_get; eauto).
    now rewrite Hrun, Hhas, Hget.
Qed.

Lemma status_always_set_witness :
  (exists r, parseRawHttpResponse example_raw = Ok r
             /\ 200 <= Response.status r <= 599)
  /\ exists resp,
       run (replying (relay_reply 503 []))
         (FetchProxy.fetch relay target no_options) = Ok resp
       /\ FetchProxy.status resp = Num 503.
Proof.
  destruct status_always_set as [Hparse Hfetch]. split.
  - destruct (parseRawHttpResponse example_raw) as [r|e] eqn:E;
      [|vm_compute in E; discriminate].
    exists r. split; [reflexivity | exact (Hparse example_raw r E)].
  - destruct (run (replying (relay_reply 503 []))
                (FetchProxy.fetch relay target no_options))
      as [resp|e] eqn:E; [|vm_compute in E; discriminate].
    exists resp. split; [reflexivity|].
    exact (proj1 (Hfetch (replying (relay_reply 503 [])) relay target
                    no_options (relay_reply 503 []) resp eq_refl E) eq_refl).
Defined.

(** ** The envelope *)

Lemma serialized_written (props : list (jsstring * jsvalue)) :
  serialized_props JSON_stringify props
  = map member_text (written_props props).
Proof.
  unfold serialized_props, written_props.
  induction props as [|kv props IH]; [reflexivity|].
  cbn [flat_map]. rewrite map_app, IH.
  now destruct (JSON_stringify (snd kv)).
Qed.

Lemma stringify_object (props : list (jsstring * jsvalue)) :
  JSON_stringify (VObject props) = Some (object_text (written_props props)).
Proof.
  cbn [JSON_stringify]. unfold object_text.
  now rewrite <- serialized_written.
Qed.

(** The header [oproxy-options] holds the text of the envelope. *)
Lemma envelope_header (endpoint : FetchProxy.Endpoint) (options : RequestInit) :
  init_header (FetchProxy.configuredOptions endpoint options)
    (js "oproxy-options")
  = Some (object_text (envelope_members options)).
Proof.
  unfold init_header, FetchProxy.configuredOptions, envelope_members,
    FetchProxy.oproxy_options.
  cbn [headers find fst snd]. rewrite stringify_object. reflexivity.
Qed.

(** The members of the envelope, one after the other. *)
Lemma envelope_members_eq (options : RequestInit) :
  envelope_members options
  = (js "method",
     QuoteJSONString (FetchProxy.nullish (method options) (js "GET")))
    :: string_member (js "mode") (mode options)
    ++ string_member (js "credentials") (credentials options)
    ++ string_member (js "redirect") (redirect options)
    ++ string_member (js "referrer") (referrer options)
    ++ string_member (js "referrerPolicy") (referrerPolicy options)
    ++ string_member (js "integrity") (integrity options)
    ++ bool_member (js "keepalive") (keepalive options).
Proof.
  unfold envelope_members, FetchProxy.oproxy_options, written_props.
  cbn [flat_map fst snd].
  destruct (mode options), (credentials options), (redirect options),
    (referrer options), (referrerPolicy options), (integrity options),
    (keepalive options); reflexivity.
Qed.

Lemma string_member_key (k : jsstring) (o : option jsstring) (key : jsstring) :
  In key (map fst (string_member k o)) <-> key = k /\ o <> None.
Proof.
  destruct o as [v|]; cbn.
  - split; [intros [H|[]]; split; [auto | discriminate] | intros [H _]; auto].
  - split; [intros [] | intros [_ H]; congruence].
Qed.

Lemma bool_member_key (k : jsstring) (o : option bool) (key : jsstring) :
  In key (map fst (bool_member k o)) <-> key = k /\ o <> None.
Proof.
  destruct o as [b|]; cbn.
  - split; [intros [H|[]]; split; [auto | discriminate] | intros [H _]; auto].
  - split; [intros [] | intros [_ H]; congruence].
Qed.

(** The keys written into the envelope: [method], and every other option
    the caller has set. *)
Lemma envelope_keys (options : RequestInit) (key : jsstring) :
  In key (map fst (envelope_members options)) <->
  key = js "method"
  \/ (key = js "mode" /\ mode options <> None)
  \/ (key = js "credentials" /\ credentials options <> None)
  \/ (key = js "redirect" /\ redirect options <> None)
  \/ (key = js "referrer" /\ referrer options <> None)
  \/ (key = js "referrerPolicy" /\ referrerPolicy options <> None)
  \/ (key = js "integrity" /\ integrity options <> None)
  \/ (key = js "keepalive" /\ keepalive options <> None).
Proof.
  rewrite envelope_members_eq. cbn [map fst In].
  rewrite !map_app, !in_app_iff, !string_member_key, bool_member_key.
  split; intros [H|H]; auto.
Qed.

(** C3.  Whatever [redirect] the caller asks for, also none, the options of
    the transport call have the redirect policy "manual".  The value the
    caller asked for is a member of the envelope serialized into the header
    [oproxy-options], and the envelope has no [redirect] member when the
    caller asked for none. *)
Theorem transport_redirect_is_manual
    (self : FetchProxy.t) (endpoint : FetchProxy.Endpoint)
    (options : RequestInit) :
  exists init k,
    FetchProxy.fetch self endpoint options
    = AwaitFetch (FetchProxy.proxyEndpoint self) init k
    /\ redirect init = Some (js "manual")
    /\ init_header init (js "oproxy-options")
       = Some (object_text (envelope_members options))
    /\ (forall v, redirect options = Some v ->
          In (js "redirect", QuoteJSONString v) (envelope_members options))
    /\ (redirect options = None ->
        ~ In (js "redirect") (map fst (envelope_members options))).
Proof.
  eexists. eexists. split; [reflexivity|]. split; [reflexivity|].
  split; [apply envelope_header|]. split.
  - intros v Hv. rewrite envelope_members_eq, Hv. right.
    apply in_or_app. right. apply in_or_app. right. apply in_or_app. left.
    left. reflexivity.
  - intros Hnone Hin. apply envelope_keys in Hin.
    repeat destruct Hin as [Hin|Hin];
      try (vm_compute in Hin; discriminate);
      try (destruct Hin as [Hin Hset]; first
             [ vm_compute in Hin; discriminate | congruence ]).
Qed.


(** An envelope as it goes on the wire, and as the relay decodes it. *)
Example envelope_text :
  let options :=
    {| method := None; body := None; mode := None; keepalive := Some false;
       signal := None; credentials := None; redirect := Some (js "follow");
       referrer := None; referrerPolicy := None; integrity := None;
       headers := None |} in
  let q := fun s => [34] ++ s ++ [34] in
  let text := object_text (envelope_members options) in
  text = [123] ++ q (js "method") ++ [58] ++ q (js "GET") ++ [44]
         ++ q (js "redirect") ++ [58] ++ q (js "follow") ++ [44]
         ++ q (js "keepalive") ++ [58] ++ js "false" ++ [125]
  /\ JSON_parse text
     = Ok (JObj [(js "method", JStr (js "GET"));
                 (js "redirect", JStr (js "follow"));
                 (js "keepalive", JBool false)]).
Proof. split; vm_compute; reflexivity. Qed.

(** * Further properties *)

(** ** [JSON.parse] after [JSON.stringify] *)

Lemma digit_hex (d : N) : d < 16 -> digit_of 16 (hex_digit d) = Some d.
Proof.
  intros H. unfold hex_digit, digit_of.
  destruct (d <? 10) eqn:E.
  - apply N.ltb_lt in E.
    replace ((48 <=? 48 + d) && (48 + d <=? 57)) with true.
    + replace (48 + d - 48) with d by lia.
      destruct (d <? 16) eqn:E2; [reflexivity|]. apply N.ltb_ge in E2. lia.
    + symmetry. apply andb_true_iff. split; apply N.leb_le; lia.
  - apply N.ltb_ge in E.
    replace ((48 <=? 87 + d) && (87 + d <=? 57)) with false.
    + replace ((97 <=? 87 + d) && (87 + d <=? 102)) with true.
      * replace (87 + d - 87) with d by lia.
        destruct (d <? 16) eqn:E2; [reflexivity|]. apply N.ltb_ge in E2. lia.
      * symmetry. apply andb_true_iff. split; apply N.leb_le; lia.
    + symmetry. apply andb_false_iff. right. apply N.leb_gt. lia.
Qed.

Lemma hex4_escape (c : N) : c < 65536 ->
  hex4 (hex_digit ((c / 4096) mod 16)) (hex_digit ((c / 256) mod 16))
       (hex_digit ((c / 16) mod 16)) (hex_digit (c mod 16)) = Some c.
Proof.
  intros H. unfold hex4.
  rewrite !digit_hex by (apply N.mod_lt; discriminate).
  f_equal.
  replace (c / 256) with (c / 16 / 16) by (now rewrite N.Div0.div_div).
  replace (c / 4096) with (c / 16 / 16 / 16) by (now rewrite !N.Div0.div_div).
  pose proof (N.div_mod c 16 ltac:(discriminate)) as H1.
  pose proof (N.div_mod (c / 16) 16 ltac:(discriminate)) as H2.
  pose proof (N.div_mod (c / 16 / 16) 16 ltac:(discriminate)) as H3.
  pose proof (N.mod_lt c 16 ltac:(discriminate)) as L1.
  pose proof (N.mod_lt (c / 16) 16 ltac:(discriminate)) as L2.
  pose proof (N.mod_lt (c / 16 / 16) 16 ltac:(discriminate)) as L3.
  assert (L4 : c / 16 / 16 / 16 < 16).
  { rewrite !N.Div0.div_div. apply N.Div0.div_lt_upper_bound. exact H. }
  rewrite (N.mod_small _ _ L4). lia.
Qed.

Lemma json_chars_escape (e u : code_unit) (X : jsstring) :
  simple_escape e = Some u -> (e =? 117) = false ->
  json_chars (92 :: e :: X) = cons_chars u (json_chars X).
Proof.
  intros Hs He. cbn [json_chars].
  change (92 =? 34) with false. change (92 <? 32) with false.
  change (92 =? 92) with true. cbv iota. now rewrite He, Hs.
Qed.

Lemma json_chars_unicode (c : code_unit) (X : jsstring) :
  c < 65536 ->
  json_chars (unicode_escape c ++ X) = cons_chars c (json_chars X).
Proof.
  intros H. unfold unicode_escape. cbn [app json_chars].
  change (92 =? 34) with false. change (92 <? 32) with false.
  change (92 =? 92) with true. change (117 =? 117) with true. cbv iota.
  now rewrite hex4_escape.
Qed.

Lemma json_chars_literal (c : code_unit) (X : jsstring) :
  (c =? 34) = false -> (c <? 32) = false -> (c =? 92) = false ->
  json_chars (c :: X) = cons_chars c (json_chars X).
Proof. intros H1 H2 H3. cbn [json_chars]. now rewrite H1, H2, H3. Qed.

Lemma surrogate_literal (c : code_unit) :
  is_high_surrogate c = true \/ is_low_surrogate c = true ->
  (c =? 34) = false /\ (c <? 32) = false /\ (c =? 92) = false /\ c < 65536.
Proof.
  unfold is_high_surrogate, is_low_surrogate.
  intros [H|H]; apply andb_true_iff in H; destruct H as [H1 H2];
    apply N.leb_le in H1, H2;
    repeat split; try (apply N.eqb_neq; lia); try (apply N.ltb_ge; lia); lia.
Qed.

(** The characters [JSON.stringify] writes for a string are read back as
    that string, up to the closing quote. *)
Lemma json_chars_quote (n : nat) :
  forall s rest, (length s <= n)%nat ->
  json_chars (quote_chars s ++ 34 :: rest) = Some (s, rest).
Proof.
  induction n as [|n IH]; intros s rest Hn.
  - destruct s; [reflexivity | simpl in Hn; lia].
  - destruct s as [|c t]; [reflexivity|].
    assert (Ht : (length t <= n)%nat) by (simpl in Hn; lia).
    cbn [quote_chars].
    destruct (c =? 8) eqn:E8.
    { apply N.eqb_eq in E8. subst c. cbn [app].
      rewrite (json_chars_escape 98 8) by reflexivity. now rewrite IH. }
    destruct (c =? 9) eqn:E9.
    { apply N.eqb_eq in E9. subst c. cbn [app].
      rewrite (json_chars_escape 116 9) by reflexivity. now rewrite IH. }
    destruct (c =? 10) eqn:E10.
    { apply N.eqb_eq in E10. subst c. cbn [app].
      rewrite (json_chars_escape 110 10) by reflexivity. now rewrite IH. }
    destruct (c =? 12) eqn:E12.
    { apply N.eqb_eq in E12. subst c. cbn [app].
      rewrite (json_chars_escape 102 12) by reflexivity. now rewrite IH. }
    destruct (c =? 13) eqn:E13.
    { apply N.eqb_eq in E13. subst c. cbn [app].
      rewrite (json_chars_escape 114 13) by reflexivity. now rewrite IH. }
    destruct (c =? 34) eqn:E34.
    { apply N.eqb_eq in E34. subst c. cbn [app].
      rewrite (json_chars_escape 34 34) by reflexivity. now rewrite IH. }
    destruct (c =? 92) eqn:E92.
    { apply N.eqb_eq in E92. subst c. cbn [app].
      rewrite (json_chars_escape 92 92) by reflexivity. now rewrite IH. }
    destruct (c <? 32) eqn:E32.
    { rewrite <- app_assoc, json_chars_unicode, IH by
        (try assumption; apply N.ltb_lt in E32; lia).
      reflexivity. }
    destruct (is_high_surrogate c) eqn:Eh.
    { destruct (surrogate_literal c (or_introl Eh)) as (_ & _ & _ & Hc).
      destruct t as [|d t1].
      - rewrite json_chars_unicode by exact Hc. reflexivity.
      - destruct (is_low_surrogate d) eqn:El.
        + destruct (surrogate_literal d (or_intror El)) as (D1 & D2 & D3 & _).
          cbn [app]. rewrite json_chars_literal by assumption.
          rewrite json_chars_literal by assumption.
          rewrite IH by (simpl in Ht; lia). reflexivity.
        + rewrite <- app_assoc, json_chars_unicode, IH by assumption.
          reflexivity. }
    destruct (is_low_surrogate c) eqn:El.
    { destruct (surrogate_literal c (or_intror El)) as (_ & _ & _ & Hc).
      rewrite <- app_assoc, json_chars_unicode, IH by assumption.
      reflexivity. }
    cbn [app]. rewrite json_chars_literal, IH by assumption. reflexivity.
Qed.

Lemma quoted_parses (s : jsstring) : parses_as (QuoteJSONString s) (JStr s).
Proof.
  intros f rest. unfold QuoteJSONString.
  rewrite <- !app_assoc. cbn [app json_value].
  change (skip_ws (34 :: quote_chars s ++ 34 :: rest))
    with (34 :: quote_chars s ++ 34 :: rest).
  change (34 =? 123) with false. change (34 =? 91) with false.
  change (34 =? 34) with true. cbv iota.
  now rewrite (json_chars_quote (length s)).
Qed.

Lemma bool_parses (b : bool) :
  parses_as (js (if b then "true" else "false")) (JBool b).
Proof. intros f rest. destruct b; reflexivity. Qed.

Lemma member_text_shape (k t R : jsstring) :
  member_text (k, t) ++ R = 34 :: quote_chars k ++ 34 :: 58 :: t ++ R.
Proof.
  unfold member_text, QuoteJSONString. cbn [fst snd].
  now rewrite <- !app_assoc.
Qed.

(** Reading one member and what follows it. *)
Lemma json_members_step (f : nat) (k t R : jsstring) (v : json) :
  parses_as t v ->
  json_members (S (S f)) (member_text (k, t) ++ R)
  = match skip_ws R with
    | e :: t2 =>
        if e =? 125 then Some ([(k, v)], t2)
        else if e =? 44 then
          match json_members (S f) t2 with
          | Some (ms, r3) => Some ((k, v) :: ms, r3)
          | None => None
          end
        else None
    | [] => None
    end.
Proof.
  intros Hv. rewrite member_text_shape.
  change (json_members (S (S f)) (34 :: quote_chars k ++ 34 :: 58 :: t ++ R))
    with (match json_chars (quote_chars k ++ 34 :: 58 :: t ++ R) with
          | Some (key, r) =>
              match skip_ws r with
              | c :: r1 =>
                  if c =? 58 then
                    match json_value (S f) r1 with
                    | Some (v, r2) =>
                        match skip_ws r2 with
                        | e :: t2 =>
                            if e =? 125 then Some ([(key, v)], t2)
                            else if e =? 44 then
                              match json_members (S f) t2 with
                              | Some (ms, r3) => Some ((key, v) :: ms, r3)
                              | None => None
                              end
                            else None
                        | [] => None
                        end
                    | None => None
                    end
                  else None
              | [] => None
              end
          | None => None
          end).
  rewrite (json_chars_quote (length k)) by lia.
  change (skip_ws (58 :: t ++ R)) with (58 :: t ++ R).
  change (58 =? 58) with true. cbv iota.
  now rewrite Hv.
Qed.

Lemma join_member_texts (m : jsstring * jsstring)
    (ms : list (jsstring * jsstring)) (R : jsstring) :
  join [44] (map member_text (m :: ms)) ++ R
  = member_text m
    ++ match ms with
       | [] => R
       | _ :: _ => 44 :: join [44] (map member_text ms) ++ R
       end.
Proof.
  destruct ms as [|m' ms]; [reflexivity|].
  cbn [map join]. now rewrite <- !app_assoc.
Qed.

(** The members written for an object are read back one by one. *)
Lemma json_members_text (ms : list (jsstring * jsstring))
    (ds : list (jsstring * json)) :
  Forall2 member_decodes ms ds -> ms <> [] ->
  forall f rest, (length ms <= f)%nat ->
  json_members (S f) (join [44] (map member_text ms) ++ 125 :: rest)
  = Some (ds, rest).
Proof.
  induction 1 as [|[k t] [k' v] ms ds [Hk Hv] Hrest IH]; [congruence|].
  intros _ f rest Hf. cbn [fst snd] in Hk, Hv. subst k'.
  destruct f as [|f]; [simpl in Hf; lia|].
  rewrite join_member_texts, (json_members_step f k t _ v Hv).
  destruct ms as [|m ms].
  - inversion Hrest. reflexivity.
  - change (skip_ws (44 :: join [44] (map member_text (m :: ms)) ++ 125 :: rest))
      with (44 :: join [44] (map member_text (m :: ms)) ++ 125 :: rest).
    change (44 =? 125) with false. change (44 =? 44) with true. cbv iota.
    rewrite IH; [reflexivity | discriminate | simpl in *; lia].
Qed.

Lemma json_value_brace (f : nat) (X : jsstring) :
  json_value (S (S f)) (123 :: X)
  = match skip_ws X with
    | d :: t1 =>
        if d =? 125 then Some (JObj [], t1)
        else
          match json_members (S f) (d :: t1) with
          | Some (ms, r) => Some (JObj ms, r)
          | None => None
          end
    | [] => None
    end.
Proof. reflexivity. Qed.

Lemma json_value_object (ms : list (jsstring * jsstring))
    (ds : list (jsstring * json)) :
  Forall2 member_decodes ms ds ->
  forall f rest, (length ms <= f)%nat ->
  json_value (S (S f)) (object_text ms ++ rest) = Some (JObj ds, rest).
Proof.
  intros H f rest Hf. unfold object_text.
  rewrite <- !app_assoc. cbn [app].
  destruct ms as [|[k t] ms].
  - inversion H. reflexivity.
  - pose proof (json_members_text _ _ H ltac:(discriminate) f rest Hf) as Hm.
    rewrite join_member_texts, member_text_shape in Hm |- *.
    rewrite json_value_brace.
    match goal with
    | |- context [skip_ws (34 :: ?x)] =>
        change (skip_ws (34 :: x)) with (34 :: x)
    end.
    change (34 =? 125) with false. cbv iota.
    unfold code_unit in *. now rewrite Hm.
Qed.

Lemma length_member_texts (ms : list (jsstring * jsstring)) :
  (length ms <= length (join [44%N] (map member_text ms)))%nat.
Proof.
  induction ms as [|m ms IH]; [simpl; lia|].
  assert (Hm : (1 <= length (member_text m))%nat).
  { unfold member_text, QuoteJSONString. rewrite !length_app. simpl. lia. }
  destruct ms as [|m' ms]; [cbn [map join length]; lia|].
  change (join [44] (map member_text (m :: m' :: ms)))
    with (member_text m ++ [44] ++ join [44] (map member_text (m' :: ms))).
  remember (join [44] (map member_text (m' :: ms))) as J.
  rewrite !length_app. cbn [length] in *. unfold jsstring, code_unit in *. lia.
Qed.

(** [JSON.parse] reads the text written for an object back as the object
    of the decoded members. *)
Lemma JSON_parse_object (ms : list (jsstring * jsstring))
    (ds : list (jsstring * json)) :
  Forall2 member_decodes ms ds ->
  JSON_parse (object_text ms) = Ok (JObj ds).
Proof.
  intros H. unfold JSON_parse.
  replace (2 * length (object_text ms) + 2)%nat
    with (S (S (2 * length (object_text ms)))) by lia.
  rewrite <- (app_nil_r (object_text ms)) at 2.
  rewrite (json_value_object ms ds H); [reflexivity|].
  pose proof (length_member_texts ms).
  unfold object_text. rewrite !length_app. simpl. lia.
Qed.

Lemma string_member_decodes (key : jsstring) (o : option jsstring) :
  Forall2 member_decodes (string_member key o) (json_string_member key o).
Proof.
  destruct o as [v|]; constructor; [|constructor].
  split; [reflexivity | apply quoted_parses].
Qed.

Lemma bool_member_decodes (key : jsstring) (o : option bool) :
  Forall2 member_decodes (bool_member key o) (json_bool_member key o).
Proof.
  destruct o as [b|]; constructor; [|constructor].
  split; [reflexivity | apply bool_parses].
Qed.

(** X1.  The relay that decodes the header [oproxy-options] with [JSON.parse]
    obtains an object with the member [method], holding the caller's method
    or "GET", followed by one member for each of mode, credentials,
    redirect, referrer, referrerPolicy, integrity and keepalive that the
    caller set, holding exactly the caller's value, whatever code units it
    is made of. *)
Theorem envelope_round_trip
    (endpoint : FetchProxy.Endpoint) (options : RequestInit) :
  exists text,
    init_header (FetchProxy.configuredOptions endpoint options)
      (js "oproxy-options") = Some text
    /\ JSON_parse text = Ok (JObj (decoded_envelope options)).
Proof.
  exists (object_text (envelope_members options)).
  split; [apply envelope_header|].
  apply JSON_parse_object. rewrite envelope_members_eq. unfold decoded_envelope.
  constructor; [split; [reflexivity | apply quoted_parses]|].
  repeat (apply Forall2_app; [apply string_member_decodes|]).
  apply bool_member_decodes.
Qed.

Lemma json_elements_step (f : nat) (s : jsstring) :
  json_elements (S (S f)) s
  = match json_value (S f) s with
    | Some (v, r) =>
        match skip_ws r with
        | c :: t =>
            if c =? 93 then Some ([v], t)
            else if c =? 44 then
              match json_elements (S f) t with
              | Some (vs, r1) => Some (v :: vs, r1)
              | None => None
              end
            else None
        | [] => None
        end
    | None => None
    end.
Proof. reflexivity. Qed.

Lemma join_texts (t : jsstring) (ts : list jsstring) (R : jsstring) :
  join [44] (t :: ts) ++ R
  = t ++ match ts with
         | [] => R
         | _ :: _ => 44 :: join [44] ts ++ R
         end.
Proof.
  destruct ts as [|t' ts]; [reflexivity|].
  cbn [join]. now rewrite <- !app_assoc.
Qed.

(** The elements written for an array are read back one by one. *)
Lemma json_elements_text (n : nat) (ts : list jsstring) (vs : list json) :
  Forall2 (parses_within n) ts vs -> ts <> [] ->
  forall f rest, (n + length ts <= f)%nat ->
  json_elements (S f) (join [44] ts ++ 93 :: rest) = Some (vs, rest).
Proof.
  induction 1 as [|t v ts vs Hv Hrest IH]; [congruence|].
  intros _ f rest Hf.
  destruct f as [|f]; [simpl in Hf; lia|].
  rewrite join_texts, json_elements_step.
  rewrite Hv by (simpl in Hf; lia).
  destruct ts as [|t' ts].
  - inversion Hrest. reflexivity.
  - change (skip_ws (44 :: ?x)) with (44 :: x).
    change (44 =? 93) with false. change (44 =? 44) with true. cbv iota.
    rewrite IH; [reflexivity | discriminate | simpl in *; lia].
Qed.

Lemma json_value_bracket (f : nat) (X : jsstring) :
  json_value (S (S f)) (91 :: X)
  = match skip_ws X with
    | d :: t1 =>
        if d =? 93 then Some (JArr [], t1)
        else
          match json_elements (S f) (d :: t1) with
          | Some (vs, r) => Some (JArr vs, r)
          | None => None
          end
    | [] => None
    end.
Proof. reflexivity. Qed.

Lemma skip_ws_starts_value (t R : jsstring) :
  starts_value t ->
  exists c t', t = c :: t' /\ skip_ws (t ++ R) = c :: t' ++ R
               /\ (c =? 93) = false.
Proof.
  destruct t as [|c t']; [intros []|]. intros [Hws Hc].
  exists c, t'. split; [reflexivity|]. split; [|exact Hc].
  unfold skip_ws. cbn [app drop_while]. now rewrite Hws.
Qed.

(** The text written for an array is read back as the array of the
    decoded elements. *)
Lemma array_parses (n : nat) (ts : list jsstring) (vs : list json) :
  Forall2 (parses_within n) ts vs -> Forall starts_value ts ->
  parses_within (S (n + length ts)) (array_text ts) (JArr vs).
Proof.
  intros H Hs f rest Hf. unfold array_text.
  rewrite <- !app_assoc. cbn [app].
  destruct f as [|f]; [lia|].
  rewrite json_value_bracket.
  destruct ts as [|t ts].
  - inversion H. reflexivity.
  - pose proof (json_elements_text n _ _ H ltac:(discriminate) f rest
                  ltac:(lia)) as He.
    rewrite join_texts in He |- *.
    inversion Hs as [|? ? Ht _]. subst.
    destruct (skip_ws_starts_value t
                (match ts with
                 | [] => 93 :: rest
                 | _ :: _ => 44 :: join [44] ts ++ 93 :: rest
                 end) Ht) as (c & t' & Et & Esk & Ec).
    unfold jsstring, code_unit in *.
    rewrite Esk, Ec. rewrite Et in He. cbn [app] in He. now rewrite He.
Qed.

Lemma quoted_starts_value (s : jsstring) : starts_value (QuoteJSONString s).
Proof. split; reflexivity. Qed.

Lemma array_starts_value (ts : list jsstring) : starts_value (array_text ts).
Proof. split; reflexivity. Qed.

Lemma parses_as_within (t : jsstring) (v : json) :
  parses_as t v -> parses_within 0 t v.
Proof. intros H f rest _. apply H. Qed.

Lemma parses_within_more (n m : nat) (t : jsstring) (v : json) :
  (n <= m)%nat -> parses_within n t v -> parses_within m t v.
Proof. intros Hnm H f rest Hf. apply H. lia. Qed.

(** [JSON.parse] of a text that stands for a value, with nothing after it. *)
Lemma JSON_parse_within (n : nat) (t : jsstring) (v : json) :
  parses_within n t v -> (n <= 2 * length t + 1)%nat ->
  JSON_parse t = Ok v.
Proof.
  intros H Hn. unfold JSON_parse.
  replace (2 * length t + 2)%nat with (S (2 * length t + 1)) by lia.
  rewrite <- (app_nil_r t) at 2.
  now rewrite H.
Qed.

Lemma length_join_ge (ts : list jsstring) :
  Forall (fun t => (1 <= length t)%nat) ts ->
  (length ts <= length (join [44%N] ts))%nat.
Proof.
  induction 1 as [|t ts Ht Hts IH]; [simpl; lia|].
  destruct ts as [|t' ts]; [cbn [join length]; lia|].
  change (join [44] (t :: t' :: ts)) with (t ++ [44] ++ join [44] (t' :: ts)).
  remember (join [44] (t' :: ts)) as J.
  rewrite !length_app. cbn [length] in *. unfold jsstring, code_unit in *. lia.
Qed.

Lemma length_join_in (sep t : jsstring) (ts : list jsstring) :
  In t ts -> (length t <= length (join sep ts))%nat.
Proof.
  induction ts as [|t0 ts IH]; [intros []|].
  intros Hin. destruct ts as [|t1 ts].
  - destruct Hin as [->|[]]. cbn [join]. lia.
  - change (join sep (t0 :: t1 :: ts)) with (t0 ++ sep ++ join sep (t1 :: ts)).
    rewrite !length_app. destruct Hin as [->|Hin]; [lia|].
    specialize (IH Hin). lia.
Qed.

Lemma written_record (entries : list (jsstring * jsstring)) :
  written_props (map (fun e => (fst e, VString (snd e))) entries)
  = map (fun e => (fst e, QuoteJSONString (snd e))) entries.
Proof.
  unfold written_props. induction entries as [|e entries IH]; [reflexivity|].
  cbn [map flat_map fst snd JSON_stringify app]. now rewrite IH.
Qed.

Lemma stringify_strings (p : list jsstring) :
  JSON_stringify (VArray (map VString p))
  = Some (array_text (map QuoteJSONString p)).
Proof.
  cbn [JSON_stringify]. unfold array_text. rewrite map_map. reflexivity.
Qed.

Lemma stringify_pairs (pairs : list (list jsstring)) :
  JSON_stringify (VArray (map (fun p => VArray (map VString p)) pairs))
  = Some (array_text
            (map (fun p => array_text (map QuoteJSONString p)) pairs)).
Proof.
  cbn [JSON_stringify]. unfold array_text at 1. rewrite map_map.
  do 4 f_equal. apply map_ext. intros p.
  now rewrite stringify_strings.
Qed.

Lemma strings_parse (p : list jsstring) :
  parses_within (S (length p)) (array_text (map QuoteJSONString p))
    (JArr (map JStr p)).
Proof.
  replace (S (length p)) with (S (0 + length (map QuoteJSONString p)))
    by (now rewrite length_map).
  apply array_parses.
  - induction p as [|s p IH]; constructor; [|exact IH].
    apply parses_as_within, quoted_parses.
  - apply Forall_forall. intros t Ht. apply in_map_iff in Ht.
    destruct Ht as (s & <- & _). apply quoted_starts_value.
Qed.

Lemma JSON_parse_pairs (pairs : list (list jsstring)) :
  JSON_parse
    (array_text (map (fun p => array_text (map QuoteJSONString p)) pairs))
  = Ok (JArr (map (fun p => JArr (map JStr p)) pairs)).
Proof.
  set (ts := map (fun p => array_text (map QuoteJSONString p)) pairs).
  set (n := length (array_text ts)).
  assert (Hlen : forall p, In p pairs -> (S (length p) <= n)%nat).
  { intros p Hp.
    assert (Hin : In (array_text (map QuoteJSONString p)) ts)
      by (apply in_map_iff; eauto).
    pose proof (length_join_in [44] _ _ Hin) as H1.
    pose proof (length_join_ge (map QuoteJSONString p)) as H2.
    unfold n. unfold array_text in H1 |- *.
    rewrite !length_app in H1 |- *. rewrite length_map in H2.
    cbn [length] in *. unfold jsstring, code_unit in *.
    assert (length p <= length (join [44%N] (map QuoteJSONString p)))%nat.
    { apply H2. apply Forall_forall. intros t Ht. apply in_map_iff in Ht.
      destruct Ht as (s & <- & _). unfold QuoteJSONString.
      rewrite !length_app. simpl. lia. }
    unfold jsstring, code_unit in *. lia. }
  assert (Hts : (length ts <= n)%nat).
  { pose proof (length_join_ge ts) as H. unfold n, array_text.
    rewrite !length_app. cbn [length].
    assert (length ts <= length (join [44%N] ts))%nat.
    { apply H. apply Forall_forall. intros t Ht. apply in_map_iff in Ht.
      destruct Ht as (p & <- & _). unfold array_text.
      rewrite !length_app. simpl. lia. }
    unfold jsstring, code_unit in *. lia. }
  apply (JSON_parse_within (S (n + length ts))); [|fold n; lia].
  apply array_parses.
  - unfold ts. clear Hts. clearbody n. clear ts.
    induction pairs as [|p pairs IH]; constructor.
    + apply (parses_within_more (S (length p))); [|apply strings_parse].
      apply Hlen. now left.
    + apply IH. intros q Hq. apply Hlen. now right.
  - apply Forall_forall. intros t Ht. apply in_map_iff in Ht.
    destruct Ht as (p & <- & _). apply array_starts_value.
Qed.

(** X2.  The header [headers] of the envelope, as the relay decodes it with
    [JSON.parse]: the caller's record, member by member, or the caller's
    list of pairs; the empty object when the caller passed no headers, and
    also when the caller passed a [Headers] object, whose entries are not
    written. *)
Theorem headers_round_trip
    (endpoint : FetchProxy.Endpoint) (options : RequestInit) :
  exists text,
    init_header (FetchProxy.configuredOptions endpoint options) (js "headers")
    = Some text
    /\ JSON_parse text = Ok (decoded_headers (headers options))
    /\ (forall h, headers options = Some (InitHeaders h) -> text = js "{}").
Proof.
  unfold init_header, FetchProxy.configuredOptions.
  cbn [headers find fst snd jsstring_eqb].
  destruct (headers options) as [[entries|pairs|h]|]; eexists;
    (split; [reflexivity|]).
  - split; [|discriminate]. cbn [FetchProxy.HeadersInit_value].
    rewrite stringify_object, written_record. cbn [FetchProxy.header_string
      FetchProxy.nullish decoded_headers].
    apply JSON_parse_object.
    induction entries as [|e entries IH]; constructor; [|exact IH].
    split; [reflexivity | apply quoted_parses].
  - split; [|discriminate]. cbn [FetchProxy.HeadersInit_value].
    rewrite stringify_pairs. apply JSON_parse_pairs.
  - split; reflexivity.
  - split; [reflexivity | discriminate].
Qed.

(** ** Failure and construction of the tunnelling client *)

(** X3.  A call of [fetch] fails in two ways only: the transport call is
    rejected, and [fetch] is rejected with the same error; or the reply
    carries [incomingHeaders] with a value [JSON.parse] does not accept,
    and [fetch] is rejected with that [SyntaxError]. *)
Theorem fetch_failures
    (transport : Transport) (self : FetchProxy.t)
    (endpoint : FetchProxy.Endpoint) (options : RequestInit) (e : error) :
  run transport (FetchProxy.fetch self endpoint options) = Throw e <->
  transport (FetchProxy.proxyEndpoint self)
    (FetchProxy.configuredOptions endpoint options) = Throw e
  \/ exists res v,
       transport (FetchProxy.proxyEndpoint self)
         (FetchProxy.configuredOptions endpoint options) = Ok res
       /\ Headers.get (Response.headers res) (js "incomingHeaders") = Some v
       /\ JSON_parse v = Throw e
       /\ e = SyntaxError.
Proof.
  rewrite run_fetch.
  destruct (transport _ _) as [res|e0]; cbn [bind].
  - unfold FetchProxy.reconstruct.
    destruct (Headers.has (Response.headers res) (js "incomingHeaders"))
      eqn:Hhas.
    + apply has_get in Hhas. destruct Hhas as [v Hv]. rewrite Hv.
      cbn [FetchProxy.nullish].
      destruct (JSON_parse v) as [j|e1] eqn:Ej; cbn [bind].
      * split; [discriminate|]. intros [H|(res' & v' & H1 & H2 & H3 & _)];
          [discriminate|]. congruence.
      * split.
        -- intros H. inversion H. subst e1. right. exists res, v.
           repeat split; auto. now apply JSON_parse_throws in Ej.
        -- intros [H|(res' & v' & H1 & H2 & H3 & _)]; [discriminate|].
           congruence.
    + apply has_false_get in Hhas. cbn [bind]. split; [discriminate|].
      intros [H|(res' & v' & H1 & H2 & _)]; [discriminate|]. congruence.
  - split.
    + intros H. inversion H. now left.
    + intros [H|(res' & v' & H1 & _)]; [now inversion H | discriminate].
Qed.

(** X4.  The constructor accepts every endpoint but the empty string, and each
    call of a constructed client is one transport call to the endpoint
    given at construction, with the target in the header [endpoint]. *)
Theorem constructed_client_calls_relay (proxyEndpoint : jsstring) :
  (proxyEndpoint = [] ->
   FetchProxy.constructor proxyEndpoint
   = Throw (Error (js "Proxy endpoint must not be a blank string")))
  /\ (proxyEndpoint <> [] ->
      exists self,
        FetchProxy.constructor proxyEndpoint = Ok self
        /\ forall endpoint options,
             exists init k,
               FetchProxy.fetch self endpoint options
               = AwaitFetch proxyEndpoint init k
               /\ init_header init (js "endpoint")
                  = Some (endpoint_text endpoint)).
Proof.
  split.
  - intros ->. reflexivity.
  - intros Hne. destruct proxyEndpoint as [|c t]; [congruence|].
    eexists. split; [reflexivity|]. intros endpoint options.
    eexists. eexists. split; [reflexivity|].
    now destruct endpoint.
Qed.

(** ** More on the raw response parser *)

(** The parser after its two splits. *)
Lemma parse_unfold (raw headerPart statusLine : jsstring)
    (bodyParts lines : list jsstring) :
  split blank_len raw = headerPart :: bodyParts ->
  split eol_len headerPart = statusLine :: lines ->
  parseRawHttpResponse raw
  = bind (append_lines [] lines)
      (fun headers =>
         Response.new (join [LF; LF] bodyParts)
           {| Response.init_status :=
                Number (statusCode_of (split space_len statusLine));
              Response.init_statusText :=
                join [SP] (skipn 2 (split space_len statusLine));
              Response.init_headers := headers |}).
Proof.
  intros Hraw Hlines. unfold parseRawHttpResponse.
  now rewrite Hraw, Hlines.
Qed.

Lemma lacks_space_no_match (h R : jsstring) :
  lacks SP h = true ->
  no_match_before space_len (length h) (h ++ R) = true.
Proof.
  intros H. apply no_match_before_spec.
  induction h as [|x h IH]; intros i Hi; [simpl in Hi; lia|].
  cbn [lacks forallb] in H. apply andb_true_iff in H. destruct H as [Hx Hh].
  destruct i as [|i].
  - cbn [skipn app space_len]. apply negb_true_iff in Hx. now rewrite Hx.
  - cbn [skipn app]. apply IH; [exact Hh | simpl in Hi; lia].
Qed.

Lemma split_space_token (h R : jsstring) :
  lacks SP h = true ->
  split space_len (h ++ [SP] ++ R) = h :: split space_len R.
Proof.
  intros H. apply split_first.
  - now apply lacks_space_no_match.
  - simpl. lia.
  - reflexivity.
Qed.

Lemma split_space_lacks (h : jsstring) :
  lacks SP h = true -> split space_len h = [h].
Proof.
  intros H. apply split_single.
  pose proof (lacks_space_no_match h [] H) as Hno.
  rewrite app_nil_r in Hno. now apply no_match_before_spec.
Qed.

Lemma join_split_go_space (s : jsstring) :
  forall cur, join [SP] (split_go space_len 0 cur s) = rev cur ++ s.
Proof.
  induction s as [|c t IH]; intros cur.
  - cbn [split_go join]. now rewrite app_nil_r.
  - cbn [split_go space_len]. destruct (c =? SP) eqn:E.
    + apply N.eqb_eq in E. subst c.
      rewrite join_cons by apply split_go_nonempty.
      now rewrite IH.
    + rewrite IH. cbn [rev]. now rewrite <- app_assoc.
Qed.

(** Joining with spaces what was split at spaces restores the text. *)
Lemma join_split_space (s : jsstring) : join [SP] (split space_len s) = s.
Proof. apply (join_split_go_space s []). Qed.

Lemma Response_new_fields (b : jsstring) (init : Response.ResponseInit) r :
  Response.new b init = Ok r ->
  Response.status r = ToUint16 (Response.init_status init)
  /\ Response.statusText r = Response.init_statusText init
  /\ Response.headers r
     = Response.init_headers init
       ++ Response.content_type_entry (Response.init_headers init)
  /\ Response.body r = b
  /\ Response.null_body_status (Response.status r) = false.
Proof.
  unfold Response.new.
  destruct (negb (forallb _ _)); [discriminate|].
  destruct (_ && _); [discriminate|].
  destruct (negb (forallb _ _)); [discriminate|].
  destruct (Response.null_body_status _) eqn:Enull; [discriminate|].
  intros H. inversion H. cbn. auto.
Qed.

(** X5.  The status line [protocol code text], its first two tokens free of
    spaces: the status of the response is the code, converted by [Number]
    and to an unsigned short, and the status text is the rest of the line
    after the second space, further spaces included. *)
Theorem status_line_fields
    (raw headerPart protocol code text : jsstring)
    (bodyParts lines : list jsstring) (r : Response.t) :
  split blank_len raw = headerPart :: bodyParts ->
  split eol_len headerPart
  = (protocol ++ [SP] ++ code ++ [SP] ++ text) :: lines ->
  lacks SP protocol = true ->
  lacks SP code = true ->
  parseRawHttpResponse raw = Ok r ->
  Response.status r = ToUint16 (Number (Str code))
  /\ Response.statusText r = text.
Proof.
  intros Hraw Hlines Hp Hc Hparse.
  rewrite (parse_unfold _ _ _ _ _ Hraw Hlines) in Hparse.
  destruct (append_lines [] lines) as [hs|e]; [|discriminate].
  cbn [bind] in Hparse. apply Response_new_fields in Hparse.
  destruct Hparse as (Hs & Ht & _). cbn [Response.init_status
    Response.init_statusText] in Hs, Ht.
  rewrite (split_space_token protocol _ Hp) in Hs, Ht.
  rewrite (split_space_token code _ Hc) in Hs, Ht.
  cbn [statusCode_of nth_error skipn] in Hs, Ht.
  rewrite join_split_space in Ht. auto.
Qed.

Lemma status_line_fields_witness :
  let raw := js "HTTP/1.1 404 Not  Found" ++ CRLF ++ CRLF ++ js "gone" in
  exists r,
    parseRawHttpResponse raw = Ok r
    /\ Response.status r = 404
    /\ Response.statusText r = js "Not  Found".
Proof.
  intros raw.
  destruct (parseRawHttpResponse raw) as [r|e] eqn:E;
    [|vm_compute in E; discriminate].
  exists r. split; [reflexivity|].
  exact (status_line_fields raw (js "HTTP/1.1 404 Not  Found")
           (js "HTTP/1.1") (js "404") (js "Not  Found") [js "gone"] [] r
           eq_refl eq_refl eq_refl eq_refl E).
Defined.

(** X6.  A status line without a space has no status code: the status handed to
    the [Response] constructor is [NaN] and the parse fails, whatever the
    header lines and the body are. *)
Theorem status_line_without_code_fails
    (raw headerPart statusLine : jsstring) (bodyParts lines : list jsstring) :
  split blank_len raw = headerPart :: bodyParts ->
  split eol_len headerPart = statusLine :: lines ->
  lacks SP statusLine = true ->
  parseRawHttpResponse raw = Throw RangeError
  \/ parseRawHttpResponse raw = Throw TypeError.
Proof.
  intros Hraw Hlines Hs.
  rewrite (parse_unfold _ _ _ _ _ Hraw Hlines).
  rewrite (split_space_lacks _ Hs).
  destruct (append_lines [] lines) as [hs|e] eqn:Ea; cbn [bind].
  - left. reflexivity.
  - right. apply append_lines_throws in Ea. now subst e.
Qed.

Lemma status_line_without_code_fails_witness :
  parseRawHttpResponse (js "garbage" ++ CRLF ++ js "X-A: 1" ++ CRLF ++ CRLF)
  = Throw RangeError
  \/ parseRawHttpResponse (js "garbage" ++ CRLF ++ js "X-A: 1" ++ CRLF ++ CRLF)
     = Throw TypeError.
Proof.
  exact (status_line_without_code_fails
           (js "garbage" ++ CRLF ++ js "X-A: 1" ++ CRLF ++ CRLF)
           (js "garbage" ++ CRLF ++ js "X-A: 1") (js "garbage") [[]]
           [js "X-A: 1"] eq_refl eq_refl eq_refl).
Defined.

(** X7.  A response the parser returns never has a status that forbids a body:
    an input with the status code 204, 205 or 304 (or 101) makes the
    [Response] constructor reject the body, which is always a string. *)
Theorem null_body_status_never_returned (raw : jsstring) (r : Response.t) :
  parseRawHttpResponse raw = Ok r ->
  Response.status r <> 101 /\ Response.status r <> 204
  /\ Response.status r <> 205 /\ Response.status r <> 304.
Proof.
  unfold parseRawHttpResponse.
  destruct (split blank_len raw) as [|headerPart bodyParts]; [discriminate|].
  destruct (split eol_len headerPart) as [|statusLine lines]; [discriminate|].
  destruct (append_lines [] lines) as [headers|e]; [|discriminate].
  cbn [bind]. intros H. apply Response_new_fields in H.
  destruct H as (_ & _ & _ & _ & H). unfold Response.null_body_status in H.
  repeat (apply orb_false_iff in H; destruct H as [H ?]).
  repeat split; apply N.eqb_neq; assumption.
Qed.

Lemma null_body_status_never_returned_witness :
  parseRawHttpResponse (js "HTTP/1.1 204 No Content" ++ CRLF ++ CRLF)
  = Throw TypeError
  /\ exists r,
       parseRawHttpResponse example_raw = Ok r /\ Response.status r <> 204.
Proof.
  split; [reflexivity|].
  destruct (parseRawHttpResponse example_raw) as [r|e] eqn:E;
    [|vm_compute in E; discriminate].
  exists r. split; [reflexivity|].
  exact (proj1 (proj2 (null_body_status_never_returned example_raw r E))).
Defined.

Lemma indexOf_first (c : code_unit) (name v : jsstring) :
  lacks c name = true ->
  indexOf c (name ++ c :: v) = Z.of_nat (length name).
Proof.
  induction name as [|x name IH]; intros H.
  - cbn [app indexOf length]. now rewrite N.eqb_refl.
  - cbn [lacks forallb] in H. apply andb_true_iff in H. destruct H as [Hx Hn].
    apply negb_true_iff in Hx. cbn [app indexOf]. rewrite Hx, (IH Hn).
    destruct (Z.of_nat (length name)) eqn:E; cbn [length]; lia.
Qed.

Lemma slice_prefix (name R : jsstring) :
  slice 0 (Z.of_nat (length name)) (name ++ R) = name.
Proof.
  unfold slice, slice_index. rewrite length_app.
  change (0 <? 0)%Z with false. cbv iota.
  replace (Z.of_nat (length name) <? 0)%Z with false
    by (symmetry; apply Z.ltb_ge; lia).
  rewrite Z.min_l by lia. rewrite Z.min_l by lia.
  rewrite Z.sub_0_r, Nat2Z.id. change (Z.to_nat 0) with 0%nat.
  cbn [skipn]. rewrite firstn_app, firstn_all, Nat.sub_diag.
  cbn [firstn]. apply app_nil_r.
Qed.

Lemma slice_from_suffix (name v : jsstring) (c : code_unit) :
  slice_from (Z.of_nat (length name) + 1) (name ++ c :: v) = v.
Proof.
  unfold slice_from, slice, slice_index.
  remember (Z.of_nat (length (name ++ c :: v))) as len eqn:El.
  assert (Hlen : len = (Z.of_nat (length name) + 1 + Z.of_nat (length v))%Z)
    by (subst len; rewrite length_app; cbn [length]; lia).
  replace (Z.of_nat (length name) + 1 <? 0)%Z with false
    by (symmetry; apply Z.ltb_ge; lia).
  replace (len <? 0)%Z with false by (symmetry; apply Z.ltb_ge; lia).
  replace (Z.to_nat (Z.min len len - Z.min (Z.of_nat (length name) + 1) len))
    with (length v) by lia.
  replace (Z.to_nat (Z.min (Z.of_nat (length name) + 1) len))
    with (length name + 1)%nat by lia.
  rewrite skipn_app.
  replace (length name + 1 - length name)%nat with 1%nat by lia.
  rewrite skipn_all2 by lia. cbn [skipn app]. apply firstn_all.
Qed.

(** X8.  A header line is cut at its first colon only: for a name without a
    colon, the line [name:value] is appended as the trimmed name and the
    trimmed value, the colons of the value included. *)
Theorem header_line_first_colon
    (headers : Headers.t) (name value : jsstring) (rest : list jsstring) :
  lacks COLON name = true ->
  append_lines headers ((name ++ [COLON] ++ value) :: rest)
  = bind (Headers.append headers (trim name) (trim value))
      (fun headers => append_lines headers rest).
Proof.
  intros H. cbn [append_lines app].
  rewrite (indexOf_first COLON name value H).
  replace (Z.of_nat (length name) =? -1)%Z with false
    by (symmetry; apply Z.eqb_neq; lia).
  cbn [negb].
  now rewrite slice_prefix, slice_from_suffix.
Qed.

Lemma header_line_first_colon_witness :
  append_lines [] [js "Location: http://host:8080/a"]
  = Ok [(js "Location", js "http://host:8080/a")].
Proof.
  exact (header_line_first_colon [] (js "Location") (js " http://host:8080/a")
           [] eq_refl).
Defined.

(** X9.  With a single blank line in the input, whose header part alone is
    parsed to a response, the input is parsed to a response with the text
    after the blank line as body, unchanged, and the status, status text
    and headers of the header part; when the header part alone is
    rejected, so is the input, with the same error. *)
Theorem single_blank_line_body (h sep rest : jsstring) :
  no_match_before blank_len (length h) (h ++ sep ++ rest) = true ->
  (0 < length sep)%nat ->
  blank_len (sep ++ rest) = length sep ->
  no_match_before blank_len (length rest) rest = true ->
  (forall r0,
     parseRawHttpResponse h = Ok r0 ->
     parseRawHttpResponse (h ++ sep ++ rest)
     = Ok {| Response.status := Response.status r0;
             Response.statusText := Response.statusText r0;
             Response.headers := Response.headers r0;
             Response.body := rest |})
  /\ (forall e,
        parseRawHttpResponse h = Throw e ->
        parseRawHttpResponse (h ++ sep ++ rest) = Throw e).
Proof.
  intros Hh Hsep Hm Hrest.
  assert (Hparse : parseRawHttpResponse (h ++ sep ++ rest)
                   = with_body rest (parseRawHttpResponse h)).
  { rewrite (parse_header_part h [rest]).
    - reflexivity.
    - now apply (no_match_inside h (sep ++ rest)).
    - rewrite (split_first blank_len h sep rest) by assumption.
      rewrite (split_single blank_len rest); [reflexivity|].
      now apply no_match_before_spec. }
  split.
  - intros r0 H0. rewrite Hparse. now apply with_body_Ok.
  - intros e He. rewrite Hparse. now apply with_body_Throw.
Qed.

Lemma single_blank_line_body_witness :
  exists r,
    parseRawHttpResponse
      (js "HTTP/1.1 200 OK" ++ (CRLF ++ CRLF) ++ js "a" ++ CRLF ++ js "b")
    = Ok r
    /\ Response.status r = 200
    /\ Response.statusText r = js "OK"
    /\ Response.body r = js "a" ++ CRLF ++ js "b".
Proof.
  destruct (single_blank_line_body (js "HTTP/1.1 200 OK") (CRLF ++ CRLF)
              (js "a" ++ CRLF ++ js "b") eq_refl (Nat.lt_0_succ 3) eq_refl
              eq_refl) as [Hok _].
  destruct (parseRawHttpResponse (js "HTTP/1.1 200 OK")) as [r0|e] eqn:E0;
    [|vm_compute in E0; discriminate].
  eexists. split; [exact (Hok r0 eq_refl)|].
  vm_compute in E0. injection E0 as <-.
  repeat split.
Defined.

(** X10.  Without any blank line the whole input is the header part and the
    body of the response is empty. *)
Theorem no_blank_line_empty_body (raw : jsstring) (r : Response.t) :
  no_match_before blank_len (length raw) raw = true ->
  parseRawHttpResponse raw = Ok r ->
  Response.body r = [].
Proof.
  intros Hno Hparse.
  assert (Hs : split blank_len raw = [raw])
    by (apply split_single; now apply no_match_before_spec).
  unfold parseRawHttpResponse in Hparse. rewrite Hs in Hparse.
  destruct (split eol_len raw) as [|statusLine lines]; [discriminate|].
  destruct (append_lines [] lines) as [hs|e]; [|discriminate].
  cbn [bind] in Hparse. apply Response_new_fields in Hparse.
  now destruct Hparse as (_ & _ & _ & Hb & _).
Qed.

Lemma no_blank_line_empty_body_witness :
  exists r,
    parseRawHttpResponse (js "HTTP/1.1 200 OK" ++ CRLF ++ js "X-A: 1") = Ok r
    /\ Response.body r = [].
Proof.
  destruct (parseRawHttpResponse (js "HTTP/1.1 200 OK" ++ CRLF ++ js "X-A: 1"))
    as [r|e] eqn:E; [|vm_compute in E; discriminate].
  exists r. split; [reflexivity|].
  exact (no_blank_line_empty_body
           (js "HTTP/1.1 200 OK" ++ CRLF ++ js "X-A: 1") r eq_refl E).
Defined.

(** ** Regular expressions and [isNumeric] *)

Lemma lang_eps_inv (s : jsstring) : lang Eps s <-> s = [].
Proof. split; [now inversion 1 | intros ->; constructor]. Qed.

Lemma lang_chr_inv (p : code_unit -> bool) (s : jsstring) :
  lang (Chr p) s <-> exists c, s = [c] /\ p c = true.
Proof.
  split.
  - inversion 1; subst. eauto.
  - intros (c & -> & H). now constructor.
Qed.

Lemma lang_alt_inv (r1 r2 : regex) (s : jsstring) :
  lang (Alt r1 r2) s <-> lang r1 s \/ lang r2 s.
Proof.
  split.
  - inversion 1; subst; auto.
  - intros [H|H]; [now apply lang_alt_l | now apply lang_alt_r].
Qed.

Lemma lang_seq_inv (r1 r2 : regex) (s : jsstring) :
  lang (Seq r1 r2) s <->
  exists s1 s2, s = s1 ++ s2 /\ lang r1 s1 /\ lang r2 s2.
Proof.
  split.
  - inversion 1; subst. eauto.
  - intros (s1 & s2 & -> & H1 & H2). now constructor.
Qed.

Lemma lang_empty_inv (s : jsstring) : ~ lang Empty s.
Proof. inversion 1. Qed.

Lemma nullable_lang (r : regex) : nullable r = true <-> lang r [].
Proof.
  induction r as [| |p|r1 IH1 r2 IH2|r1 IH1 r2 IH2|r IH]; cbn [nullable].
  - split; [discriminate | intros H; now apply lang_empty_inv in H].
  - split; [constructor | reflexivity].
  - split; [discriminate|]. intros H. apply lang_chr_inv in H.
    destruct H as (c & H & _). discriminate.
  - rewrite orb_true_iff, lang_alt_inv. tauto.
  - rewrite andb_true_iff, lang_seq_inv. split.
    + intros [H1 H2]. exists [], []. tauto.
    + intros (s1 & s2 & E & H1 & H2). symmetry in E.
      apply app_eq_nil in E. destruct E; subst. tauto.
  - split; [constructor | reflexivity].
Qed.

Lemma deriv_sound (c : code_unit) (r : regex) :
  forall s, lang (deriv c r) s -> lang r (c :: s).
Proof.
  induction r as [| |p|r1 IH1 r2 IH2|r1 IH1 r2 IH2|r IH]; intros s;
    cbn [deriv].
  - intros H. now apply lang_empty_inv in H.
  - intros H. now apply lang_empty_inv in H.
  - destruct (p c) eqn:E; intros H; [|now apply lang_empty_inv in H].
    apply lang_eps_inv in H. subst. now constructor.
  - rewrite lang_alt_inv. intros [H|H];
      [apply lang_alt_l | apply lang_alt_r]; auto.
  - assert (Hseq : lang (Seq (deriv c r1) r2) s -> lang (Seq r1 r2) (c :: s)).
    { rewrite lang_seq_inv. intros (s1 & s2 & -> & H1 & H2).
      change (c :: s1 ++ s2) with ((c :: s1) ++ s2). constructor; auto. }
    destruct (nullable r1) eqn:En; [|exact Hseq].
    rewrite lang_alt_inv. intros [H|H]; [auto|].
    change (c :: s) with ([] ++ c :: s).
    constructor; [now apply nullable_lang | auto].
  - rewrite lang_seq_inv. intros (s1 & s2 & -> & H1 & H2).
    change (c :: s1 ++ s2) with ((c :: s1) ++ s2). constructor; auto.
Qed.

Lemma deriv_complete (r : regex) (w : jsstring) :
  lang r w -> forall c s, w = c :: s -> lang (deriv c r) s.
Proof.
  induction 1 as [|p c0 Hp|r1 r2 s0 H IH|r1 r2 s0 H IH
                 |r1 r2 s1 s2 H1 IH1 H2 IH2|r|r s1 s2 H1 IH1 H2 IH2];
    intros c s E; cbn [deriv].
  - discriminate.
  - inversion E; subst. rewrite Hp. constructor.
  - apply lang_alt_l. auto.
  - apply lang_alt_r. auto.
  - destruct s1 as [|c1 s1].
    + cbn [app] in E. subst s2.
      rewrite (proj2 (nullable_lang r1) H1). apply lang_alt_r. auto.
    + inversion E; subst.
      assert (Hs : lang (Seq (deriv c r1) r2) (s1 ++ s2))
        by (constructor; auto).
      destruct (nullable r1); [now apply lang_alt_l | exact Hs].
  - discriminate.
  - destruct s1 as [|c1 s1].
    + cbn [app] in E. now apply IH2.
    + inversion E; subst. constructor; auto.
Qed.

(** [test] decides the language of the pattern. *)
Lemma test_lang (s : jsstring) :
  forall r, test r s = true <-> lang r s.
Proof.
  induction s as [|c t IH]; intros r; cbn [test].
  - apply nullable_lang.
  - rewrite IH. split; [apply deriv_sound|].
    intros H. now apply (deriv_complete r (c :: t)).
Qed.

Lemma lang_star_digits (s : jsstring) :
  lang (Star digit) s <-> forallb is_digit s = true.
Proof.
  split.
  - remember (Star digit) as r eqn:Er. induction 1; try discriminate.
    + reflexivity.
    + inversion Er; subst. apply lang_chr_inv in H.
      destruct H as (c & -> & Hc). cbn [app forallb]. rewrite Hc. auto.
  - induction s as [|c t IH]; [constructor|].
    cbn [forallb]. rewrite andb_true_iff. intros [Hc Ht].
    change (c :: t) with ([c] ++ t). constructor; [now constructor | auto].
Qed.

Lemma lang_plus_digits (s : jsstring) : lang (Plus digit) s <-> digits s.
Proof.
  unfold Plus, digits. rewrite lang_seq_inv. split.
  - intros (s1 & s2 & -> & H1 & H2). apply lang_chr_inv in H1.
    destruct H1 as (c & -> & Hc). apply lang_star_digits in H2.
    split; [discriminate|]. cbn [app forallb]. now rewrite Hc.
  - intros [Hne H]. destruct s as [|c t]; [congruence|].
    cbn [forallb] in H. apply andb_true_iff in H. destruct H as [Hc Ht].
    exists [c], t. repeat split; [now constructor | now apply lang_star_digits].
Qed.

Lemma lang_opt_inv (r : regex) (s : jsstring) :
  lang (Opt r) s <-> s = [] \/ lang r s.
Proof. unfold Opt. now rewrite lang_alt_inv, lang_eps_inv. Qed.

Lemma lang_fraction (s : jsstring) :
  lang (Opt (Seq dot (Plus digit))) s <->
  s = [] \/ exists fp, s = 46 :: fp /\ digits fp.
Proof.
  rewrite lang_opt_inv, lang_seq_inv. split.
  - intros [H|(s1 & s2 & -> & H1 & H2)]; [now left|]. right.
    apply lang_chr_inv in H1. destruct H1 as (c & -> & Hc).
    apply N.eqb_eq in Hc. subst c. apply lang_plus_digits in H2.
    exists s2. split; [reflexivity | exact H2].
  - intros [H|(fp & -> & H)]; [now left|]. right.
    exists [46], fp. repeat split; [now constructor|].
    now apply lang_plus_digits.
Qed.

Lemma lang_sign (s : jsstring) : lang (Opt minus) s <-> s = [] \/ s = [45].
Proof.
  rewrite lang_opt_inv. split.
  - intros [H|H]; [now left|]. apply lang_chr_inv in H.
    destruct H as (c & -> & Hc). apply N.eqb_eq in Hc. subst. now right.
  - intros [H| ->]; [now left|]. right. now constructor.
Qed.

(** X11.  The strings [isNumeric] accepts: an optional minus sign, allowed by
    [allowNegative] only; a non-empty run of digits; and an optional
    fraction, a dot and a non-empty run of digits, allowed by
    [allowDecimal] only.  Nothing else is accepted, not the empty string,
    white space, an exponent or a bare dot. *)
Theorem isNumeric_accepts (s : jsstring) (options : NumericOptions) :
  isNumeric (Some s) options = true <->
  exists sign ip frac,
    s = sign ++ ip ++ frac
    /\ (sign = [] \/ (sign = [45] /\ allowNegative options = true))
    /\ digits ip
    /\ (frac = []
        \/ (allowDecimal options = true
            /\ exists fp, frac = 46 :: fp /\ digits fp)).
Proof.
  cbn [isNumeric]. rewrite test_lang. unfold numeric_regex.
  destruct options as [[|] [|]]; cbn [allowNegative allowDecimal].
  - rewrite lang_seq_inv. split.
    + intros (s1 & s2 & -> & H1 & H2). apply lang_sign in H1.
      apply lang_seq_inv in H2. destruct H2 as (ip & frac & -> & Hi & Hf).
      apply lang_plus_digits in Hi. apply lang_fraction in Hf.
      exists s1, ip, frac. split; [reflexivity|].
      split; [destruct H1; auto|]. split; [exact Hi|]. destruct Hf; auto.
    + intros (sign & ip & frac & -> & Hs & Hi & Hf).
      exists sign, (ip ++ frac). split; [reflexivity|]. split.
      * apply lang_sign. destruct Hs as [|[? _]]; auto.
      * apply lang_seq_inv. exists ip, frac. split; [reflexivity|]. split.
        -- now apply lang_plus_digits.
        -- apply lang_fraction. destruct Hf as [|[_ ?]]; auto.
  - rewrite lang_seq_inv. split.
    + intros (s1 & s2 & -> & H1 & H2). apply lang_sign in H1.
      apply lang_plus_digits in H2.
      exists s1, s2, []. rewrite app_nil_r. split; [reflexivity|].
      split; [destruct H1; auto|]. split; [exact H2 | now left].
    + intros (sign & ip & frac & -> & Hs & Hi & Hf).
      destruct Hf as [->|[Hd _]]; [|discriminate]. rewrite app_nil_r.
      exists sign, ip. split; [reflexivity|]. split.
      * apply lang_sign. destruct Hs as [|[? _]]; auto.
      * now apply lang_plus_digits.
  - rewrite lang_seq_inv. split.
    + intros (ip & frac & -> & Hi & Hf).
      apply lang_plus_digits in Hi. apply lang_fraction in Hf.
      exists [], ip, frac. split; [reflexivity|]. split; [now left|].
      split; [exact Hi|]. destruct Hf; auto.
    + intros (sign & ip & frac & -> & Hs & Hi & Hf).
      destruct Hs as [->|[_ Hn]]; [|discriminate]. cbn [app].
      exists ip, frac. split; [reflexivity|]. split.
      * now apply lang_plus_digits.
      * apply lang_fraction. destruct Hf as [|[_ ?]]; auto.
  - rewrite lang_plus_digits. split.
    + intros H. exists [], s, []. rewrite app_nil_r.
      split; [reflexivity|]. split; [now left|]. split; [exact H | now left].
    + intros (sign & ip & frac & -> & Hs & Hi & Hf).
      destruct Hs as [->|[_ Hn]]; [|discriminate].
      destruct Hf as [->|[Hd _]]; [|discriminate].
      cbn [app]. now rewrite app_nil_r.
Qed.

(** X12.  Allowing more never rejects what was accepted: a string accepted under
    some options is accepted when [allowNegative] or [allowDecimal] is
    switched on in addition. *)
Theorem isNumeric_monotone (str : option jsstring)
    (options more : NumericOptions) :
  (allowNegative options = true -> allowNegative more = true) ->
  (allowDecimal options = true -> allowDecimal more = true) ->
  isNumeric str options = true ->
  isNumeric str more = true.
Proof.
  intros Hn Hd. destruct str as [s|]; [|discriminate].
  rewrite !isNumeric_accepts.
  intros (sign & ip & frac & E & Hs & Hi & Hf).
  exists sign, ip, frac. split; [exact E|]. split.
  - destruct Hs as [|[? ?]]; auto.
  - split; [exact Hi|]. destruct Hf as [|[? ?]]; auto.
Qed.

Lemma isNumeric_monotone_witness :
  isNumeric (Some (js "42"))
    {| allowNegative := true; allowDecimal := true |} = true.
Proof.
  exact (isNumeric_monotone (Some (js "42"))
           {| allowNegative := false; allowDecimal := false |}
           {| allowNegative := true; allowDecimal := true |}
           (fun H => eq_refl) (fun H => eq_refl) eq_refl).
Defined.

Lemma digit_not_whitespace (c : code_unit) :
  is_digit c = true -> is_whitespace c = false.
Proof.
  unfold is_digit. intros H. apply andb_true_iff in H. destruct H as [H1 H2].
  apply N.leb_le in H1, H2.
  destruct (is_whitespace c) eqn:E; [|reflexivity].
  unfold is_whitespace in E.
  repeat (apply orb_true_iff in E; destruct E as [E|E]);
    try (apply andb_true_iff in E; destruct E as [E1 E2];
         apply N.leb_le in E1, E2; lia);
    apply N.eqb_eq in E; lia.
Qed.

Lemma digit_of_digit (c : code_unit) :
  is_digit c = true -> digit_of 10 c = Some (c - 48).
Proof.
  unfold is_digit, digit_of. intros H. rewrite H.
  apply andb_true_iff in H. destruct H as [H1 H2]. apply N.leb_le in H1, H2.
  destruct (c - 48 <? 10) eqn:E; [reflexivity|]. apply N.ltb_ge in E. lia.
Qed.

Lemma span_digits_run (ip R : jsstring) :
  forallb is_digit ip = true ->
  match R with
  | [] => True
  | c :: _ => digit_of 10 c = None
  end ->
  span_digits 10 (ip ++ R) = (digit_values ip, R).
Proof.
  intros Hip HR. induction ip as [|c ip IH].
  - cbn [app digit_values map]. destruct R as [|c R]; [reflexivity|].
    cbn [span_digits]. now rewrite HR.
  - cbn [forallb] in Hip. apply andb_true_iff in Hip. destruct Hip as [Hc Hip].
    cbn [app span_digits]. rewrite (digit_of_digit c Hc), (IH Hip).
    reflexivity.
Qed.

Lemma digits_rev_head (l X : jsstring) :
  digits l -> head_kept _ is_whitespace (rev l ++ X).
Proof.
  intros [Hne Hall].
  assert (Hr : forallb is_digit (rev l) = true).
  { apply forallb_forall. intros x Hx. apply in_rev in Hx.
    now apply (proj1 (forallb_forall _ _) Hall). }
  destruct (rev l) as [|d l'] eqn:E.
  - apply (f_equal (@rev _)) in E. rewrite rev_involutive in E. now subst.
  - cbn [forallb] in Hr. apply andb_true_iff in Hr.
    cbn [app head_kept]. now apply digit_not_whitespace.
Qed.

Lemma digits_head (l X : jsstring) :
  digits l -> head_kept _ is_whitespace (l ++ X).
Proof.
  intros [Hne Hall]. destruct l as [|d l]; [congruence|].
  cbn [forallb] in Hall. apply andb_true_iff in Hall.
  cbn [app head_kept]. now apply digit_not_whitespace.
Qed.

Lemma number_of_MV_not_NaN (neg : bool) (mv : Q) : number_of_MV neg mv <> NaN.
Proof.
  unfold number_of_MV.
  destruct (Qeq_bool mv 0); [destruct neg; discriminate|].
  destruct (round64 mv); [|discriminate].
  destruct (Qeq_bool q 0); destruct neg; discriminate.
Qed.

(** [Number] on a run of digits with an optional fraction. *)
Lemma unsigned_decimal_digits (ip frac : jsstring) :
  digits ip ->
  (frac = [] \/ exists fp, frac = 46 :: fp /\ digits fp) ->
  exists ds e,
    unsigned_decimal_literal (ip ++ frac) = Some (LitMV (decimal_MV ds e)).
Proof.
  intros Hip Hf. unfold unsigned_decimal_literal.
  assert (Hinf : jsstring_eqb (ip ++ frac) (js "Infinity") = false).
  { destruct Hip as [Hne Hall]. destruct ip as [|c ip]; [congruence|].
    cbn [forallb] in Hall. apply andb_true_iff in Hall. destruct Hall as [Hc _].
    unfold is_digit in Hc. apply andb_true_iff in Hc. destruct Hc as [H1 H2].
    apply N.leb_le in H1, H2.
    change (js "Infinity") with (73 :: js "nfinity").
    cbn [app jsstring_eqb].
    replace (c =? 73) with false by (symmetry; apply N.eqb_neq; lia).
    reflexivity. }
  rewrite Hinf.
  destruct Hf as [->|(fp & -> & Hfp)].
  - rewrite (span_digits_run ip []) by (try apply Hip; exact I).
    rewrite app_nil_r.
    destruct (digit_values ip) as [|d ds] eqn:E.
    + destruct Hip as [Hne _]. destruct ip; [congruence | discriminate].
    + cbn [exponent_part]. eauto.
  - rewrite (span_digits_run ip (46 :: fp)) by (try apply Hip; reflexivity).
    assert (Hsp : span_digits 10 fp = (digit_values fp, [])).
    { rewrite <- (app_nil_r fp) at 1.
      apply span_digits_run; [apply Hfp | exact I]. }
    change (46 =? 46) with true. cbv iota. rewrite Hsp.
    destruct (digit_values ip ++ digit_values fp) as [|d ds] eqn:E.
    + destruct Hip as [Hne _]. destruct ip; [congruence | discriminate].
    + cbn [exponent_part]. eauto.
Qed.

(** X13.  Every string [isNumeric] accepts is a number for [Number]: the
    conversion yields the binary64 value of a decimal, never [NaN]. *)
Theorem isNumeric_then_Number (s : jsstring) (options : NumericOptions) :
  isNumeric (Some s) options = true ->
  Number (Str s) <> NaN
  /\ exists neg ds e, Number (Str s) = number_of_MV neg (decimal_MV ds e).
Proof.
  intros H. apply isNumeric_accepts in H.
  destruct H as (sign & ip & frac & -> & Hs & Hip & Hf).
  assert (Hf' : frac = [] \/ exists fp, frac = 46 :: fp /\ digits fp)
    by (destruct Hf as [|[_ ?]]; auto).
  destruct (unsigned_decimal_digits ip frac Hip Hf') as (ds & e & Hlit).
  assert (Hlast : head_kept _ is_whitespace (rev (sign ++ ip ++ frac))).
  { rewrite !rev_app_distr.
    destruct Hf' as [->|(fp & -> & Hfp)].
    - cbn [rev app]. now apply digits_rev_head.
    - change (46 :: fp) with ([46] ++ fp). rewrite rev_app_distr.
      rewrite <- !app_assoc. now apply digits_rev_head. }
  assert (Hnum : exists neg,
             Number (Str (sign ++ ip ++ frac))
             = number_of_MV neg (decimal_MV ds e)).
  { cbn [Number]. unfold StringToNumber, trim, strip.
    destruct Hs as [->|[-> _]]; cbn [app] in Hlast |- *.
    - rewrite (strip_fixed _ is_whitespace (ip ++ frac))
        by (try exact Hlast; now apply digits_head).
      destruct Hip as [Hne Hall]. destruct ip as [|c ip]; [congruence|].
      cbn [forallb] in Hall. apply andb_true_iff in Hall.
      destruct Hall as [Hc Hall].
      pose proof Hc as Hc'. unfold is_digit in Hc'.
      apply andb_true_iff in Hc'. destruct Hc' as [H1 H2].
      apply N.leb_le in H1, H2.
      cbn [app] in Hlit |- *.
      assert (Hnd : non_decimal_literal (c :: ip ++ frac) = None).
      { unfold non_decimal_literal. destruct (ip ++ frac) as [|p t] eqn:E;
          [reflexivity|].
        assert (Hp : p <= 57).
        { destruct ip as [|p' ip'].
          - cbn [app] in E. destruct Hf' as [->|(fp & -> & _)];
              [discriminate|]. inversion E. lia.
          - cbn [app] in E. inversion E. subst p'.
            cbn [forallb] in Hall. apply andb_true_iff in Hall.
            destruct Hall as [Hp _]. unfold is_digit in Hp.
            apply andb_true_iff in Hp. destruct Hp as [_ Hp].
            now apply N.leb_le in Hp. }
        replace (p =? 120) with false by (symmetry; apply N.eqb_neq; lia).
        replace (p =? 88) with false by (symmetry; apply N.eqb_neq; lia).
        replace (p =? 111) with false by (symmetry; apply N.eqb_neq; lia).
        replace (p =? 79) with false by (symmetry; apply N.eqb_neq; lia).
        replace (p =? 98) with false by (symmetry; apply N.eqb_neq; lia).
        replace (p =? 66) with false by (symmetry; apply N.eqb_neq; lia).
        cbn. now rewrite andb_false_r. }
      rewrite Hnd.
      replace (c =? 45) with false by (symmetry; apply N.eqb_neq; lia).
      replace (c =? 43) with false by (symmetry; apply N.eqb_neq; lia).
      rewrite Hlit. eauto.
    - match goal with
      | |- context [rev (drop_while is_whitespace
                           (rev (drop_while is_whitespace ?x)))] =>
          rewrite (strip_fixed _ is_whitespace x)
            by (try exact Hlast; reflexivity)
      end.
      match goal with
      | |- context [non_decimal_literal ?x] =>
          assert (Hnd : non_decimal_literal x = None)
            by (unfold non_decimal_literal; destruct (ip ++ frac);
                reflexivity);
          rewrite Hnd
      end.
      change (45 =? 45) with true. cbv iota.
      rewrite Hlit. eauto. }
  destruct Hnum as [neg Hnum]. split; [|eauto].
  rewrite Hnum. apply number_of_MV_not_NaN.
Qed.

Lemma isNumeric_then_Number_witness :
  Number (Str (js "-12.50")) <> NaN.
Proof.
  exact (proj1 (isNumeric_then_Number (js "-12.50")
                  {| allowNegative := true; allowDecimal := true |} eq_refl)).
Defined.

(** ** Searching components *)

Lemma array_filter_app {T} (f : T -> result bool) (a b : list T) :
  array_filter f (a ++ b)
  = bind (array_filter f a)
      (fun ka => bind (array_filter f b) (fun kb => Ok (ka ++ kb))).
Proof.
  induction a as [|x a IH]; cbn [app array_filter bind].
  - destruct (array_filter f b); reflexivity.
  - destruct (f x) as [bx|e]; cbn [bind]; [|reflexivity]. rewrite IH.
    destruct (array_filter f a) as [ka|e]; cbn [bind]; [|reflexivity].
    destruct (array_filter f b) as [kb|e]; cbn [bind]; [|reflexivity].
    now destruct bx.
Qed.

Lemma filter_rows_flat {T} (f : T -> result bool)
    (rows : list (ActionRowBuilder.t T)) :
  forall found,
    filter_rows f rows found
    = bind (array_filter f (flat_map ActionRowBuilder.components rows))
        (fun kept => Ok (found ++ kept)).
Proof.
  induction rows as [|row rows IH]; intros found;
    cbn [filter_rows flat_map array_filter bind].
  - now rewrite app_nil_r.
  - rewrite array_filter_app.
    destruct (array_filter f (ActionRowBuilder.components row)) as [k|e];
      cbn [bind]; [|reflexivity].
    rewrite IH.
    destruct (array_filter f (flat_map ActionRowBuilder.components rows));
      cbn [bind]; [|reflexivity].
    now rewrite app_assoc.
Qed.

(** The rows play no role: filtering them is filtering the list of all
    their components. *)
Lemma filterComponents_flat {T} (components : Rows T)
    (f : T -> result bool) :
  filterComponents components f = array_filter f (all_components components).
Proof.
  destruct components as [row|rows]; cbn [filterComponents all_components].
  - now destruct (array_filter f (ActionRowBuilder.components row)).
  - rewrite filter_rows_flat.
    now destruct (array_filter f (flat_map ActionRowBuilder.components rows)).
Qed.

Lemma array_filter_pure {T} (p : T -> bool) (l : list T) :
  array_filter (fun x => Ok (p x)) l = Ok (filter p l).
Proof.
  induction l as [|x l IH]; [reflexivity|].
  cbn [array_filter bind filter]. rewrite IH. cbn [bind]. reflexivity.
Qed.

Lemma hd_error_filter {T} (p : T -> bool) (l : list T) :
  hd_error (filter p l) = find p l.
Proof.
  induction l as [|x l IH]; [reflexivity|].
  cbn [filter find]. now destruct (p x).
Qed.

(** X14.  With a predicate that does not throw, [findComponent] returns the
    first component, in the order of the rows and within each row, for
    which the predicate holds, and [null] when there is none. *)
Theorem findComponent_first {T} (components : Rows T) (p : T -> bool) :
  findComponent components (fun c => Ok (p c))
  = Ok (find p (all_components components)).
Proof.
  unfold findComponent.
  rewrite filterComponents_flat, array_filter_pure. cbn [bind].
  now rewrite hd_error_filter.
Qed.

Lemma array_filter_throws {T} (f : T -> result bool) (e : error)
    (l : list T) :
  Forall (fun x => f x = Throw e \/ exists b, f x = Ok b) l ->
  Exists (fun x => f x = Throw e) l ->
  array_filter f l = Throw e.
Proof.
  induction 1 as [|x l Hx Hl IH]; intros Hex; [inversion Hex|].
  cbn [array_filter].
  destruct Hx as [Hx|[b Hx]]; rewrite Hx; cbn [bind]; [reflexivity|].
  inversion Hex as [? ? H|? ? H]; subst; [congruence|].
  now rewrite (IH H).
Qed.

Lemma array_filter_all_ok {T} (f : T -> result bool) (p : T -> bool)
    (l : list T) :
  Forall (fun x => f x = Ok (p x)) l ->
  array_filter f l = Ok (filter p l).
Proof.
  induction 1 as [|x l Hx Hl IH]; [reflexivity|].
  cbn [array_filter filter]. rewrite Hx, IH. reflexivity.
Qed.

(** X15.  [getComponentByCustomId] tests every component of every row.  When
    one of them, before or after the component looked for, has no
    [custom_id] key, the call throws; when all have the key, the call
    returns the first component whose [custom_id] is the given string, and
    [null] when there is none. *)
Theorem getComponentByCustomId_result
    (components : Rows ComponentBuilder) (id : jsstring) :
  (Exists (fun c => not_among (js "custom_id") (Object_keys (data c)) = true)
     (all_components components) ->
   getComponentByCustomId components id = Throw custom_id_not_found)
  /\ (Forall
        (fun c => not_among (js "custom_id") (Object_keys (data c)) = false)
        (all_components components) ->
      getComponentByCustomId components id
      = Ok (find
              (fun c =>
                 loosely_equals (property (data c) (js "custom_id")) id)
              (all_components components))).
Proof.
  unfold getComponentByCustomId, findComponent.
  rewrite filterComponents_flat. split.
  - intros Hex. rewrite (array_filter_throws _ custom_id_not_found);
      [reflexivity | | ].
    + apply Forall_forall. intros c _. unfold has_custom_id.
      destruct (not_among _ _); eauto.
    + apply Exists_exists in Hex. destruct Hex as (c & Hin & Hc).
      apply Exists_exists. exists c. split; [exact Hin|].
      unfold has_custom_id. now rewrite Hc.
  - intros Hall.
    rewrite (array_filter_all_ok _
               (fun c => loosely_equals (property (data c) (js "custom_id")) id)).
    + cbn [bind]. now rewrite hd_error_filter.
    + apply Forall_forall. intros c Hin.
      unfold has_custom_id.
      now rewrite (proj1 (Forall_forall _ _) Hall c Hin).
Qed.

(** ** [splitMessage] *)

Lemma length_le_not_gt (n : nat) (x : number) :
  length_le n x = true -> length_gt n x = false.
Proof.
  destruct x as [|[|]| |q]; cbn [length_le length_gt]; try discriminate;
    try reflexivity; intros ->; reflexivity.
Qed.

Lemma truthy_nonempty (s : jsstring) : truthy s = true <-> s <> [].
Proof. destruct s; cbn; split; congruence. Qed.

Lemma jsstring_eqb_nil (s : jsstring) : jsstring_eqb s [] = negb (truthy s).
Proof. now destruct s. Qed.

(** One turn of the loop without [prepend] and [append]. *)
Lemma split_loop_step (maxLength : number) (char chunk msg : jsstring)
    (rest messages : list jsstring) :
  split_loop maxLength char [] [] (chunk :: rest) messages msg
  = if truthy msg
    then
      if length_gt (length (msg ++ char ++ chunk)) maxLength
      then split_loop maxLength char [] [] rest (messages ++ [msg]) chunk
      else split_loop maxLength char [] [] rest messages
             (msg ++ char ++ chunk)
    else split_loop maxLength char [] [] rest messages chunk.
Proof.
  cbn [split_loop]. rewrite !app_nil_r.
  destruct msg as [|c msg]; [reflexivity|]. cbn [truthy andb].
  destruct (length_gt _ _); reflexivity.
Qed.

Lemma split_loop_bound (maxLength : number) (char : jsstring)
    (chunks : list jsstring) :
  Forall (fun c => length_gt (length c) maxLength = false) chunks ->
  forall messages msg,
    Forall (fun m => length_gt (length m) maxLength = false) messages ->
    (msg = [] \/ length_gt (length msg) maxLength = false) ->
    Forall (fun m => length_gt (length m) maxLength = false)
      (filter truthy
         (fst (split_loop maxLength char [] [] chunks messages msg)
          ++ [snd (split_loop maxLength char [] [] chunks messages msg)])).
Proof.
  induction 1 as [|chunk rest Hc Hrest IH]; intros messages msg Hm Hmsg.
  - cbn [split_loop fst snd]. rewrite filter_app. apply Forall_app. split.
    + apply Forall_forall. intros m Hin. apply filter_In in Hin.
      now apply (proj1 (Forall_forall _ _) Hm).
    + destruct msg as [|c msg]; cbn; [constructor|].
      constructor; [|constructor]. destruct Hmsg; [discriminate | assumption].
  - rewrite split_loop_step.
    destruct (truthy msg) eqn:Et.
    + destruct (length_gt (length (msg ++ char ++ chunk)) maxLength) eqn:Eg.
      * apply IH; [|now right]. apply Forall_app. split; [exact Hm|].
        constructor; [|constructor].
        destruct Hmsg as [->|H]; [discriminate | exact H].
      * apply IH; [exact Hm | now right].
    + apply IH; [exact Hm | now right].
Qed.

(** X16.  Without [prepend] and [append], no message [splitMessage] returns is
    longer than [maxLength], and when the text itself is longer than
    [maxLength] no returned message is empty. *)
Theorem splitMessage_bound (text : jsstring) (options : SplitOptions)
    (messages : list jsstring) :
  FetchProxy.nullish (prepend options) [] = [] ->
  FetchProxy.nullish (append options) [] = [] ->
  splitMessage text options = Ok messages ->
  let limit := FetchProxy.nullish (maxLength options) (Num 2000%Q) in
  Forall (fun m => length_gt (length m) limit = false) messages
  /\ (length_le (length text) limit = false ->
      Forall (fun m => m <> []) messages).
Proof.
  intros Hp Ha. unfold splitMessage. rewrite Hp, Ha.
  set (limit := FetchProxy.nullish (maxLength options) (Num 2000%Q)).
  set (sep := FetchProxy.nullish (char options) [LF]).
  destruct (length_le (length text) limit) eqn:Ele.
  - intros H. inversion H. subst messages. cbn zeta. split.
    + constructor; [now apply length_le_not_gt | constructor].
    + discriminate.
  - destruct (existsb _ _) eqn:Eex; [discriminate|].
    destruct (split_loop limit sep [] [] (split_string sep text) [] [])
      as [ms msg] eqn:El.
    intros H. inversion H. subst messages. cbn zeta. split.
    + assert (Hchunks : Forall (fun c => length_gt (length c) limit = false)
                          (split_string sep text)).
      { apply Forall_forall. intros c Hin.
        destruct (length_gt (length c) limit) eqn:Eg; [|reflexivity].
        assert (existsb (fun elem => length_gt (length elem) limit)
                  (split_string sep text) = true)
          by (apply existsb_exists; eauto).
        congruence. }
      pose proof (split_loop_bound limit sep (split_string sep text) Hchunks
                    [] [] (Forall_nil _) (or_introl eq_refl)) as Hb.
      unfold jsstring, code_unit in *. rewrite El in Hb. exact Hb.
    + intros _. apply Forall_forall. intros m Hin.
      apply filter_In in Hin. destruct Hin as [_ Ht].
      now apply truthy_nonempty.
Qed.

Lemma splitMessage_bound_witness :
  let options :=
    {| maxLength := Some (Num 5%Q); char := Some [SP];
       prepend := None; append := None |} in
  splitMessage (js "aa bb cc dd") options = Ok [js "aa bb"; js "cc dd"]
  /\ Forall (fun m => length_gt (length m) (Num 5%Q) = false)
       [js "aa bb"; js "cc dd"].
Proof.
  intros options. split; [reflexivity|].
  exact (proj1 (splitMessage_bound (js "aa bb cc dd") options
                  [js "aa bb"; js "cc dd"] eq_refl eq_refl eq_refl)).
Defined.

Lemma is_prefix_spec (p s : jsstring) :
  is_prefix p s = true -> exists s', s = p ++ s'.
Proof.
  revert s. induction p as [|a p IH]; intros s H.
  - now exists s.
  - destruct s as [|b s]; [discriminate|]. cbn [is_prefix] in H.
    apply andb_true_iff in H. destruct H as [Hab Hp].
    apply N.eqb_eq in Hab. subst b.
    destruct (IH s Hp) as [s' ->]. now exists s'.
Qed.

Lemma join_split_go_sep (c0 : code_unit) (sep' : jsstring) (n : nat) :
  forall s cur, (length s <= n)%nat ->
  join (c0 :: sep') (split_go (sep_len (c0 :: sep')) 0 cur s) = rev cur ++ s.
Proof.
  induction n as [|n IH]; intros s cur Hn.
  - destruct s; [|simpl in Hn; lia]. cbn [split_go join]. now rewrite app_nil_r.
  - destruct s as [|c t].
    + cbn [split_go join]. now rewrite app_nil_r.
    + cbn [split_go]. unfold sep_len at 1.
      destruct (is_prefix (c0 :: sep') (c :: t)) eqn:Ep.
      * destruct (is_prefix_spec _ _ Ep) as [s' Es].
        cbn [app] in Es. inversion Es. subst c t. cbn [length].
        rewrite split_go_skip.
        rewrite join_cons by apply split_go_nonempty.
        rewrite IH.
        -- cbn [rev app]. reflexivity.
        -- simpl in Hn. rewrite length_app in Hn. lia.
      * rewrite IH by (simpl in Hn; lia).
        cbn [rev]. now rewrite <- app_assoc.
Qed.

(** Joining with the separator what was split at it restores the text. *)
Lemma join_split_string (sep s : jsstring) :
  join sep (split_string sep s) = s.
Proof.
  destruct sep as [|c0 sep']; cbn [split_string].
  - induction s as [|c t IH]; [reflexivity|].
    cbn [map]. destruct t as [|d t]; [reflexivity|].
    rewrite join_cons by (cbn [map]; discriminate).
    now rewrite IH.
  - apply (join_split_go_sep c0 sep' (length s) s []). lia.
Qed.

Lemma join_snoc (sep chunk : jsstring) (done : list jsstring) :
  join sep (done ++ [chunk])
  = match done with
    | [] => chunk
    | _ :: _ => join sep done ++ sep ++ chunk
    end.
Proof.
  induction done as [|d done IH]; [reflexivity|].
  destruct done as [|d' done].
  - reflexivity.
  - change (join sep ((d :: d' :: done) ++ [chunk]))
      with (d ++ sep ++ join sep ((d' :: done) ++ [chunk])).
    rewrite IH.
    change (join sep (d :: d' :: done))
      with (d ++ sep ++ join sep (d' :: done)).
    now rewrite <- !app_assoc.
Qed.

Lemma split_loop_pieces (maxLength : number) (char : jsstring)
    (chunks : list jsstring) :
  forall done messages msg,
    Forall (fun m => exists a b, join char done = a ++ m ++ b) messages ->
    (exists a, join char done = a ++ msg) ->
    Forall (fun m => exists a b, join char (done ++ chunks) = a ++ m ++ b)
      (fst (split_loop maxLength char [] [] chunks messages msg)
       ++ [snd (split_loop maxLength char [] [] chunks messages msg)]).
Proof.
  induction chunks as [|chunk rest IH]; intros done messages msg Hm Hmsg.
  - cbn [split_loop fst snd]. rewrite app_nil_r. apply Forall_app.
    split; [exact Hm|]. constructor; [|constructor].
    destruct Hmsg as [a Ha]. exists a, []. now rewrite app_nil_r.
  - assert (Hext : exists x, join char (done ++ [chunk])
                             = join char done ++ x ++ chunk).
    { rewrite join_snoc. destruct done; [now exists [] | now exists char]. }
    destruct Hext as [x Hx].
    assert (Hm' : Forall (fun m => exists a b,
                            join char (done ++ [chunk]) = a ++ m ++ b)
                    messages).
    { apply Forall_forall. intros m Hin.
      destruct (proj1 (Forall_forall _ _) Hm m Hin) as (a & b & Hab).
      exists a, (b ++ x ++ chunk). rewrite Hx, Hab.
      now rewrite <- !app_assoc. }
    assert (Hchunk : exists a, join char (done ++ [chunk]) = a ++ chunk).
    { exists (join char done ++ x). now rewrite Hx, <- app_assoc. }
    replace (done ++ chunk :: rest) with ((done ++ [chunk]) ++ rest)
      by (now rewrite <- app_assoc).
    rewrite split_loop_step.
    destruct (truthy msg) eqn:Et; [|now apply IH].
    destruct (length_gt _ _).
    + apply IH; [|exact Hchunk]. apply Forall_app. split; [exact Hm'|].
      constructor; [|constructor]. destruct Hmsg as [a Ha].
      exists a, (x ++ chunk). now rewrite Hx, Ha, <- !app_assoc.
    + apply IH; [exact Hm'|]. destruct Hmsg as [a Ha].
      exists a. rewrite join_snoc. destruct done as [|d done].
      * cbn [join] in Ha. destruct a, msg; discriminate.
      * now rewrite Ha, <- !app_assoc.
Qed.

(** X17.  Without [prepend] and [append], every message [splitMessage] returns
    is a piece of the text: some code units of the text, then the message,
    then the rest of the text. *)
Theorem splitMessage_pieces (text : jsstring) (options : SplitOptions)
    (messages : list jsstring) :
  FetchProxy.nullish (prepend options) [] = [] ->
  FetchProxy.nullish (append options) [] = [] ->
  splitMessage text options = Ok messages ->
  Forall (fun m => exists a b, text = a ++ m ++ b) messages.
Proof.
  intros Hp Ha. unfold splitMessage. rewrite Hp, Ha.
  set (limit := FetchProxy.nullish (maxLength options) (Num 2000%Q)).
  set (sep := FetchProxy.nullish (char options) [LF]).
  destruct (length_le (length text) limit).
  - intros H. inversion H. constructor; [|constructor].
    exists [], []. now rewrite app_nil_r.
  - destruct (existsb _ _); [discriminate|].
    destruct (split_loop limit sep [] [] (split_string sep text) [] [])
      as [ms msg] eqn:El.
    intros H. inversion H. subst messages.
    pose proof (split_loop_pieces limit sep (split_string sep text) [] [] []
                  (Forall_nil _) (ex_intro _ [] eq_refl)) as Hb.
    cbn [app] in Hb. rewrite join_split_string in Hb.
    unfold jsstring, code_unit in *. rewrite El in Hb. cbn [fst snd] in Hb.
    apply Forall_forall. intros m Hin. apply filter_In in Hin.
    now apply (proj1 (Forall_forall _ _) Hb).
Qed.

Lemma splitMessage_pieces_witness :
  Forall (fun m => exists a b, js "aa bb cc dd" = a ++ m ++ b)
    [js "aa bb"; js "cc dd"].
Proof.
  exact (splitMessage_pieces (js "aa bb cc dd")
           {| maxLength := Some (Num 5%Q); char := Some [SP];
              prepend := None; append := None |}
           [js "aa bb"; js "cc dd"] eq_refl eq_refl eq_refl).
Defined.


(** ** [commaNumber] *)

Lemma digits_fuel_digits (fuel : nat) :
  forall n acc,
    forallb is_digit acc = true ->
    forallb is_digit (digits_fuel fuel n acc) = true.
Proof.
  induction fuel as [|f IH]; intros n acc Hacc; [exact Hacc|].
  assert (Hd : forallb is_digit ((48 + n mod 10) :: acc) = true).
  { cbn [forallb]. rewrite Hacc, andb_true_r. unfold is_digit.
    pose proof (N.mod_lt n 10 ltac:(discriminate)) as Hlt.
    remember (n mod 10) as d.
    apply andb_true_iff. split; apply N.leb_le; lia. }
  cbn [digits_fuel]. destruct (n / 10 =? 0); [exact Hd | now apply IH].
Qed.

Lemma digits_fuel_nonempty (fuel : nat) :
  forall n acc, acc <> [] -> digits_fuel fuel n acc <> [].
Proof.
  induction fuel as [|f IH]; intros n acc Hacc; [exact Hacc|].
  cbn [digits_fuel]. destruct (n / 10 =? 0); [discriminate|].
  apply IH. discriminate.
Qed.

Lemma digits_of_N_digits (n : N) : forallb is_digit (digits_of_N n) = true.
Proof. now apply digits_fuel_digits. Qed.

Lemma digits_of_N_nonempty (n : N) : digits_of_N n <> [].
Proof.
  unfold digits_of_N. cbn [digits_fuel].
  destruct (n / 10 =? 0); [discriminate|].
  apply digits_fuel_nonempty. discriminate.
Qed.

Lemma digit_plain (c : code_unit) : is_digit c = true -> plain c = true.
Proof.
  unfold is_digit, plain. intros H. apply andb_true_iff in H.
  destruct H as [H1 H2]. apply N.leb_le in H1. apply N.leb_le in H2.
  apply andb_true_iff. split; apply negb_true_iff, N.eqb_neq; lia.
Qed.

Lemma digits_plain (s : jsstring) :
  forallb is_digit s = true -> forallb plain s = true.
Proof.
  rewrite !forallb_forall. intros H c Hc. now apply digit_plain, H.
Qed.

Lemma zeros_plain (n : Z) : forallb plain (zeros n) = true.
Proof.
  unfold zeros. induction (Z.to_nat n) as [|k IH]; [reflexivity|].
  cbn [repeat forallb]. now rewrite IH.
Qed.

Lemma firstn_plain (n : nat) (s : jsstring) :
  forallb plain s = true -> forallb plain (firstn n s) = true.
Proof.
  rewrite !forallb_forall. intros H c Hc. apply H.
  rewrite <- (firstn_skipn n s). apply in_or_app. now left.
Qed.

Lemma skipn_plain (n : nat) (s : jsstring) :
  forallb plain s = true -> forallb plain (skipn n s) = true.
Proof.
  rewrite !forallb_forall. intros H c Hc. apply H.
  rewrite <- (firstn_skipn n s). apply in_or_app. now right.
Qed.

Lemma format_decimal_text (ds : jsstring) (n : Z) :
  forallb is_digit ds = true -> ds <> [] ->
  decimal_text (format_decimal ds n).
Proof.
  intros Hd Hne. pose proof (digits_plain _ Hd) as Hp.
  assert (He : forall c s,
             forallb plain
               ([101; if (c <? 0)%Z then 45 else 43] ++ digits_of_N s)
             = true).
  { intros c s. rewrite forallb_app. apply andb_true_iff. split.
    - now destruct (c <? 0)%Z.
    - apply digits_plain, digits_of_N_digits. }
  unfold format_decimal.
  destruct ((-5 <=? n) && (n <=? 21))%Z.
  - destruct (Z.of_nat (length ds) <=? n)%Z eqn:Hk.
    + left. rewrite forallb_app, Hp. apply zeros_plain.
    + destruct (0 <? n)%Z eqn:Hn.
      * right. exists (firstn (Z.to_nat n) ds), (skipn (Z.to_nat n) ds).
        split; [reflexivity|]. split; [now apply firstn_plain|].
        split; [now apply skipn_plain|].
        intros E. apply (f_equal (@length _)) in E.
        rewrite length_skipn in E. cbn [length] in E.
        apply Z.leb_gt in Hk. apply Z.ltb_lt in Hn. lia.
      * right. exists [48], (zeros (- n) ++ ds).
        split; [reflexivity|]. split; [reflexivity|].
        split; [rewrite forallb_app, Hp; now rewrite zeros_plain|].
        intros E. apply app_eq_nil in E. now destruct E.
  - destruct (Z.of_nat (length ds) =? 1)%Z.
    + left. rewrite forallb_app, Hp. apply He.
    + right. exists (firstn 1 ds), (skipn 1 ds ++
        [101; if (n - 1 <? 0)%Z then 45 else 43]
        ++ digits_of_N (Z.to_N (Z.abs (n - 1)))).
      split; [reflexivity|]. split; [now apply firstn_plain|].
      split.
      * rewrite forallb_app, He, andb_true_r. now apply skipn_plain.
      * intros E. apply app_eq_nil in E. destruct E as [_ E]. discriminate.
Qed.

Lemma positive_toString_text (q : Q) : decimal_text (positive_toString q).
Proof.
  unfold positive_toString.
  destruct (shortest_from 17 q (Qlog10_floor q) 1) as [[s n]|].
  - apply format_decimal_text;
      [apply digits_of_N_digits | apply digits_of_N_nonempty].
  - now left.
Qed.

Lemma decimal_text_minus (s : jsstring) :
  decimal_text s -> decimal_text (45 :: s).
Proof.
  intros [H | (pre & post & E & Hpre & Hpost & Hne)].
  - left. cbn [forallb]. now rewrite H.
  - right. exists (45 :: pre), post. subst s.
    split; [reflexivity|]. split; [cbn [forallb]; now rewrite Hpre|].
    now split.
Qed.

Lemma Number_toString_text (x : number) : decimal_text (Number_toString x).
Proof.
  destruct x as [| [|] | | q]; try (now left).
  cbn [Number_toString]. destruct (Qcompare q 0).
  - now left.
  - apply decimal_text_minus, positive_toString_text.
  - apply positive_toString_text.
Qed.

Lemma plain_lacks (c : code_unit) (s : jsstring) :
  c = 44 \/ c = 46 -> forallb plain s = true -> lacks c s = true.
Proof.
  intros Hc H. unfold lacks. rewrite forallb_forall in *.
  intros x Hx. specialize (H x Hx). unfold plain in H.
  apply andb_true_iff in H. destruct H as [H1 H2].
  now destruct Hc; subst c.
Qed.

Lemma lacks_unit_no_match (c : code_unit) (h R : jsstring) :
  lacks c h = true ->
  no_match_before (sep_len [c]) (length h) (h ++ R) = true.
Proof.
  intros H. apply no_match_before_spec.
  induction h as [|x h IH]; intros i Hi; [simpl in Hi; lia|].
  cbn [lacks forallb] in H. apply andb_true_iff in H. destruct H as [Hx Hh].
  destruct i as [|i].
  - cbn [skipn app]. unfold sep_len. cbn [is_prefix].
    apply negb_true_iff in Hx. rewrite N.eqb_sym in Hx. now rewrite Hx.
  - cbn [skipn app]. apply IH; [exact Hh | simpl in Hi; lia].
Qed.

Lemma split_unit_lacks (c : code_unit) (h : jsstring) :
  lacks c h = true -> split_string [c] h = [h].
Proof.
  intros H. cbn [split_string]. apply split_single.
  pose proof (lacks_unit_no_match c h [] H) as Hno.
  rewrite app_nil_r in Hno. now apply no_match_before_spec.
Qed.

Lemma split_unit_two (c : code_unit) (h t : jsstring) :
  lacks c h = true -> lacks c t = true ->
  split_string [c] (h ++ c :: t) = [h; t].
Proof.
  intros Hh Ht. cbn [split_string].
  change (h ++ c :: t) with (h ++ [c] ++ t).
  rewrite split_first.
  - f_equal. now apply (split_unit_lacks c).
  - now apply lacks_unit_no_match.
  - simpl. lia.
  - unfold sep_len. cbn [app is_prefix]. now rewrite N.eqb_refl.
Qed.

Lemma without_commas_app (s t : jsstring) :
  without_commas (s ++ t) = without_commas s ++ without_commas t.
Proof. apply filter_app. Qed.

Lemma without_commas_lacks (s : jsstring) :
  lacks 44 s = true -> without_commas s = s.
Proof.
  unfold lacks, without_commas. induction s as [|c s IH]; [reflexivity|].
  cbn [forallb filter]. intros H. apply andb_true_iff in H.
  destruct H as [Hc Hs]. rewrite Hc. now rewrite IH.
Qed.

Lemma firstn_succ_nth (pre : jsstring) (i : nat) (c : code_unit) :
  nth_error pre i = Some c -> firstn (S i) pre = firstn i pre ++ [c].
Proof.
  revert i. induction pre as [|x pre IH]; intros [|i] H;
    try discriminate.
  - cbn in H. now inversion H.
  - cbn [nth_error] in H. rewrite !firstn_cons, (IH i H). reflexivity.
Qed.

Lemma lacks_nth (c x : code_unit) (s : jsstring) (i : nat) :
  lacks c s = true -> nth_error s i = Some x -> (x =? c) = false.
Proof.
  intros H Hx. apply nth_error_In in Hx. unfold lacks in H.
  rewrite forallb_forall in H. now apply negb_true_iff, H.
Qed.

(** Without its commas, what the loop returns is what it has read, before
    what it was given. *)
Lemma comma_loop_without_commas (pre : jsstring) :
  lacks 44 pre = true ->
  forall i r final,
    (i <= length pre)%nat ->
    without_commas (comma_loop pre i r final)
    = firstn i pre ++ without_commas final.
Proof.
  intros Hpre. induction i as [|i IH]; intros r final Hi; [reflexivity|].
  cbn [comma_loop].
  destruct (nth_error pre i) as [c|] eqn:Hc.
  2:{ apply nth_error_None in Hc. lia. }
  rewrite IH by lia. pose proof (firstn_succ_nth _ _ _ Hc) as Hf.
  unfold jsstring, code_unit in *. rewrite Hf.
  rewrite <- app_assoc. f_equal.
  cbn [element_text app]. unfold without_commas at 1. cbn [filter].
  rewrite (lacks_nth _ _ _ _ Hpre Hc). cbn [negb app]. f_equal.
  destruct ((0 <? r)%nat && (r mod 3 =? 0)%nat && element_is_digit (Some c));
    reflexivity.
Qed.

(** X18.  [commaNumber] never throws ("Numbers are broken" is not reached),
    and it only adds commas: without them, the result is [String(number)]. *)
Theorem commaNumber_only_adds_commas (x : number) :
  exists out,
    commaNumber x = Ok out /\ without_commas out = Number_toString x.
Proof.
  unfold commaNumber.
  destruct (Number_toString_text x)
    as [H | (pre & post & E & Hpre & Hpost & Hne)].
  - rewrite (split_unit_lacks 46) by (apply plain_lacks; auto).
    cbn [nth_error]. eexists. split; [reflexivity|].
    rewrite comma_loop_without_commas by (try apply plain_lacks; auto).
    cbn. rewrite firstn_all. apply app_nil_r.
  - rewrite E.
    rewrite (split_unit_two 46) by (apply plain_lacks; auto).
    cbn [nth_error]. eexists. split; [reflexivity|].
    destruct post as [|p post]; [congruence|].
    cbn [length Nat.ltb Nat.leb].
    rewrite without_commas_app.
    rewrite comma_loop_without_commas by (try apply plain_lacks; auto).
    change (without_commas []) with (@nil N).
    rewrite firstn_all, app_nil_r. f_equal.
    change ([46] ++ p :: post) with (46 :: p :: post).
    change (without_commas (46 :: p :: post))
      with (46 :: without_commas (p :: post)).
    f_equal. apply without_commas_lacks. apply plain_lacks; auto.
Qed.


Lemma join_comma_extend (c : code_unit) (g : jsstring)
    (rest : list jsstring) :
  c :: join [44] (g :: rest) = join [44] ((c :: g) :: rest).
Proof. destruct rest; reflexivity. Qed.

Lemma nth_error_middle (a b : jsstring) (c : code_unit) :
  nth_error (a ++ c :: b) (length a) = Some c.
Proof. induction a as [|x a IH]; [reflexivity | exact IH]. Qed.

(** Whether the loop writes a comma before a digit, from the groups it has
    written. *)
Lemma comma_condition (r : nat) (g : jsstring) (rest : list jsstring) :
  grouped r (g :: rest) ->
  ((0 <? r)%nat && (r mod 3 =? 0)%nat) = (length g =? 3)%nat.
Proof.
  intros ((a & Ha) & Hl & _). subst r.
  rewrite Nat.Div0.mod_add.
  destruct (length g) as [|[|[|[|n]]]]; try lia; reflexivity.
Qed.

(** The loop over digits writes them in groups of three, counted from the
    right. *)
Lemma comma_loop_groups (pre sign : jsstring) :
  forall front back gs,
    pre = sign ++ front ++ back ->
    forallb is_digit front = true ->
    concat gs = back -> grouped (length back) gs ->
    exists gs',
      comma_loop pre (length (sign ++ front)) (length back) (join [44] gs)
      = comma_loop pre (length sign) (length (front ++ back))
          (join [44] gs')
      /\ concat gs' = front ++ back
      /\ grouped (length (front ++ back)) gs'.
Proof.
  intros front. induction front as [|c front IH] using rev_ind;
    intros back gs Hpre Hd Hc Hg.
  - exists gs. rewrite app_nil_r. cbn [app]. auto.
  - rewrite forallb_app in Hd. apply andb_true_iff in Hd.
    destruct Hd as [Hf Hcd]. cbn [forallb] in Hcd.
    rewrite andb_true_r in Hcd.
    rewrite <- app_assoc in Hpre. cbn [app] in Hpre.
    assert (Hlen : length (sign ++ front ++ [c])
                   = S (length (sign ++ front))).
    { rewrite !length_app. simpl. lia. }
    assert (Hn : nth_error pre (length (sign ++ front)) = Some c).
    { rewrite Hpre, app_assoc. apply nth_error_middle. }
    rewrite <- (app_assoc front [c] back). cbn [app].
    rewrite Hlen. cbn [comma_loop]. rewrite Hn.
    cbn [element_is_digit element_text]. rewrite Hcd, andb_true_r.
    destruct gs as [|g rest].
    + cbn [grouped] in Hg. cbn [concat] in Hc. subst back.
      cbn [length Nat.ltb Nat.leb andb join app].
      apply (IH [c] [[c]]); try assumption; try reflexivity.
      cbn [grouped length]. repeat split; try lia; [|constructor].
      exists 0%nat. reflexivity.
    + rewrite (comma_condition _ _ _ Hg).
      destruct Hg as ((a & Ha) & Hl & Hr).
      destruct (length g =? 3)%nat eqn:H3.
      * apply Nat.eqb_eq in H3.
        change ([c] ++ 44 :: join [44] (g :: rest))
          with (join [44] ([c] :: g :: rest)).
        apply (IH (c :: back) ([c] :: g :: rest)); try assumption.
        -- cbn [concat app]. cbn [concat] in Hc. now rewrite Hc.
        -- cbn [grouped length]. repeat split; try lia.
           ++ exists (S a). lia.
           ++ now constructor.
      * apply Nat.eqb_neq in H3.
        change ([c] ++ join [44] (g :: rest))
          with (c :: join [44] (g :: rest)).
        rewrite join_comma_extend.
        apply (IH (c :: back) ((c :: g) :: rest)); try assumption.
        -- cbn [concat app]. cbn [concat] in Hc. now rewrite Hc.
        -- cbn [grouped length]. repeat split; try lia; try assumption.
           exists a. lia.
Qed.

(** The loop copies a sign that stands before the digits. *)
Lemma comma_loop_sign (pre sign t : jsstring) (r : nat) (final : jsstring) :
  sign = [] \/ sign = [45] -> pre = sign ++ t ->
  comma_loop pre (length sign) r final = sign ++ final.
Proof.
  intros [-> | ->] ->; [reflexivity|].
  cbn [length comma_loop app nth_error element_is_digit element_text].
  change (is_digit 45) with false. now rewrite andb_false_r.
Qed.

Lemma grouped_groups (r : nat) (gs : list jsstring) :
  grouped r gs -> groups_of_three gs.
Proof. destruct gs as [|g rest]; [easy|]. intros (_ & H). exact H. Qed.

Lemma comma_loop_number (sign ds : jsstring) :
  sign = [] \/ sign = [45] -> forallb is_digit ds = true ->
  exists gs,
    comma_loop (sign ++ ds) (length (sign ++ ds)) 0 []
    = sign ++ join [44] gs
    /\ concat gs = ds /\ groups_of_three gs.
Proof.
  intros Hs Hd.
  destruct (comma_loop_groups (sign ++ ds) sign ds [] [])
    as (gs & E & Hc & Hg); try reflexivity; try assumption.
  - now rewrite app_nil_r.
  - rewrite app_nil_r in Hc. exists gs.
    cbn [length join] in E. rewrite E.
    split; [|split; [exact Hc | exact (grouped_groups _ _ Hg)]].
    now apply (comma_loop_sign _ _ ds).
Qed.

Lemma sign_digits_lack_dot (sign ds : jsstring) :
  sign = [] \/ sign = [45] -> forallb is_digit ds = true ->
  lacks 46 (sign ++ ds) = true.
Proof.
  intros Hs Hd. unfold lacks. rewrite forallb_app.
  apply andb_true_iff. split; [now destruct Hs; subst sign|].
  apply (plain_lacks 46); [auto | now apply digits_plain].
Qed.

(** X19.  When [String(number)] is an optional minus sign, digits, and
    possibly a dot with something after it, [commaNumber] returns the sign,
    the digits in groups separated by commas, and what follows the digits
    unchanged; all groups have three digits but the first, which has one to
    three. *)
Theorem commaNumber_groups (x : number) (sign ds rest : jsstring) :
  Number_toString x = sign ++ ds ++ rest ->
  sign = [] \/ sign = [45] ->
  forallb is_digit ds = true ->
  rest = [] \/ (exists p, rest = 46 :: p /\ p <> [] /\ lacks 46 p = true) ->
  exists gs,
    commaNumber x = Ok (sign ++ join [44] gs ++ rest)
    /\ concat gs = ds /\ groups_of_three gs.
Proof.
  intros E Hs Hd Hrest.
  destruct (comma_loop_number sign ds Hs Hd) as (gs & El & Hc & Hg).
  pose proof (sign_digits_lack_dot sign ds Hs Hd) as Hdot.
  exists gs. split; [|now split].
  unfold commaNumber. rewrite E, app_assoc.
  destruct Hrest as [-> | (p & -> & Hne & Hp)].
  - rewrite app_nil_r, (split_unit_lacks 46) by exact Hdot.
    cbn [nth_error]. now rewrite El, app_nil_r.
  - rewrite (split_unit_two 46) by assumption.
    cbn [nth_error]. rewrite El.
    destruct p as [|c p]; [congruence|].
    cbn [length Nat.ltb Nat.leb]. now rewrite <- app_assoc.
Qed.

Lemma commaNumber_groups_witness :
  let x := Num (- (2469135 # 2))%Q in
  exists gs,
    commaNumber x = Ok (js "-" ++ join [44] gs ++ js ".5")
    /\ concat gs = js "1234567" /\ groups_of_three gs.
Proof.
  apply (commaNumber_groups (Num (- (2469135 # 2))%Q)
           (js "-") (js "1234567") (js ".5")).
  - vm_compute. reflexivity.
  - right. reflexivity.
  - reflexivity.
  - right. exists (js "5"). repeat split. discriminate.
Defined.


(** ** [msToHuman] and [msToShort] *)

Lemma round_half_even_nonneg (q : Q) :
  (0 <= q)%Q -> (0 <= round_half_even q)%Z.
Proof.
  intros H. unfold round_half_even.
  pose proof (Qfloor_resp_le _ _ H) as Hf. change (Qfloor 0) with 0%Z in Hf.
  destruct (Qcompare _ _); [destruct (Z.even _)|..]; lia.
Qed.

Lemma round64_nonneg (q v : Q) :
  (0 <= q)%Q -> round64 q = Some v -> (0 <= v)%Q.
Proof.
  unfold round64. cbv zeta. intros Hq.
  set (ulp := Qpow2 (_ - 52)).
  assert (Hulp : (0 <= ulp)%Q).
  { apply Qpower_0_le. unfold Qle. simpl. lia. }
  destruct (Qle_bool _ _); [discriminate|].
  intros E.
  assert (Hv : (v == inject_Z (round_half_even (q / ulp)) * ulp)%Q).
  { assert (Hs : Qred (inject_Z (round_half_even (q / ulp)) * ulp) = v)
      by congruence.
    rewrite <- Hs. apply Qred_correct. }
  rewrite Hv.
  apply Qmult_le_0_compat; [|exact Hulp].
  change 0%Q with (inject_Z 0). rewrite <- Zle_Qle.
  apply round_half_even_nonneg.
  apply Qmult_le_0_compat; [exact Hq | now apply Qinv_le_0_compat].
Qed.

Lemma not_positive_Num (q : Q) : not_positive (Num q) = Qle_bool q 0.
Proof. unfold not_positive. cbn. apply negb_involutive. Qed.

Lemma number_of_MV_not_positive (neg : bool) (mv : Q) :
  (0 <= mv)%Q -> neg = true \/ (mv == 0)%Q ->
  not_positive (number_of_MV neg mv) = true.
Proof.
  intros Hmv Hn. unfold number_of_MV.
  destruct (Qeq_bool mv 0) eqn:E0; [now destruct neg|].
  destruct Hn as [-> | Hz]; [|apply Qeq_eq_bool in Hz; congruence].
  destruct (round64 mv) as [v|] eqn:Er; [|reflexivity].
  destruct (Qeq_bool v 0); [reflexivity|].
  rewrite not_positive_Num. apply Qle_bool_iff. rewrite Qred_correct.
  pose proof (round64_nonneg _ _ Hmv Er). lra.
Qed.

Lemma magnitude_nonneg (x : number) : (0 <= magnitude x)%Q.
Proof.
  destruct x as [| | |q]; try apply Qle_refl.
  cbn [magnitude]. destruct (Qle_bool 0 q) eqn:E.
  - now apply Qle_bool_iff.
  - assert (~ (0 <= q)%Q) by (rewrite <- Qle_bool_iff; congruence). lra.
Qed.

(** A Number that is not above zero and not below it is zero. *)
Lemma not_positive_magnitude (q : Q) :
  not_positive (Num q) = true ->
  negative (Num q) = true \/ (magnitude (Num q) == 0)%Q.
Proof.
  rewrite not_positive_Num. intros H. apply Qle_bool_iff in H.
  cbn [negative magnitude]. destruct (Qle_bool 0 q) eqn:E.
  - right. apply Qle_bool_iff in E. lra.
  - now left.
Qed.

Lemma literal_facts (c : Z) :
  (0 < c)%Z ->
  negative (number_literal c) = false
  /\ magnitude (number_literal c) = inject_Z c
  /\ Qeq_bool (inject_Z c) 0 = false
  /\ (0 < inject_Z c)%Q.
Proof.
  intros Hc.
  assert (Hp : (0 < inject_Z c)%Q).
  { change 0%Q with (inject_Z 0). now rewrite <- Zlt_Qlt. }
  assert (Hle : Qle_bool 0 (inject_Z c) = true) by (apply Qle_bool_iff; lra).
  unfold number_literal. cbn [negative magnitude]. rewrite Hle.
  repeat split; try assumption.
  destruct (Qeq_bool (inject_Z c) 0) eqn:E; [|reflexivity].
  apply Qeq_bool_eq in E. lra.
Qed.

Lemma divide_not_positive (x : number) (c : Z) :
  (0 < c)%Z -> not_positive x = true ->
  not_positive (Number_divide x (number_literal c)) = true.
Proof.
  intros Hc Hx. destruct (literal_facts c Hc) as (Hneg & Hmag & Hnz & Hp).
  unfold Number_divide. rewrite Hneg, Hmag, Hnz, xorb_false_r.
  unfold number_literal.
  destruct x as [|[|]| |q]; try reflexivity; try discriminate.
  apply number_of_MV_not_positive.
  - apply Qmult_le_0_compat; [apply magnitude_nonneg|].
    apply Qinv_le_0_compat. lra.
  - destruct (not_positive_magnitude q Hx) as [H | H]; [now left|].
    right. unfold Qdiv. rewrite H. apply Qmult_0_l.
Qed.

Lemma remainder_not_positive (n : number) (c : Z) :
  (0 < c)%Z -> not_positive n = true ->
  not_positive (Number_remainder n (number_literal c)) = true.
Proof.
  intros Hc Hn. destruct (literal_facts c Hc) as (Hneg & Hmag & Hnz & Hp).
  unfold Number_remainder. rewrite Hmag, Hnz. unfold number_literal.
  destruct n as [|[|]| |q]; try reflexivity.
  destruct (Qeq_bool (magnitude (Num q)) 0) eqn:E0; [exact Hn|].
  apply number_of_MV_not_positive.
  - pose proof (Qfloor_le (magnitude (Num q) / inject_Z c)) as Hf.
    assert (Hm : (inject_Z c
                  * inject_Z (Qfloor (magnitude (Num q) / inject_Z c))
                  <= magnitude (Num q))%Q).
    { apply Qle_trans
        with (inject_Z c * (magnitude (Num q) / inject_Z c))%Q.
      - now apply Qmult_le_l.
      - rewrite Qmult_div_r; [apply Qle_refl | lra]. }
    lra.
  - destruct (not_positive_magnitude q Hn) as [H | H]; [now left|].
    apply Qeq_eq_bool in H. congruence.
Qed.

Lemma trunc_not_positive (x : number) :
  not_positive x = true -> not_positive (Math_trunc x) = true.
Proof.
  intros Hx. destruct x as [|[|]| |q]; try exact Hx.
  cbn [Math_trunc].
  destruct (Qnum q ÷ Z.pos (Qden q) =? 0)%Z eqn:Et.
  - now destruct (negative (Num q)).
  - rewrite not_positive_Num in *. apply Qle_bool_iff in Hx.
    apply Qle_bool_iff. change 0%Q with (inject_Z 0). rewrite <- Zle_Qle.
    unfold Qle in Hx. simpl in Hx.
    pose proof (Z.mul_quot_ge (Qnum q) (Z.pos (Qden q))
                  ltac:(lia) ltac:(lia)).
    nia.
Qed.

Lemma duration_not_positive (ms : number) :
  not_positive ms = true ->
  let d := duration_of ms in
  not_positive (years d) = true /\ not_positive (weeks d) = true
  /\ not_positive (days d) = true /\ not_positive (hours d) = true
  /\ not_positive (minutes d) = true /\ not_positive (seconds d) = true.
Proof.
  intros H. cbn [duration_of years weeks days hours minutes seconds].
  repeat split;
    repeat first [ apply trunc_not_positive
                 | apply remainder_not_positive; [lia|]
                 | apply divide_not_positive; [lia|] ];
    exact H.
Qed.

Lemma not_positive_test (x : number) :
  not_positive x = true -> Number_lessThan (number_literal 0) x = false.
Proof. unfold not_positive. now destruct (Number_lessThan _ _). Qed.

(** X20.  [msToHuman] returns the empty string for every duration that is
    not above zero: zero, negative zero, a negative number, negative
    infinity and NaN. *)
Theorem msToHuman_not_positive (ms : number) :
  not_positive ms = true -> msToHuman ms = [].
Proof.
  intros H.
  destruct (duration_not_positive ms H) as (Hy & Hw & Hd & Hh & Hm & Hs).
  unfold msToHuman, add_counted.
  now rewrite !not_positive_test by assumption.
Qed.

Lemma msToHuman_not_positive_witness :
  msToHuman (Num (- 3600000)%Q) = [].
Proof. apply msToHuman_not_positive. reflexivity. Defined.

(** X21.  For a duration that is not above zero [msToShort] writes the
    seconds alone, whatever the other units are: a negative hour is
    ["0s"]. *)
Theorem msToShort_not_positive (ms : number) :
  not_positive ms = true ->
  msToShort ms = Number_toString (seconds (duration_of ms)) ++ js "s".
Proof.
  intros H.
  destruct (duration_not_positive ms H) as (Hy & Hw & Hd & Hh & Hm & Hs).
  unfold msToShort.
  now rewrite !not_positive_test by assumption.
Qed.

Lemma msToShort_not_positive_witness :
  msToShort (Num (- 3600000)%Q) = js "0s".
Proof.
  rewrite (msToShort_not_positive (Num (- 3600000)%Q)); reflexivity.
Defined.

(** The padding loops of [msToShort] end within two turns. *)
Lemma two_digits_fuel (k : nat) (s : jsstring) :
  two_digits (2 + k) s = two_digits 2 s.
Proof.
  destruct s as [|a [|b s]]; [| |reflexivity].
  - destruct k; reflexivity.
  - reflexivity.
Qed.

Lemma counted_nonempty (n : number) (unit : jsstring) :
  counted n unit <> [].
Proof. unfold counted. destruct (Number_toString n); discriminate. Qed.

Lemma counted_part_nonempty (n : number) (unit : jsstring) :
  Forall (fun p => p <> []) (counted_part n unit).
Proof.
  unfold counted_part. destruct (Number_lessThan _ _); constructor;
    [apply counted_nonempty | constructor].
Qed.

Lemma join_length_pos (sep p : jsstring) (ps : list jsstring) :
  p <> [] -> (0 <? length (join sep (p :: ps)))%nat = true.
Proof.
  intros Hp. destruct p as [|c p]; [congruence|].
  destruct ps; reflexivity.
Qed.

(** Adding a unit to the words so far adds it to the list they join. *)
Lemma add_counted_join (ps : list jsstring) (n : number)
    (unit : jsstring) :
  Forall (fun p => p <> []) ps ->
  add_counted (join (js ", ") ps) n unit
  = join (js ", ") (ps ++ counted_part n unit).
Proof.
  intros Hps. unfold add_counted, counted_part.
  destruct (Number_lessThan _ _); [|now rewrite app_nil_r].
  rewrite join_snoc. destruct ps as [|p ps]; [reflexivity|].
  inversion Hps as [|? ? Hp _]. now rewrite join_length_pos.
Qed.

(** X22.  [msToHuman] joins with [", "] the texts of the units whose count
    is above zero, largest unit first: there is no separator before the
    first text or after the last. *)
Theorem msToHuman_joined (ms : number) :
  msToHuman ms
  = join (js ", ")
      (map (fun p => counted (fst p) (snd p))
         (filter (fun p => Number_lessThan (number_literal 0) (fst p))
            (counted_units (duration_of ms)))).
Proof.
  unfold msToHuman. set (d := duration_of ms).
  replace (if Number_lessThan (number_literal 0) (years d)
           then counted (years d) (js "year") else [])
    with (join (js ", ") (counted_part (years d) (js "year")))
    by (unfold counted_part; now destruct (Number_lessThan _ _)).
  rewrite !add_counted_join
    by (repeat (apply Forall_app; split); apply counted_part_nonempty).
  f_equal. unfold counted_units, counted_part. cbn [filter map fst snd].
  repeat match goal with
         | |- context [Number_lessThan ?a ?b] =>
             destruct (Number_lessThan a b)
         end; reflexivity.
Qed.


(** ** Reading [headers] after a call *)

Lemma define_property_fresh (key : jsstring) (v : json)
    (props : list (jsstring * json)) :
  Forall (fun p => jsstring_eqb (fst p) key = false) props ->
  define_property key v props = props ++ [(key, v)].
Proof.
  induction props as [|p props IH]; intros H; [reflexivity|].
  inversion H as [|? ? Hp Hps]. subst.
  cbn [define_property app]. rewrite Hp. now rewrite IH.
Qed.

Lemma created_properties_distinct (members : list (jsstring * json)) :
  forall acc,
    Forall (fun p =>
              Forall (fun m => jsstring_eqb (fst p) (fst m) = false) members)
      acc ->
    ForallOrdPairs (fun p m => jsstring_eqb (fst p) (fst m) = false) members ->
    fold_left (fun props m => define_property (fst m) (snd m) props)
      members acc
    = acc ++ members.
Proof.
  induction members as [|m members IH]; intros acc Hacc Hd.
  - cbn. now rewrite app_nil_r.
  - inversion Hd as [|? ? Hm Hd']. subst. cbn [fold_left].
    rewrite define_property_fresh.
    + rewrite IH; [| |exact Hd'].
      * rewrite <- app_assoc. now destruct m.
      * apply Forall_app. split.
        -- eapply Forall_impl; [|exact Hacc].
           intros p Hp. now inversion Hp.
        -- constructor; [|constructor]. now destruct m.
    + eapply Forall_impl; [|exact Hacc].
      intros p Hp. now inversion Hp.
Qed.

(** The own properties of an object whose text has distinct keys, none of
    them an array index, are the members of the text in their order. *)
Lemma own_properties_members (members : list (jsstring * json)) :
  ForallOrdPairs (fun p m => jsstring_eqb (fst p) (fst m) = false) members ->
  Forall (fun m => array_index (fst m) = None) members ->
  own_properties members = members.
Proof.
  intros Hd Hi. unfold own_properties, created_properties.
  rewrite created_properties_distinct by (constructor || exact Hd).
  cbn [app]. clear Hd.
  induction members as [|m members IH]; [reflexivity|].
  inversion Hi as [|? ? Hm Hi']. subst.
  cbn [fold_right filter]. rewrite Hm.
  specialize (IH Hi').
  destruct (fold_right _ _ members) as [|q l] eqn:E.
  - cbn [map app] in *. now rewrite IH.
  - exfalso. clear IH. revert q l E.
    induction members as [|m' members IH']; intros q l E; [discriminate|].
    inversion Hi' as [|? ? Hm' Hi'']. subst.
    cbn [fold_right] in E. rewrite Hm' in E. eauto.
Qed.

(** X23.  When [incomingHeaders] decodes to [null], reading [headers] on
    the returned response gives the reply's own headers; when it decodes
    to a boolean, a number or a string, the call still returns and every
    read of [headers] throws a [TypeError]. *)
Theorem incoming_headers_no_object
    (transport : Transport) (self : FetchProxy.t)
    (endpoint : FetchProxy.Endpoint) (options : RequestInit)
    (res : Response.t) (resp : FetchProxy.ProxyResponse) (v : jsstring)
    (j : json) :
  transport (FetchProxy.proxyEndpoint self)
    (FetchProxy.configuredOptions endpoint options) = Ok res ->
  run transport (FetchProxy.fetch self endpoint options) = Ok resp ->
  Headers.get (Response.headers res) (js "incomingHeaders") = Some v ->
  JSON_parse v = Ok j ->
  (j = JNull -> read_headers resp = Ok (Response.headers res))
  /\ ((exists b, j = JBool b) \/ (exists n, j = JNum n)
      \/ (exists s, j = JStr s) ->
      read_headers resp = Throw TypeError).
Proof.
  intros Ht Hrun Hget Hparse.
  rewrite (read_decoded transport self endpoint options res resp v j
             Ht Hrun Hget Hparse).
  split.
  - now intros ->.
  - intros [[b ->] | [[n ->] | [s ->]]]; reflexivity.
Qed.

Lemma incoming_headers_no_object_witness :
  let hs := [(js "incomingHeaders", js "5"); (js "x-ratelimit", js "9")] in
  exists resp,
    run (replying (relay_reply 200 hs))
      (FetchProxy.fetch relay target no_options) = Ok resp
    /\ read_headers resp = Throw TypeError.
Proof.
  intros hs.
  destruct (run (replying (relay_reply 200 hs))
              (FetchProxy.fetch relay target no_options))
    as [resp|e] eqn:E; [|vm_compute in E; discriminate].
  exists resp. split; [reflexivity|].
  apply (incoming_headers_no_object (replying (relay_reply 200 hs)) relay
           target no_options (relay_reply 200 hs) resp (js "5")
           (JNum (Num 5)) eq_refl E eq_refl eq_refl).
  right. left. now exists (Num 5).
Defined.


Lemma drop_while_forallb {A} (f P : A -> bool) (l : list A) :
  (forall x, f x = true -> P x = true) ->
  forallb P (drop_while f l) = forallb P l.
Proof.
  intros HfP. induction l as [|x l IH]; [reflexivity|].
  cbn [drop_while]. destruct (f x) eqn:E; [|reflexivity].
  cbn [forallb]. now rewrite (HfP x E), IH.
Qed.

Lemma forallb_rev {A} (P : A -> bool) (l : list A) :
  forallb P (rev l) = forallb P l.
Proof.
  induction l as [|x l IH]; [reflexivity|].
  cbn [rev forallb]. rewrite forallb_app, IH. cbn [forallb].
  rewrite andb_true_r. apply andb_comm.
Qed.

(** Removing white space from both ends leaves a byte string a byte
    string, and nothing else one. *)
Lemma normalize_bytes (value : jsstring) :
  forallb (fun c => c <=? 255) (Headers.normalize value)
  = forallb (fun c => c <=? 255) value.
Proof.
  assert (Hw : forall c, Headers.is_http_whitespace c = true ->
                         (c <=? 255) = true).
  { intros c H. unfold Headers.is_http_whitespace in H.
    rewrite ?orb_true_iff, ?N.eqb_eq in H. apply N.leb_le.
    intuition lia. }
  unfold Headers.normalize, strip.
  now rewrite forallb_rev, drop_while_forallb, forallb_rev,
    drop_while_forallb by exact Hw.
Qed.

Lemma valid_value_bytes (value : jsstring) :
  Headers.valid_value value = true ->
  forallb (fun c => c <=? 255) value = true.
Proof.
  unfold Headers.valid_value. rewrite !forallb_forall.
  intros H c Hc. specialize (H c Hc).
  apply andb_true_iff in H. now destruct H.
Qed.

Lemma valid_name_bytes (name : jsstring) :
  Headers.valid_name name = true ->
  forallb (fun c => c <=? 255) name = true.
Proof.
  unfold Headers.valid_name. intros H.
  apply andb_true_iff in H. destruct H as [_ H].
  rewrite forallb_forall in *. intros c Hc.
  apply N.leb_le, tchar_byte, H, Hc.
Qed.

(** Filling from a record appends the entries, the values normalized, or
    fails on the first one that is not valid. *)
Lemma fill_record_spec (entries : list (jsstring * jsstring)) :
  forall h,
    fill_record h entries
    = if forallb valid_entry
           (map (fun e => (fst e, Headers.normalize (snd e))) entries)
      then Ok (h ++ map (fun e => (fst e, Headers.normalize (snd e))) entries)
      else Throw TypeError.
Proof.
  induction entries as [|e entries IH]; intros h.
  - cbn. now rewrite app_nil_r.
  - cbn [fill_record map forallb]. unfold Headers.append.
    unfold valid_entry at 1. cbn [fst snd].
    destruct (Headers.valid_name (fst e)
              && Headers.valid_value (Headers.normalize (snd e)));
      cbn [bind andb]; [|reflexivity].
    rewrite IH. now rewrite <- app_assoc.
Qed.

Lemma convert_record_spec (props : list (jsstring * json)) :
  convert_record props
  = if forallb (fun p => forallb (fun c => c <=? 255) (fst p)
                         && forallb (fun c => c <=? 255)
                              (json_ToString (snd p))) props
    then Ok (map (fun p => (fst p, json_ToString (snd p))) props)
    else Throw TypeError.
Proof.
  induction props as [|p props IH]; [reflexivity|].
  cbn [convert_record map]. unfold ByteString.
  change (forallb ?f (p :: props)) with (f p && forallb f props).
  cbv beta. unfold jsstring, code_unit in *.
  destruct (forallb (fun c => c <=? 255) (fst p)); [|reflexivity].
  destruct (forallb (fun c => c <=? 255) (json_ToString (snd p)));
    [|reflexivity].
  cbn [bind andb]. rewrite IH.
  now destruct (forallb _ props).
Qed.

(** [new Headers] for the properties of an object. *)
Lemma convert_fill (props : list (jsstring * json)) :
  let entries :=
    map (fun p => (fst p, Headers.normalize (json_ToString (snd p)))) props in
  bind (convert_record props) (fill_record [])
  = if forallb valid_entry entries then Ok entries else Throw TypeError.
Proof.
  intros entries.
  assert (Hb : forallb valid_entry entries = true ->
               forallb (fun p => forallb (fun c => c <=? 255) (fst p)
                                 && forallb (fun c => c <=? 255)
                                      (json_ToString (snd p))) props
               = true).
  { subst entries. induction props as [|p props IH]; [reflexivity|].
    cbn [map forallb]. intros H. apply andb_true_iff in H.
    destruct H as [Hp H]. unfold valid_entry in Hp. cbn [fst snd] in Hp.
    apply andb_true_iff in Hp. destruct Hp as [Hn Hv].
    apply valid_name_bytes in Hn. apply valid_value_bytes in Hv.
    rewrite normalize_bytes in Hv.
    unfold jsstring, code_unit in *. rewrite Hn, Hv. exact (IH H). }
  assert (Hm : map (fun e : jsstring * jsstring =>
                      (fst e, Headers.normalize (snd e)))
                 (map (fun p => (fst p, json_ToString (snd p))) props)
               = entries).
  { subst entries. rewrite map_map. reflexivity. }
  rewrite convert_record_spec. unfold jsstring, code_unit in *.
  match goal with
  | |- context [if ?b then Ok (map _ props) else _] => destruct b eqn:Eb
  end.
  - cbn [bind]. rewrite fill_record_spec.
    unfold jsstring, code_unit in *. rewrite Hm. reflexivity.
  - cbn [bind].
    assert (Ev : forallb valid_entry entries = false).
    { destruct (forallb valid_entry entries) eqn:Ev'; [|reflexivity].
      symmetry. exact (Hb Ev'). }
    match goal with
    | |- context [if ?b then _ else _] =>
        replace b with false by (symmetry; exact Ev)
    end.
    reflexivity.
Qed.

(** X24.  When [incomingHeaders] decodes to an object, reading [headers]
    on the returned response gives, for each own property of the object
    in the order of enumeration, its key with its value converted to text
    and stripped of the white space around it; when one key is no header
    name or one value no header value, every read throws a [TypeError],
    although the call itself returned. *)
Theorem decoded_object_read
    (transport : Transport) (self : FetchProxy.t)
    (endpoint : FetchProxy.Endpoint) (options : RequestInit)
    (res : Response.t) (resp : FetchProxy.ProxyResponse) (v : jsstring)
    (members : list (jsstring * json)) :
  transport (FetchProxy.proxyEndpoint self)
    (FetchProxy.configuredOptions endpoint options) = Ok res ->
  run transport (FetchProxy.fetch self endpoint options) = Ok resp ->
  Headers.get (Response.headers res) (js "incomingHeaders") = Some v ->
  JSON_parse v = Ok (JObj members) ->
  read_headers resp
  = if forallb valid_entry (decoded_entries members)
    then Ok (decoded_entries members)
    else Throw TypeError.
Proof.
  intros Ht Hrun Hget Hparse.
  rewrite (read_decoded transport self endpoint options res resp v
             (JObj members) Ht Hrun Hget Hparse).
  cbn [new_Headers]. apply (convert_fill (own_properties members)).
Qed.

Lemma decoded_object_read_witness :
  let text :=
    object_text
      [(js "x-n", js "5"); (js "1", QuoteJSONString (js " y "))] in
  let hs := [(js "incomingHeaders", text)] in
  exists resp,
    run (replying (relay_reply 200 hs))
      (FetchProxy.fetch relay target no_options) = Ok resp
    /\ read_headers resp = Ok [(js "1", js "y"); (js "x-n", js "5")].
Proof.
  intros text hs.
  destruct (run (replying (relay_reply 200 hs))
              (FetchProxy.fetch relay target no_options))
    as [resp|e] eqn:E; [|vm_compute in E; discriminate].
  exists resp. split; [reflexivity|].
  rewrite (decoded_object_read (replying (relay_reply 200 hs)) relay
             target no_options (relay_reply 200 hs) resp text
             [(js "x-n", JNum (Num 5)); (js "1", JStr (js " y "))]
             eq_refl E eq_refl eq_refl).
  reflexivity.
Defined.
